(** * Product projection search filters (src/lib/projectionSearchFilter.ts)

    A shallow embedding of the filter-expression module of the commercetools
    mock: the tokenizer configuration [getLexer], the operator-precedence
    compiler [generateMatchFunc], the path resolver [resolveValue], the variant
    extraction [getVariants], the four filter families and the dispatcher
    [parseFilterExpression], followed by the properties established for them.

    Conventions of the embedding.
    - A JavaScript string is a [string] of code units below 256.
    - A JavaScript number is modelled when it is an integer ([Z]); an integer
      literal that is not a safe integer (2^53 and above) is outside the model.
    - Product data is a tree of plain data values ([value]); only own
      properties are modelled, and the data is tree shaped (no sharing).
    - A call either returns, throws, or leaves the modelled fragment
      ([outcome]); in-place mutation of the product is modelled by returning
      the product after the call. *)

From Stdlib Require Import Bool List ZArith Lia Ascii String.
Import ListNotations.

Set Warnings "-register-all".

Local Open Scope string_scope.
Local Open Scope Z_scope.

(** ** Outcomes *)

(** A lexical token of the tokenizer: its kind, the matched text and the
    first capture group of the pattern, when it has one. *)
Inductive token_type : Type :=
| MISSING | EXISTS | RANGE | TO | IDENTIFIER | FLOAT | INT | STRING
| COMMA | LPAREN | COLON | RPAREN | DQUOTE | WS
| EOF.

Record token : Type := Token {
  ttype : token_type;
  tmatch : string;
  tgroup1 : option string
}.

(** What a call can throw. *)
Inductive js_error : Type :=
| TypeError                          (* raised by the engine *)
| Error (message : string)           (* [throw new Error(message)] in this module *)
| UnexpectedInput (rest : string)    (* tokenizer: no pattern matches the remaining input *)
| UnexpectedToken (t : token).       (* compiler: the token has no rule in this position *)

Inductive outcome (A : Type) : Type :=
| Ok (a : A)
| Throw (e : js_error)
| OutOfFuel                          (* recursion bound of the model exhausted *)
| Unmodelled.                        (* behaviour outside the modelled fragment *)

Arguments Ok {A} a.
Arguments Throw {A} e.
Arguments OutOfFuel {A}.
Arguments Unmodelled {A}.

Definition bind {A B : Type} (m : outcome A) (k : A -> outcome B) : outcome B :=
  match m with
  | Ok a => k a
  | Throw e => Throw e
  | OutOfFuel => OutOfFuel
  | Unmodelled => Unmodelled
  end.

Notation "x <- m ;; k" := (bind m (fun x => k))
  (at level 61, m at next level, right associativity).
Notation "' pat <- m ;; k" := (bind m (fun x => match x with pat => k end))
  (at level 61, pat pattern, m at next level, right associativity).

(** ** Strings *)

(** [s.split(sep)] for a one-character separator: never empty. *)
Fixpoint split (sep : ascii) (s : string) : list string :=
  match s with
  | EmptyString => [""]
  | String c s' =>
      if Ascii.eqb c sep then "" :: split sep s'
      else match split sep s' with
           | [] => [String c ""]
           | seg :: segs => String c seg :: segs
           end
  end.

(** [s.split(sep, limit)]. *)
Definition split_limit (sep : ascii) (s : string) (limit : nat) : list string :=
  firstn limit (split sep s).

(** [s.startsWith(p)]. *)
Definition startsWith (s p : string) : bool := String.prefix p s.

(** ** Data values *)

(** The product graph handed to a filter. An object keeps its own properties
    in insertion order. *)
Inductive value : Type :=
| VUndef
| VNull
| VBool (b : bool)
| VNum (n : Z)
| VStr (s : string)
| VArr (elems : list value)
| VObj (fields : list (string * value)).

Fixpoint lookup (k : string) (fields : list (string * value)) : option value :=
  match fields with
  | [] => None
  | (k', v) :: rest => if String.eqb k k' then Some v else lookup k rest
  end.

Fixpoint store (k : string) (v : value) (fields : list (string * value))
  : list (string * value) :=
  match fields with
  | [] => [(k, v)]
  | (k', v') :: rest =>
      if String.eqb k k' then (k, v) :: rest else (k', v') :: store k v rest
  end.

Definition is_digit (c : ascii) : bool :=
  let n := N_of_ascii c in ((48 <=? n) && (n <=? 57))%N.

Definition digit_value (c : ascii) : Z := Z.of_N (N_of_ascii c) - 48.

(** Value of a run of decimal digits, most significant first. *)
Definition decimal (s : string) : Z :=
  fold_left (fun acc c => 10 * acc + digit_value c) (list_ascii_of_string s) 0.

(** A property key that is an array index: a canonical decimal numeral. *)
Definition array_index (k : string) : option nat :=
  match k with
  | EmptyString => None
  | String c rest =>
      if forallb is_digit (list_ascii_of_string k)
         && (negb (Ascii.eqb c "0") || String.eqb rest "")
      then Some (Z.to_nat (decimal k))
      else None
  end.

Definition chars (s : string) : list value :=
  map (fun c => VStr (String c "")) (list_ascii_of_string s).

(** [o[k]]: reading a property. The properties read are the value's own:
    the fields of an object, the elements and the length of an array or a
    string. A name that a value only inherits from a prototype, such as
    [constructor] or the methods of strings and arrays, is read as undefined
    here; the properties below are stated where the name read is one of the
    fixed field names of the module or an own property of the value. *)
Definition get_prop (o : value) (k : string) : outcome value :=
  match o with
  | VUndef | VNull => Throw TypeError
  | VBool _ | VNum _ => Ok VUndef
  | VStr s =>
      if String.eqb k "length" then Ok (VNum (Z.of_nat (String.length s)))
      else match array_index k with
           | Some i => Ok (nth i (chars s) VUndef)
           | None => Ok VUndef
           end
  | VArr l =>
      if String.eqb k "length" then Ok (VNum (Z.of_nat (List.length l)))
      else match array_index k with
           | Some i => Ok (nth i l VUndef)
           | None => Ok VUndef
           end
  | VObj fs => Ok (match lookup k fs with Some v => v | None => VUndef end)
  end.

(** [o?.k]. *)
Definition get_prop_opt (o : value) (k : string) : outcome value :=
  match o with
  | VUndef | VNull => Ok VUndef
  | _ => get_prop o k
  end.

(** [!v] is false. *)
Definition truthy (v : value) : bool :=
  match v with
  | VUndef | VNull => false
  | VBool b => b
  | VNum n => negb (n =? 0)
  | VStr s => negb (String.eqb s "")
  | VArr _ | VObj _ => true
  end.

(** The elements produced by iterating [v] (spread, [for ... of]). *)
Definition iterate (v : value) : outcome (list value) :=
  match v with
  | VArr l => Ok l
  | VStr s => Ok (chars s)
  | _ => Throw TypeError
  end.

(** ** Path resolver *)

(** The [for] loop of [resolveValue]: [i] runs from its start to
    [parts.length], [n] counts the remaining iterations. *)
Fixpoint resolve_loop (parts : list string) (n i : nat) (val : value)
  : outcome value :=
  match n with
  | O => Ok val
  | S n' =>
      let part := nth i parts "" in
      val' <- get_prop val part ;;
      resolve_loop parts n' (S i) val'
  end.

Definition resolveValue (obj : value) (path : option string) : outcome value :=
  match path with
  | None => Ok obj
  | Some p =>
      let parts := split "." p in
      resolve_loop parts (List.length parts) 0%nat obj
  end.

(** ** Tokenizer *)

(** The double-quote character, code 34. *)
Definition dquote : ascii := Ascii false true false false false true false false.

(** Character classes of the token patterns. The patterns carry the [i] flag
    and no [u] flag, so [a-z] matches the ASCII letters of both cases only. *)
Definition in_range (lo hi : N) (c : ascii) : bool :=
  let n := N_of_ascii c in ((lo <=? n) && (n <=? hi))%N.

Definition is_letter (c : ascii) : bool := in_range 65 90 c || in_range 97 122 c.

Definition lower (c : ascii) : ascii :=
  if in_range 65 90 c then ascii_of_N (N_of_ascii c + 32) else c.

(** [[-_\.a-z]] *)
Definition ident_char (c : ascii) : bool :=
  Ascii.eqb c "-" || Ascii.eqb c "_" || Ascii.eqb c "." || is_letter c.

(** [[-_a-z0-9]], the class of the keyword lookahead. *)
Definition guard_char (c : ascii) : bool :=
  Ascii.eqb c "-" || Ascii.eqb c "_" || is_letter c || is_digit c.

(** [\s] *)
Definition is_space (c : ascii) : bool :=
  in_range 9 13 c || Ascii.eqb c " " || (N_of_ascii c =? 160)%N.

(** The characters [.] does not match. *)
Definition line_terminator (c : ascii) : bool :=
  (N_of_ascii c =? 10)%N || (N_of_ascii c =? 13)%N.

(** The result of a pattern at the start of the remaining input: the matched
    text, capture group 1, and the input after the match. *)
Definition match_result : Type := (string * option string * string)%type.

(** Longest prefix of characters of a class (a greedy [[...]*]). *)
Fixpoint span (p : ascii -> bool) (s : string) : string * string :=
  match s with
  | EmptyString => ("", "")
  | String c s' =>
      if p c then let '(a, b) := span p s' in (String c a, b) else ("", s)
  end.

(** [[...]+] *)
Definition one_or_more (p : ascii -> bool) (s : string) : option match_result :=
  match span p s with
  | (EmptyString, _) => None
  | (m, rest) => Some (m, None, rest)
  end.

(** The letters of [kw] (given in lower case), in either case. *)
Fixpoint literal_ci (kw s : string) : option (string * string) :=
  match kw with
  | EmptyString => Some ("", s)
  | String k kw' =>
      match s with
      | EmptyString => None
      | String c s' =>
          if Ascii.eqb (lower c) k
          then match literal_ci kw' s' with
               | Some (m, rest) => Some (String c m, rest)
               | None => None
               end
          else None
      end
  end.

(** [/kw(?![-_a-z0-9]+)/i] *)
Definition keyword (kw : string) (s : string) : option match_result :=
  match literal_ci kw s with
  | None => None
  | Some (m, rest) =>
      match rest with
      | EmptyString => Some (m, None, rest)
      | String c _ => if guard_char c then None else Some (m, None, rest)
      end
  end.

(** [/\d+\.\d+/] *)
Definition float_pattern (s : string) : option match_result :=
  match span is_digit s with
  | (EmptyString, _) => None
  | (int_part, String "." rest) =>
      match span is_digit rest with
      | (EmptyString, _) => None
      | (frac_part, rest') => Some (int_part ++ "." ++ frac_part, None, rest')
      end
  | _ => None
  end.

(** The STRING patterns: an opening quote [q], then any number of items that
    are either a backslash followed by a character other than a line
    terminator, or one character that is neither [q] nor a backslash, then a
    closing [q]. [quoted_body] reads the items and the closing quote: it
    gives the captured text and the input after the closing quote. *)
Fixpoint quoted_body (q : ascii) (s : string) : option (string * string) :=
  match s with
  | EmptyString => None
  | String c s' =>
      if Ascii.eqb c q then Some ("", s')
      else if Ascii.eqb c "\" then
        match s' with
        | EmptyString => None
        | String d s'' =>
            if line_terminator d then None
            else match quoted_body q s'' with
                 | Some (inner, rest) => Some (String c (String d inner), rest)
                 | None => None
                 end
        end
      else match quoted_body q s' with
           | Some (inner, rest) => Some (String c inner, rest)
           | None => None
           end
  end.

Definition quoted (q : ascii) (s : string) : option match_result :=
  match s with
  | EmptyString => None
  | String c s' =>
      if Ascii.eqb c q
      then match quoted_body q s' with
           | Some (inner, rest) =>
               Some (String q (inner ++ String q ""), Some inner, rest)
           | None => None
           end
      else None
  end.

(** A pattern given as a one-character string. *)
Definition single (ch : ascii) (s : string) : option match_result :=
  match s with
  | EmptyString => None
  | String c s' => if Ascii.eqb c ch then Some (String c "", None, s') else None
  end.

Record token_rule : Type := TokenRule {
  rule_type : token_type;
  rule_pattern : string -> option match_result;
  rule_skip : bool
}.

(** The token table of [getLexer], in registration order. *)
Definition token_rules : list token_rule :=
  [ TokenRule MISSING (keyword "missing") false;
    TokenRule EXISTS (keyword "exists") false;
    TokenRule RANGE (keyword "range") false;
    TokenRule TO (keyword "to") false;
    TokenRule IDENTIFIER (one_or_more ident_char) false;
    TokenRule FLOAT float_pattern false;
    TokenRule INT (one_or_more is_digit) false;
    TokenRule STRING (quoted dquote) false;
    TokenRule STRING (quoted "'") false;
    TokenRule COMMA (single ",") false;
    TokenRule LPAREN (single "(") false;
    TokenRule COLON (single ":") false;
    TokenRule RPAREN (single ")") false;
    TokenRule DQUOTE (single dquote) false;
    TokenRule WS (one_or_more is_space) true ].

(** Modelled from the spec: the tokenizer class of the perplex package, which
    [getLexer] configures, is not among the sources. As section 4.1 of the
    specification has it, the patterns are tried in their fixed order
    against the remaining input, and the first one that matches there makes
    the token. *)
Fixpoint first_match (rules : list token_rule) (s : string)
  : option (token_rule * match_result) :=
  match rules with
  | [] => None
  | r :: rules' =>
      match rule_pattern r s with
      | Some m => Some (r, m)
      | None => first_match rules' s
      end
  end.

(** The tokenizer state: the source from the current position on. *)
Definition lexer : Type := string.

Definition getLexer (value : string) : lexer := value.

Definition eof_token : token := Token EOF "" None.

(** Modelled from the spec: reading one token with the perplex tokenizer
    (section 4.1). The end of the input gives the end-of-input token, the
    match of a skipped rule emits no token and reading goes on after it, and
    an input that no pattern matches is an error. The recursion after a
    skipped match is bounded by [fuel]. *)
Fixpoint read (fuel : nat) (s : string) : outcome (token * lexer) :=
  match fuel with
  | O => OutOfFuel
  | S fuel' =>
      match s with
      | EmptyString => Ok (eof_token, s)
      | _ =>
          match first_match token_rules s with
          | None => Throw (UnexpectedInput s)
          | Some (r, (m, g, rest)) =>
              if rule_skip r then read fuel' rest
              else Ok (Token (rule_type r) m g, rest)
          end
      end
  end.

(** [lexer.next()]: the next token and the state after it. The bound given
    to [read] is enough for every input ([next_equation] below). *)
Definition next (lx : lexer) : outcome (token * lexer) :=
  read (S (String.length lx)) lx.

(** [lexer.peek()]: the next token, the state unchanged. *)
Definition peek (lx : lexer) : outcome token :=
  '(t, _) <- next lx ;; Ok t.

(** ** Predicate compiler *)

Definition MatchFunc : Type := value -> outcome bool.

(** What a rule of the compiler yields: the text of an identifier or of a
    string literal, an integer, a match function, or an array of these. *)
Inductive parsed : Type :=
| PStr (s : string)
| PNum (n : Z)
| PFun (f : MatchFunc)
| PArr (items : list parsed).

(** Binding powers are numbers, infinite ones included. *)
Inductive power : Type :=
| NegInf
| Fin (n : Z)
| PosInf.

(** [a < b] *)
Definition power_lt (a b : power) : bool :=
  match a, b with
  | NegInf, NegInf => false
  | NegInf, _ => true
  | Fin _, NegInf => false
  | Fin x, Fin y => x <? y
  | Fin _, PosInf => true
  | PosInf, _ => false
  end.

(** [bp - 1] *)
Definition power_pred (p : power) : power :=
  match p with
  | Fin n => Fin (n - 1)
  | _ => p
  end.

(** [parser.bp(token)]: the power registered for the token type by the
    builder calls of [generateMatchFunc]. Modelled from the spec: what the
    parser class of the pratt package answers for the other tokens is not
    among the sources; it is minus infinity at the end of the input, so that
    every sub-expression stops there, and plus infinity for a type that has
    no power registered. *)
Definition bp (t : token) : power :=
  match ttype t with
  | EOF => NegInf
  | IDENTIFIER => Fin 100
  | COLON => Fin 100
  | STRING => Fin 20
  | INT => Fin 5
  | EXISTS => Fin 10
  | MISSING => Fin 10
  | COMMA => Fin 200
  | RPAREN => Fin 0
  | TO => Fin 20
  | RANGE => Fin 20
  | FLOAT | LPAREN | DQUOTE | WS => PosInf
  end.

(** [obj === expr] for a data value and a compiler result: arrays and
    functions made by the compiler are never identical to product data. *)
Definition strict_equals (obj : value) (expr : parsed) : bool :=
  match obj, expr with
  | VStr a, PStr b => String.eqb a b
  | VNum a, PNum b => a =? b
  | _, _ => false
  end.

(** [expr.includes(obj)] *)
Definition includes (expr : list parsed) (obj : value) : bool :=
  existsb (strict_equals obj) expr.

(** Operands of [>=] and [<=] after conversion to a primitive, as far as
    the conversion is modelled. *)
Inductive operand : Type :=
| OpUndef
| OpNum (n : Z)
| OpStr (s : string)
| OpOther.

Definition operand_of_value (v : value) : operand :=
  match v with
  | VUndef => OpUndef
  | VNull => OpNum 0
  | VBool b => OpNum (if b then 1 else 0)
  | VNum n => OpNum n
  | VStr s => OpStr s
  | VArr _ | VObj _ => OpOther
  end.

(** A bound of a range is a compiler result, or undefined. *)
Definition operand_of_bound (b : option parsed) : operand :=
  match b with
  | None => OpUndef
  | Some (PNum n) => OpNum n
  | Some (PStr s) => OpStr s
  | Some (PFun _) | Some (PArr _) => OpOther
  end.

(** [a <= b]: numbers by value, two strings by code units, false as soon as
    one side is undefined; a string against a number is not modelled. *)
Definition js_le (a b : operand) : outcome bool :=
  match a, b with
  | OpUndef, _ | _, OpUndef => Ok false
  | OpNum x, OpNum y => Ok (x <=? y)
  | OpStr x, OpStr y => Ok (String.leb x y)
  | _, _ => Unmodelled
  end.

(** [a >= b] *)
Definition js_ge (a b : operand) : outcome bool := js_le b a.

(** [parseInt(match, 10)] on the text of an INT token. *)
Definition parseInt (digits : string) : outcome Z :=
  let n := decimal digits in
  if n <? 2 ^ 53 then Ok n else Unmodelled.

(** [const [start, stop] = r] *)
Definition destructure_pair (r : parsed)
  : outcome (option parsed * option parsed) :=
  match r with
  | PArr items => Ok (nth_error items 0, nth_error items 1)
  | PStr s =>
      let cs := map (fun c => PStr (String c "")) (list_ascii_of_string s) in
      Ok (nth_error cs 0, nth_error cs 1)
  | PNum _ | PFun _ => Throw TypeError
  end.

(** The match functions the rules build. *)
Definition match_exists : MatchFunc :=
  fun val => Ok (match val with VUndef => false | _ => true end).

Definition match_missing : MatchFunc :=
  fun val => Ok (match val with VUndef => true | _ => false end).

Definition match_range (start stop : option parsed) : MatchFunc :=
  fun obj =>
    lower_ok <- js_ge (operand_of_value obj) (operand_of_bound start) ;;
    if lower_ok then js_le (operand_of_value obj) (operand_of_bound stop)
    else Ok false.

Definition match_includes (expr : list parsed) : MatchFunc :=
  fun obj => Ok (includes expr obj).

Definition match_call (expr : MatchFunc) : MatchFunc :=
  fun obj => expr obj.

Definition match_equals (expr : parsed) : MatchFunc :=
  fun obj => Ok (strict_equals obj expr).

Section Rules.

(** [parser.parse({terminals: [rbp]})], for the recursive calls of the
    rules. *)
Variable parse : power -> lexer -> outcome (parsed * lexer).

(** The prefix rules of [generateMatchFunc]. Modelled from the spec: a token
    whose type has no prefix rule cannot start an expression; the parser of
    the pratt package raises an error that names the token. *)
Definition nud (t : token) (lx : lexer) : outcome (parsed * lexer) :=
  match ttype t with
  | IDENTIFIER => Ok (PStr (tmatch t), lx)
  | STRING =>
      match tgroup1 t with
      | Some inner => Ok (PStr inner, lx)
      | None => Unmodelled
      end
  | INT => n <- parseInt (tmatch t) ;; Ok (PNum n, lx)
  | EXISTS => Ok (PFun match_exists, lx)
  | MISSING => Ok (PFun match_missing, lx)
  | RANGE =>
      '(_, lx1) <- next lx ;;
      '(r, lx2) <- parse (Fin 0) lx1 ;;
      '(start, stop) <- destructure_pair r ;;
      Ok (PFun (match_range start stop), lx2)
  | _ => Throw (UnexpectedToken t)
  end.

(** The infix rules of [generateMatchFunc]. Modelled from the spec: a token
    whose type has no infix rule cannot follow an expression; the parser of
    the pratt package raises an error that names the token. *)
Definition led (t : token) (left : parsed) (lx : lexer)
  : outcome (parsed * lexer) :=
  match ttype t with
  | COLON =>
      '(expr, lx') <- parse (power_pred (bp t)) lx ;;
      match expr with
      | PArr items => Ok (PFun (match_includes items), lx')
      | PFun f => Ok (PFun (match_call f), lx')
      | _ => Ok (PFun (match_equals expr), lx')
      end
  | COMMA =>
      '(expr, lx') <- parse (power_pred (bp t)) lx ;;
      match expr with
      | PArr items => Ok (PArr (left :: items), lx')
      | _ => Ok (PArr [left; expr], lx')
      end
  | TO =>
      '(expr, lx') <- parse (power_pred (bp t)) lx ;;
      Ok (PArr [left; expr], lx')
  | _ => Throw (UnexpectedToken t)
  end.

(** Modelled from the spec: the operator loop of the parser of the pratt
    package (section 4.2). While the power of the next token is above
    [rbp], the token is taken as an operator and its infix rule is applied to
    the expression read so far. *)
Fixpoint led_loop (fuel : nat) (rbp : power) (left : parsed) (lx : lexer)
  : outcome (parsed * lexer) :=
  match fuel with
  | O => OutOfFuel
  | S fuel' =>
      t <- peek lx ;;
      if power_lt rbp (bp t) then
        '(operator, lx1) <- next lx ;;
        '(left', lx2) <- led operator left lx1 ;;
        led_loop fuel' rbp left' lx2
      else Ok (left, lx)
  end.

End Rules.

(** Modelled from the spec: [parser.parse({terminals: [rbp]})] of the pratt
    package (section 4.2): the prefix rule of the next token, then the
    operator loop. Every call reads a token first, so the depth of the
    recursion is bounded by the length of the input; [fuel] is that bound
    ([parse_enough] below). *)
Fixpoint parse (fuel : nat) (rbp : power) (lx : lexer)
  : outcome (parsed * lexer) :=
  match fuel with
  | O => OutOfFuel
  | S fuel' =>
      '(t, lx1) <- next lx ;;
      '(left0, lx2) <- nud (parse fuel') t lx1 ;;
      led_loop (parse fuel') fuel rbp left0 lx2
  end.

Definition newline : ascii := "010"%char.

Definition generateMatchFunc (filter : string) : outcome MatchFunc :=
  let lexer := getLexer filter in
  '(result, _) <- parse (S (String.length filter)) (Fin 0) lexer ;;
  match result with
  | PFun f => Ok f
  | _ =>
      let lines := split newline filter in
      let column := String.length (last lines "") in
      Throw (Error ("Syntax error while parsing '" ++ filter ++ "'."))
  end.


(** ** Variant extraction *)

(** A product filter: called with the product and [markMatchingVariant], it
    returns its boolean together with the product as the call leaves it. *)
Definition ProductFilter : Type := value -> bool -> outcome (bool * value).

Definition projection_key (staged : bool) : string :=
  if staged then "staged" else "current".

(** [[projection?.masterVariant, ...projection?.variants]] for the projection
    of [p.masterData] selected by [staged]. *)
Definition getVariants (p : value) (staged : bool) : outcome (list value) :=
  masterData <- get_prop p "masterData" ;;
  projection <- get_prop masterData (projection_key staged) ;;
  masterVariant <- get_prop_opt projection "masterVariant" ;;
  variants <- get_prop_opt projection "variants" ;;
  others <- iterate variants ;;
  Ok (masterVariant :: others).

(** [o.k = v] in strict mode; a named property of an array is not modelled. *)
Definition set_prop (o : value) (k : string) (v : value) : outcome value :=
  match o with
  | VObj fs => Ok (VObj (store k v fs))
  | VArr _ => Unmodelled
  | _ => Throw TypeError
  end.

(** The object [o] with its property [k] replaced by [f] of it. *)
Definition update (o : value) (k : string) (f : value -> value) : value :=
  match o with
  | VObj fs =>
      match lookup k fs with
      | Some v => VObj (store k (f v) fs)
      | None => o
      end
  | _ => o
  end.

Fixpoint replace_nth (i : nat) (v : value) (l : list value) : list value :=
  match l, i with
  | [], _ => []
  | _ :: l', O => v :: l'
  | x :: l', S i' => x :: replace_nth i' v l'
  end.

(** The product in which candidate [i] of [getVariants] has become
    [variant]: candidate 0 is the master variant, candidate [i + 1] is entry
    [i] of the variants of the projection. *)
Definition put_variant (p : value) (staged : bool) (i : nat) (variant : value)
  : value :=
  update p "masterData" (fun masterData =>
    update masterData (projection_key staged) (fun projection =>
      match i with
      | O => update projection "masterVariant" (fun _ => variant)
      | S j =>
          update projection "variants" (fun variants =>
            match variants with
            | VArr l => VArr (replace_nth j variant l)
            | _ => variants
            end)
      end)).

(** The end of a loop body whose predicate matched: mark the variant if
    asked to, and return true. *)
Definition matched (p : value) (staged : bool) (i : nat) (variant : value)
  (markMatchingVariant : bool) : outcome (bool * value) :=
  if markMatchingVariant then
    variant' <- set_prop variant "isMatchingVariant" (VBool true) ;;
    Ok (true, put_variant p staged i variant')
  else Ok (true, p).

(** ** The four filter families *)

Section Families.

Variable staged : bool.
Variable exprFunc : MatchFunc.

(** The loop of [filterVariant] over the candidates from index [i] on: its
    body returns in its first iteration. *)
Definition filterVariant_loop (path : option string) (p : value)
  (markMatchingVariant : bool) (i : nat) (variants : list value)
  : outcome (bool * value) :=
  match variants with
  | [] => Ok (false, p)
  | variant :: _ =>
      value <- resolveValue variant path ;;
      b <- exprFunc value ;;
      if b then matched p staged i variant markMatchingVariant
      else Ok (false, p)
  end.

Definition filterVariant (source : string) : ProductFilter :=
  fun p markMatchingVariant =>
    let path := nth_error (split_limit "." source 2) 1 in
    variants <- getVariants p staged ;;
    filterVariant_loop path p markMatchingVariant 0%nat variants.

(** [attr.name !== attrName] *)
Definition name_differs (name : value) (attrName : option string) : bool :=
  match name, attrName with
  | VStr a, Some b => negb (String.eqb a b)
  | VUndef, None => false
  | _, _ => true
  end.

(** The inner loop of [filterAttribute] over the attributes of one
    variant: [None] when it runs to its end without returning. *)
Fixpoint attribute_loop (attrName path : option string) (p : value)
  (markMatchingVariant : bool) (i : nat) (variant : value)
  (attributes : list value) : outcome (option (bool * value)) :=
  match attributes with
  | [] => Ok None
  | attr :: attributes' =>
      name <- get_prop attr "name" ;;
      if name_differs name attrName then
        attribute_loop attrName path p markMatchingVariant i variant attributes'
      else
        attr_value <- get_prop attr "value" ;;
        value <- resolveValue attr_value path ;;
        b <- exprFunc value ;;
        if b then
          r <- matched p staged i variant markMatchingVariant ;; Ok (Some r)
        else Ok (Some (false, p))
  end.

(** The outer loop of [filterAttribute] over the candidates from index [i]
    on. *)
Fixpoint filterAttribute_loop (attrName path : option string) (p : value)
  (markMatchingVariant : bool) (i : nat) (variants : list value)
  : outcome (bool * value) :=
  match variants with
  | [] => Ok (false, p)
  | variant :: variants' =>
      attributes <- get_prop variant "attributes" ;;
      if negb (truthy attributes) then
        filterAttribute_loop attrName path p markMatchingVariant (S i) variants'
      else
        attrs <- iterate attributes ;;
        r <- attribute_loop attrName path p markMatchingVariant i variant attrs ;;
        match r with
        | Some result => Ok result
        | None =>
            filterAttribute_loop attrName path p markMatchingVariant (S i)
              variants'
        end
  end.

Definition filterAttribute (source : string) : ProductFilter :=
  fun p markMatchingVariant =>
    let parts := split_limit "." source 4 in
    let attrName := nth_error parts 2 in
    let path := nth_error parts 3 in
    variants <- getVariants p staged ;;
    filterAttribute_loop attrName path p markMatchingVariant 0%nat variants.

(** The loop of [filterPrice] over the candidates from index [i] on. *)
Fixpoint filterPrice_loop (p : value) (markMatchingVariant : bool) (i : nat)
  (variants : list value) : outcome (bool * value) :=
  match variants with
  | [] => Ok (false, p)
  | variant :: variants' =>
      prices <- get_prop variant "prices" ;;
      if negb (truthy prices) then
        filterPrice_loop p markMatchingVariant (S i) variants'
      else
        price <- get_prop prices "0" ;;
        price_value <- get_prop price "value" ;;
        centAmount <- get_prop price_value "centAmount" ;;
        b <- exprFunc centAmount ;;
        if b then matched p staged i variant markMatchingVariant
        else Ok (false, p)
  end.

Definition filterPrice (source : string) : ProductFilter :=
  fun p markMatchingVariant =>
    variants <- getVariants p staged ;;
    filterPrice_loop p markMatchingVariant 0%nat variants.

(** [variant.scopedPrice?.value.centAmount] *)
Definition scoped_centAmount (variant : value) : outcome value :=
  scopedPrice <- get_prop variant "scopedPrice" ;;
  match scopedPrice with
  | VUndef | VNull => Ok VUndef
  | _ =>
      price_value <- get_prop scopedPrice "value" ;;
      get_prop price_value "centAmount"
  end.

(** The loop of [filterScopedPrice]: its body returns in its first
    iteration. *)
Definition filterScopedPrice_loop (p : value) (markMatchingVariant : bool)
  (i : nat) (variants : list value) : outcome (bool * value) :=
  match variants with
  | [] => Ok (false, p)
  | variant :: _ =>
      centAmount <- scoped_centAmount variant ;;
      b <- exprFunc centAmount ;;
      if b then matched p staged i variant markMatchingVariant
      else Ok (false, p)
  end.

Definition unsupported_scoped_price : string :=
  "Only scopedPrice.value.centAmount is currently supported in the mock".

Definition filterScopedPrice (source : string) : ProductFilter :=
  fun p markMatchingVariant =>
    if negb (String.eqb source "variants.scopedPrice.value.centAmount") then
      Throw (Error unsupported_scoped_price)
    else
      variants <- getVariants p staged ;;
      filterScopedPrice_loop p markMatchingVariant 0%nat variants.

End Families.

(** ** Dispatcher *)

(** [filter.split(':', 2)[0]] *)
Definition filter_source (filter : string) : string :=
  nth 0 (split_limit ":" filter 2) "".

Definition parseFilterExpression (filter : string) (staged : bool)
  : outcome ProductFilter :=
  let source := filter_source filter in
  exprFunc <- generateMatchFunc filter ;;
  if startsWith source "variants.attributes" then
    Ok (filterAttribute staged exprFunc source)
  else if startsWith source "variants.price" then
    Ok (filterPrice staged exprFunc source)
  else if startsWith source "variants.scopedPrice" then
    Ok (filterScopedPrice staged exprFunc source)
  else if startsWith source "variants.sku" || startsWith source "variants.key" then
    Ok (filterVariant staged exprFunc source)
  else Ok (fun product _ => Ok (false, product)).

(** Compiling a filter and applying it to a product. *)
Definition apply_filter (filter : string) (staged : bool) (p : value)
  (markMatchingVariant : bool) : outcome (bool * value) :=
  f <- parseFilterExpression filter staged ;;
  f p markMatchingVariant.


(** ** Definitions used to state the properties *)

(** All tokens up to the end of the input. *)
Fixpoint tokens (fuel : nat) (lx : lexer) : outcome (list token) :=
  match fuel with
  | O => OutOfFuel
  | S fuel' =>
      '(t, lx') <- next lx ;;
      match ttype t with
      | EOF => Ok []
      | _ => ts <- tokens fuel' lx' ;; Ok (t :: ts)
      end
  end.

Definition tokenize (s : string) : outcome (list token) :=
  tokens (S (String.length s)) (getLexer s).

(** The boolean of a filter call, without the product it leaves. *)
Definition verdict (r : outcome (bool * value)) : outcome bool :=
  '(b, _) <- r ;; Ok b.

(** Indexing into a value with each segment of a list, left to right: the
    reading of a dotted path that [resolveValue] is compared with. *)
Fixpoint index_path (segments : list string) (val : value) : outcome value :=
  match segments with
  | [] => Ok val
  | segment :: segments' =>
      val' <- get_prop val segment ;;
      index_path segments' val'
  end.

(** The source prefixes that select one of the four families. *)
Definition family (source : string) : bool :=
  startsWith source "variants.attributes"
  || startsWith source "variants.price"
  || startsWith source "variants.scopedPrice"
  || startsWith source "variants.sku"
  || startsWith source "variants.key".

(** An absent projection: undefined or null. *)
Definition absent (v : value) : bool :=
  match v with
  | VUndef | VNull => true
  | _ => false
  end.

(** The attribute entry has a readable name that is not the requested one. *)
Definition attribute_not_named (attrName : option string) (attr : value) : bool :=
  match get_prop attr "name" with
  | Ok name => name_differs name attrName
  | _ => false
  end.

(** The variant is passed over by the attribute family: its attributes are
    falsy, or they can be iterated and none has the requested name. *)
Definition lacks_attribute (attrName : option string) (variant : value) : bool :=
  match get_prop variant "attributes" with
  | Ok attributes =>
      if truthy attributes then
        match iterate attributes with
        | Ok attrs => forallb (attribute_not_named attrName) attrs
        | _ => false
        end
      else true
  | _ => false
  end.

(** The variant is passed over by the price family: its prices are falsy. *)
Definition lacks_prices (variant : value) : bool :=
  match get_prop variant "prices" with
  | Ok prices => negb (truthy prices)
  | _ => false
  end.

(** Example data: a variant without attributes and prices, a variant with a
    red colour and a price of 100, and the product with a given master
    variant and further variants in its current projection. *)
Definition variant_plain : value :=
  VObj [("id", VNum 1); ("sku", VStr "XYZ")].

Definition variant_red : value :=
  VObj [("id", VNum 2); ("sku", VStr "ABC123");
        ("attributes", VArr [VObj [("name", VStr "color"); ("value", VStr "red")]]);
        ("prices", VArr [VObj [("value", VObj [("centAmount", VNum 100)])]])].

Definition product_of (masterVariant : value) (variants : list value) : value :=
  VObj [("masterData",
         VObj [("current",
                VObj [("masterVariant", masterVariant);
                      ("variants", VArr variants)])])].

(** Every character of a string is in a class. *)
Definition string_forall (p : ascii -> bool) (s : string) : bool :=
  forallb p (list_ascii_of_string s).

(** The string starts with a character of a class. *)
Definition starts_in (p : ascii -> bool) (s : string) : bool :=
  match s with
  | EmptyString => false
  | String c _ => p c
  end.

(** A pattern consumes input: what it leaves is shorter than what it saw. *)
Definition consumes (pattern : string -> option match_result) : Prop :=
  forall (s m : string) (g : option string) (rest : string),
    pattern s = Some (m, g, rest) -> (String.length rest < String.length s)%nat.

(** One of the four keyword patterns matches at the start of the input. *)
Definition keyword_at (s : string) : bool :=
  existsb (fun kw => match keyword kw s with Some _ => true | None => false end)
    ["missing"; "exists"; "range"; "to"].

Ltac ascii_cases c := destruct c as [[] [] [] [] [] [] [] []].

(** The type of [parse] at a given recursion bound. *)
Definition parse_function : Type := power -> lexer -> outcome (parsed * lexer).

(** [g] agrees with [f] wherever [f] finishes within its bound. *)
Definition extends (f g : parse_function) : Prop :=
  forall (rbp : power) (lx : lexer), f rbp lx <> OutOfFuel -> g rbp lx = f rbp lx.

(** On an input shorter than [n], [f] finishes within its bound and
    consumes input. *)
Definition bounded (f : parse_function) (n : nat) : Prop :=
  forall (rbp : power) (lx : lexer),
    (String.length lx < n)%nat ->
    f rbp lx <> OutOfFuel
    /\ forall (v : parsed) (lx' : lexer),
         f rbp lx = Ok (v, lx') -> (String.length lx' < String.length lx)%nat.

(** A literal of the filter grammar, as it is written: a string between
    two quotes [q], or a run of decimal digits. *)
Inductive literal : Type :=
| LString (q : ascii) (inner : string)
| LInt (digits : string).

Definition literal_text (l : literal) : string :=
  match l with
  | LString q inner => String q (inner ++ String q "")
  | LInt digits => digits
  end.

(** The token the tokenizer makes of a literal. *)
Definition literal_token (l : literal) : token :=
  match l with
  | LString q inner => Token STRING (String q (inner ++ String q "")) (Some inner)
  | LInt digits => Token INT digits None
  end.

(** The value a literal stands for: the text between the quotes as it is
    written, or the integer. *)
Definition literal_value (l : literal) : parsed :=
  match l with
  | LString _ inner => PStr inner
  | LInt digits => PNum (decimal digits)
  end.

(** The text between the quotes is a sequence of items of the STRING
    pattern. *)
Fixpoint quoted_items (q : ascii) (s : string) : bool :=
  match s with
  | EmptyString => true
  | String c s' =>
      if Ascii.eqb c q then false
      else if Ascii.eqb c "\" then
        match s' with
        | EmptyString => false
        | String d s'' => negb (line_terminator d) && quoted_items q s''
        end
      else quoted_items q s'
  end.

(** A literal the grammar accepts: the quote is double or single and the
    text between the quotes is made of items; or the digits are a non-empty
    run that stands for a safe integer. *)
Definition well_formed (l : literal) : bool :=
  match l with
  | LString q inner =>
      (Ascii.eqb q dquote || Ascii.eqb q "'") && quoted_items q inner
  | LInt digits =>
      negb (String.eqb digits "") && string_forall is_digit digits
      && (decimal digits <? 2 ^ 53)
  end.

(** What may follow a literal for the tokenizer to end it there: anything
    but a digit or a dot. *)
Definition literal_boundary (tail : string) : bool :=
  negb (starts_in (fun c => is_digit c || Ascii.eqb c ".") tail).

(** The path is a keyword, or a keyword followed by a dot: the tokenizer
    reads a keyword at its start. *)
Definition reserved (path : string) : bool :=
  existsb (fun kw =>
             match literal_ci kw path with
             | Some (_, EmptyString) => true
             | Some (_, String c _) => Ascii.eqb c "."
             | None => false
             end)
    ["missing"; "exists"; "range"; "to"].

(** A path the tokenizer reads as one IDENTIFIER token when a colon
    follows. *)
Definition identifier (path : string) : bool :=
  negb (String.eqb path "") && string_forall ident_char path
  && negb (reserved path).

(** Literals separated by commas. *)
Fixpoint comma_list (ls : list literal) : string :=
  match ls with
  | [] => ""
  | [l] => literal_text l
  | l :: ls' => literal_text l ++ "," ++ comma_list ls'
  end.

(** What the right-hand side [comma_list ls] parses to. *)
Definition list_value (ls : list literal) : parsed :=
  match ls with
  | [l] => literal_value l
  | _ => PArr (map literal_value ls)
  end.


(** A product whose master variant has one price of the given amount. *)
Definition product_priced (centAmount : Z) : value :=
  product_of
    (VObj [("id", VNum 1);
           ("prices", VArr [VObj [("value", VObj [("centAmount", VNum centAmount)])]])])
    [].


(** The two double-quoted literals of the colour example. *)
Definition red_or_blue : list literal :=
  [LString dquote "red"; LString dquote "blue"].

(** [kw] spells [word] (given in lower case) in some mix of cases. *)
Definition spells (word kw : string) : bool :=
  match literal_ci word kw with
  | Some (_, EmptyString) => true
  | _ => false
  end.

(** [val === undefined] *)
Definition is_undefined (val : value) : bool :=
  match val with
  | VUndef => true
  | _ => false
  end.

(** The message of the syntax error of [generateMatchFunc]. *)
Definition syntax_error (filter : string) : js_error :=
  Error ("Syntax error while parsing '" ++ filter ++ "'.").

(** A compiler result that is not a function. *)
Definition not_function (r : parsed) : bool :=
  match r with
  | PFun _ => false
  | _ => true
  end.

(** No dot in a string: it is one segment of a dotted source. *)
Definition segment (s : string) : bool :=
  string_forall (fun c => negb (Ascii.eqb c ".")) s.

(** The one source the scoped-price family supports. *)
Definition scoped_source : string := "variants.scopedPrice.value.centAmount".

(** A variant object with the marker of a matching variant set. *)
Definition marked (fields : list (string * value)) : value :=
  VObj (store "isMatchingVariant" (VBool true) fields).

(** The characters some token pattern can start with. *)
Definition token_start (c : ascii) : bool :=
  ident_char c || is_digit c || is_space c
  || Ascii.eqb c dquote || Ascii.eqb c "'" || Ascii.eqb c ","
  || Ascii.eqb c "(" || Ascii.eqb c ":" || Ascii.eqb c ")".

(** A value the spread of [getVariants] can iterate. *)
Definition iterable (v : value) : bool :=
  match v with
  | VArr _ | VStr _ => true
  | _ => false
  end.

(** The outcome is the error of the tokenizer, whatever it reports. *)
Definition tokenizer_error {A : Type} (o : outcome A) : bool :=
  match o with
  | Throw (UnexpectedInput _) => true
  | _ => false
  end.





Arguments parse : simpl never.
Arguments led_loop : simpl never.
Arguments next : simpl never.
Arguments peek : simpl never.

(** * Properties *)

(** ** Path resolver *)

Lemma resolve_loop_index_path :
  forall (done todo : list string) (val : value),
    resolve_loop (done ++ todo)%list (List.length todo) (List.length done) val
    = index_path todo val.
Proof.
  intros done todo; revert done.
  induction todo as [|seg todo IH]; intros done val; simpl.
  - reflexivity.
  - rewrite app_nth2 by lia. rewrite Nat.sub_diag. simpl.
    destruct (get_prop val seg) as [v|e| |]; simpl; try reflexivity.
    specialize (IH (done ++ [seg])%list v).
    rewrite <- app_assoc in IH. simpl in IH.
    rewrite length_app in IH. simpl in IH.
    rewrite Nat.add_1_r in IH. exact IH.
Qed.

(** C8, as the code has it. The resolver returns the root unchanged when
    the path is undefined. For every path string, the empty one included, it
    returns the result of indexing into the root with each dot-separated
    segment from left to right; the empty string is one empty segment, so it
    reads the property whose key is the empty string. *)
Theorem resolveValue_indexes_segments :
  forall (obj : value),
    resolveValue obj None = Ok obj
    /\ (forall path : string,
          resolveValue obj (Some path) = index_path (split "." path) obj)
    /\ resolveValue obj (Some "") = get_prop obj "".
Proof.
  intros obj. split; [reflexivity|]. split.
  - intros path. unfold resolveValue.
    exact (resolve_loop_index_path [] (split "." path) obj).
  - simpl. destruct (get_prop obj "") as [v|e| |]; reflexivity.
Qed.

(** C8, counterexample to the claim as stated: with the empty string as
    path, the root [{sku: 'A'}] is not returned; the result is undefined. *)
Lemma resolveValue_empty_path_not_root :
  resolveValue (VObj [("sku", VStr "A")]) (Some "") = Ok VUndef
  /\ resolveValue (VObj [("sku", VStr "A")]) (Some "")
     <> Ok (VObj [("sku", VStr "A")]).
Proof.
  split; [reflexivity|]. simpl. discriminate.
Qed.

(** ** Dispatcher *)

Lemma prefix_app :
  forall p s : string, String.prefix p s = true -> exists r, s = p ++ r.
Proof.
  induction p as [|c p IH]; intros s H.
  - exists s. reflexivity.
  - destruct s as [|d s]; simpl in H; [discriminate|].
    destruct (ascii_dec c d) as [->|]; [|discriminate].
    destruct (IH s H) as [r ->]. exists r. reflexivity.
Qed.

Lemma bind_Ok_inv :
  forall (A B : Type) (m : outcome A) (k : A -> outcome B) (b : B),
    bind m k = Ok b -> exists a, m = Ok a /\ k a = Ok b.
Proof.
  intros A B [a|e| |] k b H; simpl in H; try discriminate.
  exists a. split; [reflexivity|exact H].
Qed.

(** C4, as the code has it. When the source of a filter matches none of the
    family prefixes, [parseFilterExpression] first compiles the whole filter
    string: if that fails it fails the same way, and if it succeeds the
    result is a predicate that returns false for every product and every
    [markMatchingVariant], leaving the product as it is. *)
Theorem parseFilterExpression_outside_families :
  forall (filter : string) (staged : bool),
    family (filter_source filter) = false ->
    parseFilterExpression filter staged
    = (_ <- generateMatchFunc filter ;; Ok (fun product _ => Ok (false, product)))
    /\ (forall exprFunc : MatchFunc,
          generateMatchFunc filter = Ok exprFunc ->
          exists pf : ProductFilter,
            parseFilterExpression filter staged = Ok pf
            /\ forall (p : value) (mark : bool), pf p mark = Ok (false, p)).
Proof.
  intros filter staged Hfam.
  unfold family in Hfam.
  repeat (apply orb_false_iff in Hfam; destruct Hfam as [Hfam ?]).
  assert (Heq : parseFilterExpression filter staged
                = (_ <- generateMatchFunc filter ;;
                   Ok (fun product _ => Ok (false, product)))).
  { unfold parseFilterExpression.
    destruct (generateMatchFunc filter) as [f|e| |]; simpl; try reflexivity.
    rewrite Hfam, H2, H1, H0, H. reflexivity. }
  split; [exact Heq|].
  intros exprFunc Hc. rewrite Heq, Hc. simpl.
  eexists. split; [reflexivity|]. intros p mark. reflexivity.
Qed.

(** The theorem at the filter [name:missing]. *)
Lemma parseFilterExpression_outside_families_witness :
  exists pf : ProductFilter,
    parseFilterExpression "name:missing" false = Ok pf
    /\ forall (p : value) (mark : bool), pf p mark = Ok (false, p).
Proof.
  destruct (parseFilterExpression_outside_families "name:missing" false eq_refl)
    as [_ H].
  apply (H (match_call match_missing)). reflexivity.
Defined.

(** C4, counterexample to the claim as stated: the source [name] matches no
    family prefix, yet compiling the filter [name] raises the syntax error. *)
Lemma parseFilterExpression_outside_families_raises :
  family (filter_source "name") = false
  /\ parseFilterExpression "name" false
     = Throw (Error "Syntax error while parsing 'name'.").
Proof.
  split; reflexivity.
Qed.

(** C3, as the code has it. For a filter whose source starts with
    [variants.scopedPrice] without being [variants.scopedPrice.value.centAmount],
    [parseFilterExpression] returns the scoped-price predicate whenever the
    filter string compiles; the descriptive error is raised by every call of
    that predicate, for every product, before the product is read. *)
Theorem unsupported_scopedPrice_raises_on_apply :
  forall (filter : string) (staged : bool),
    startsWith (filter_source filter) "variants.scopedPrice" = true ->
    filter_source filter <> "variants.scopedPrice.value.centAmount" ->
    parseFilterExpression filter staged
    = (exprFunc <- generateMatchFunc filter ;;
       Ok (filterScopedPrice staged exprFunc (filter_source filter)))
    /\ (forall (exprFunc : MatchFunc) (p : value) (mark : bool),
          filterScopedPrice staged exprFunc (filter_source filter) p mark
          = Throw (Error unsupported_scoped_price))
    /\ (forall exprFunc : MatchFunc,
          generateMatchFunc filter = Ok exprFunc ->
          exists pf : ProductFilter,
            parseFilterExpression filter staged = Ok pf
            /\ forall (p : value) (mark : bool),
                 pf p mark = Throw (Error unsupported_scoped_price)).
Proof.
  intros filter staged Hpre Hne.
  assert (Heq : parseFilterExpression filter staged
                = (exprFunc <- generateMatchFunc filter ;;
                   Ok (filterScopedPrice staged exprFunc (filter_source filter)))).
  { unfold parseFilterExpression.
    destruct (generateMatchFunc filter) as [f|e| |]; simpl; try reflexivity.
    unfold startsWith in *. rewrite Hpre.
    destruct (prefix_app _ _ Hpre) as [r Hr]. rewrite Hr. reflexivity. }
  assert (Hthrow : forall (exprFunc : MatchFunc) (p : value) (mark : bool),
             filterScopedPrice staged exprFunc (filter_source filter) p mark
             = Throw (Error unsupported_scoped_price)).
  { intros exprFunc p mark. unfold filterScopedPrice.
    destruct (String.eqb_spec (filter_source filter)
                "variants.scopedPrice.value.centAmount") as [E|E].
    - contradiction.
    - reflexivity. }
  split; [exact Heq|]. split; [exact Hthrow|].
  intros exprFunc Hc. rewrite Heq, Hc. simpl.
  eexists. split; [reflexivity|]. intros p mark. apply Hthrow.
Qed.

(** The theorem at the filter [variants.scopedPrice.price:range(1 to 2)]. *)
Lemma unsupported_scopedPrice_raises_on_apply_witness :
  exists pf : ProductFilter,
    parseFilterExpression "variants.scopedPrice.price:range(1 to 2)" false = Ok pf
    /\ forall (p : value) (mark : bool),
         pf p mark = Throw (Error unsupported_scoped_price).
Proof.
  assert (Hne : filter_source "variants.scopedPrice.price:range(1 to 2)"
                <> "variants.scopedPrice.value.centAmount")
    by (vm_compute; discriminate).
  destruct (unsupported_scopedPrice_raises_on_apply
              "variants.scopedPrice.price:range(1 to 2)" false eq_refl Hne)
    as [_ [_ H]].
  apply (H (match_call (match_range (Some (PNum 1)) (Some (PNum 2))))).
  reflexivity.
Defined.

(** C3, counterexample to the claim as stated: compiling the filter with the
    unsupported sub-path [variants.scopedPrice.price] does return a
    predicate. *)
Lemma unsupported_scopedPrice_compiles :
  exists pf : ProductFilter,
    parseFilterExpression "variants.scopedPrice.price:range(1 to 2)" false = Ok pf.
Proof.
  eexists. reflexivity.
Qed.

(** ** Variant extraction with an absent projection *)

Lemma getVariants_absent_projection :
  forall (p : value) (staged : bool) (masterData projection : value),
    get_prop p "masterData" = Ok masterData ->
    get_prop masterData (projection_key staged) = Ok projection ->
    absent projection = true ->
    getVariants p staged = Throw TypeError.
Proof.
  intros p staged masterData projection Hmd Hproj Habs.
  unfold getVariants. rewrite Hmd. simpl. rewrite Hproj. simpl.
  destruct projection; try discriminate; reflexivity.
Qed.

(** C10, as the code has it. For a predicate compiled for the sku/key,
    attribute or price family, or for the scoped-price family with the source
    [variants.scopedPrice.value.centAmount], and a product whose [masterData]
    lacks the projection selected by [staged], the call throws a TypeError:
    [getVariants] spreads the variants of the absent projection. A
    scoped-price predicate with any other source is not covered: it raises
    its own error before [getVariants] runs. *)
Theorem absent_projection_TypeError :
  forall (filter : string) (staged : bool) (pf : ProductFilter)
         (p masterData projection : value) (mark : bool),
    parseFilterExpression filter staged = Ok pf ->
    family (filter_source filter) = true ->
    (startsWith (filter_source filter) "variants.scopedPrice" = true ->
     filter_source filter = "variants.scopedPrice.value.centAmount") ->
    get_prop p "masterData" = Ok masterData ->
    get_prop masterData (projection_key staged) = Ok projection ->
    absent projection = true ->
    getVariants p staged = Throw TypeError
    /\ pf p mark = Throw TypeError.
Proof.
  intros filter staged pf p masterData projection mark Hpf Hfam Hsc Hmd Hproj Habs.
  pose proof (getVariants_absent_projection p staged _ _ Hmd Hproj Habs) as Hgv.
  split; [exact Hgv|].
  unfold parseFilterExpression in Hpf.
  apply bind_Ok_inv in Hpf. destruct Hpf as [exprFunc [_ Hpf]].
  unfold family in Hfam.
  destruct (startsWith (filter_source filter) "variants.attributes").
  { inversion Hpf; subst pf. unfold filterAttribute. rewrite Hgv. reflexivity. }
  destruct (startsWith (filter_source filter) "variants.price").
  { inversion Hpf; subst pf. unfold filterPrice. rewrite Hgv. reflexivity. }
  destruct (startsWith (filter_source filter) "variants.scopedPrice").
  { inversion Hpf; subst pf. unfold filterScopedPrice.
    rewrite (Hsc eq_refl). simpl. rewrite Hgv. reflexivity. }
  simpl in Hfam. rewrite Hfam in Hpf.
  inversion Hpf; subst pf. unfold filterVariant. rewrite Hgv. reflexivity.
Qed.

(** The theorem at the filter [variants.sku:exists], compiled for the staged
    projection, and a product that has the current projection only. *)
Lemma absent_projection_TypeError_witness :
  exists pf : ProductFilter,
    parseFilterExpression "variants.sku:exists" true = Ok pf
    /\ getVariants (VObj [("masterData", VObj [("current", VObj [])])]) true
       = Throw TypeError
    /\ pf (VObj [("masterData", VObj [("current", VObj [])])]) false
       = Throw TypeError.
Proof.
  exists (filterVariant true (match_call match_exists) "variants.sku").
  split; [reflexivity|].
  apply (absent_projection_TypeError "variants.sku:exists" true
           (filterVariant true (match_call match_exists) "variants.sku")
           (VObj [("masterData", VObj [("current", VObj [])])])
           (VObj [("current", VObj [])]) VUndef false).
  - reflexivity.
  - reflexivity.
  - intros H. vm_compute in H. discriminate.
  - reflexivity.
  - reflexivity.
  - reflexivity.
Defined.

(** C10, counterexample to the claim as stated: the scoped-price predicate
    compiled from [variants.scopedPrice.price:exists], called on a product
    whose [masterData] has no projection, raises the unsupported-path error,
    which is not a TypeError. *)
Lemma absent_projection_other_error :
  family (filter_source "variants.scopedPrice.price:exists") = true
  /\ get_prop (VObj []) (projection_key false) = Ok VUndef
  /\ apply_filter "variants.scopedPrice.price:exists" false
       (VObj [("masterData", VObj [])]) false
     = Throw (Error unsupported_scoped_price)
  /\ apply_filter "variants.scopedPrice.price:exists" false
       (VObj [("masterData", VObj [])]) false
     <> Throw TypeError.
Proof.
  repeat split; try reflexivity. vm_compute. discriminate.
Qed.

(** ** Which variant decides *)

Lemma attribute_loop_none :
  forall (staged : bool) (exprFunc : MatchFunc) (attrName path : option string)
         (p : value) (mark : bool) (i : nat) (variant : value)
         (attrs : list value),
    forallb (attribute_not_named attrName) attrs = true ->
    attribute_loop staged exprFunc attrName path p mark i variant attrs = Ok None.
Proof.
  intros staged exprFunc attrName path p mark i variant attrs.
  induction attrs as [|attr attrs IH]; intros H; simpl in *.
  - reflexivity.
  - apply andb_true_iff in H. destruct H as [Ha Hrest].
    unfold attribute_not_named in Ha.
    destruct (get_prop attr "name") as [name|e| |]; try discriminate.
    simpl. rewrite Ha. apply IH. exact Hrest.
Qed.

Lemma attribute_loop_some :
  forall (staged : bool) (exprFunc : MatchFunc) (attrName path : option string)
         (p : value) (mark : bool) (i : nat) (variant : value)
         (attrs : list value),
    forallb (attribute_not_named attrName) attrs = false ->
    attribute_loop staged exprFunc attrName path p mark i variant attrs <> Ok None.
Proof.
  intros staged exprFunc attrName path p mark i variant attrs.
  induction attrs as [|attr attrs IH]; intros H; simpl in *.
  - discriminate.
  - unfold attribute_not_named in H.
    destruct (get_prop attr "name") as [name|e| |]; simpl; try discriminate.
    destruct (name_differs name attrName); simpl in H.
    + apply IH. exact H.
    + destruct (get_prop attr "value") as [av|e| |]; simpl; try discriminate.
      destruct (resolveValue av path) as [v|e| |]; simpl; try discriminate.
      destruct (exprFunc v) as [[|]|e| |]; simpl; try discriminate.
      destruct (matched p staged i variant mark) as [r|e| |]; simpl; discriminate.
Qed.

(** C1, as the code has it. The sku/key and scoped-price families read the
    first candidate only: the call is the same whatever candidates follow,
    and a predicate that does not match its value gives false. The attribute
    family passes over a candidate whose attributes are falsy or hold no
    attribute of the requested name, and the price family passes over a
    candidate whose prices are falsy: the loop goes on with the candidates
    that follow. The first candidate that is not passed over decides, and
    the candidates after it are not read. *)
Theorem first_deciding_variant :
  forall (staged : bool) (exprFunc : MatchFunc) (p : value) (mark : bool)
         (i : nat) (variant : value) (rest : list value),
    (forall path : option string,
        filterVariant_loop staged exprFunc path p mark i (variant :: rest)
        = filterVariant_loop staged exprFunc path p mark i [variant]
        /\ (forall value : value,
              resolveValue variant path = Ok value ->
              exprFunc value = Ok false ->
              filterVariant_loop staged exprFunc path p mark i (variant :: rest)
              = Ok (false, p)))
    /\ (filterScopedPrice_loop staged exprFunc p mark i (variant :: rest)
        = filterScopedPrice_loop staged exprFunc p mark i [variant]
        /\ (forall centAmount : value,
              scoped_centAmount variant = Ok centAmount ->
              exprFunc centAmount = Ok false ->
              filterScopedPrice_loop staged exprFunc p mark i (variant :: rest)
              = Ok (false, p)))
    /\ (forall attrName path : option string,
          (lacks_attribute attrName variant = true ->
           filterAttribute_loop staged exprFunc attrName path p mark i
             (variant :: rest)
           = filterAttribute_loop staged exprFunc attrName path p mark (S i) rest)
          /\ (lacks_attribute attrName variant = false ->
              filterAttribute_loop staged exprFunc attrName path p mark i
                (variant :: rest)
              = filterAttribute_loop staged exprFunc attrName path p mark i
                  [variant]))
    /\ ((lacks_prices variant = true ->
         filterPrice_loop staged exprFunc p mark i (variant :: rest)
         = filterPrice_loop staged exprFunc p mark (S i) rest)
        /\ (lacks_prices variant = false ->
            filterPrice_loop staged exprFunc p mark i (variant :: rest)
            = filterPrice_loop staged exprFunc p mark i [variant])).
Proof.
  intros staged exprFunc p mark i variant rest.
  split; [|split; [|split]].
  - intros path. split; [reflexivity|].
    intros value Hv Hf. simpl. rewrite Hv. simpl. rewrite Hf. reflexivity.
  - split; [reflexivity|].
    intros c Hc Hf. simpl. rewrite Hc. simpl. rewrite Hf. reflexivity.
  - intros attrName path. unfold lacks_attribute. split; intros H; simpl.
    + destruct (get_prop variant "attributes") as [a|e| |]; try discriminate.
      simpl. destruct (truthy a); simpl; [|reflexivity].
      destruct (iterate a) as [attrs|e| |]; try discriminate. simpl.
      rewrite (attribute_loop_none staged exprFunc attrName path p mark i
                 variant attrs H).
      reflexivity.
    + destruct (get_prop variant "attributes") as [a|e| |]; try reflexivity.
      simpl. destruct (truthy a); simpl; [|discriminate].
      destruct (iterate a) as [attrs|e| |]; try reflexivity. simpl.
      pose proof (attribute_loop_some staged exprFunc attrName path p mark i
                    variant attrs H) as Hs.
      destruct (attribute_loop staged exprFunc attrName path p mark i variant
                  attrs) as [[r|]|e| |]; simpl; try reflexivity.
      contradiction.
  - unfold lacks_prices. split; intros H; simpl.
    + destruct (get_prop variant "prices") as [pr|e| |]; try discriminate.
      simpl. rewrite H. reflexivity.
    + destruct (get_prop variant "prices") as [pr|e| |]; try reflexivity.
      simpl. rewrite H. reflexivity.
Qed.

(** The theorem at the predicates [=== 'red'], [=== 100] and [=== 'ABC123']
    and the two example variants, in both orders. *)
Lemma first_deciding_variant_witness :
  filterAttribute_loop false (match_equals (PStr "red")) (Some "color") None
    (product_of variant_plain [variant_red]) false 0 [variant_plain; variant_red]
  = filterAttribute_loop false (match_equals (PStr "red")) (Some "color") None
      (product_of variant_plain [variant_red]) false 1 [variant_red]
  /\ filterAttribute_loop false (match_equals (PStr "red")) (Some "color") None
       (product_of variant_red [variant_plain]) false 0 [variant_red; variant_plain]
     = filterAttribute_loop false (match_equals (PStr "red")) (Some "color") None
         (product_of variant_red [variant_plain]) false 0 [variant_red]
  /\ filterPrice_loop false (match_equals (PNum 100))
       (product_of variant_plain [variant_red]) false 0 [variant_plain; variant_red]
     = filterPrice_loop false (match_equals (PNum 100))
         (product_of variant_plain [variant_red]) false 1 [variant_red]
  /\ filterPrice_loop false (match_equals (PNum 100))
       (product_of variant_red [variant_plain]) false 0 [variant_red; variant_plain]
     = filterPrice_loop false (match_equals (PNum 100))
         (product_of variant_red [variant_plain]) false 0 [variant_red]
  /\ filterVariant_loop false (match_equals (PStr "ABC123")) (Some "sku")
       (product_of variant_plain [variant_red]) false 0 [variant_plain; variant_red]
     = Ok (false, product_of variant_plain [variant_red]).
Proof.
  split; [|split; [|split; [|split]]].
  - destruct (first_deciding_variant false (match_equals (PStr "red"))
                (product_of variant_plain [variant_red]) false 0 variant_plain
                [variant_red]) as [_ [_ [H _]]].
    apply (proj1 (H (Some "color") None)). reflexivity.
  - destruct (first_deciding_variant false (match_equals (PStr "red"))
                (product_of variant_red [variant_plain]) false 0 variant_red
                [variant_plain]) as [_ [_ [H _]]].
    apply (proj2 (H (Some "color") None)). reflexivity.
  - destruct (first_deciding_variant false (match_equals (PNum 100))
                (product_of variant_plain [variant_red]) false 0 variant_plain
                [variant_red]) as [_ [_ [_ H]]].
    apply (proj1 H). reflexivity.
  - destruct (first_deciding_variant false (match_equals (PNum 100))
                (product_of variant_red [variant_plain]) false 0 variant_red
                [variant_plain]) as [_ [_ [_ H]]].
    apply (proj2 H). reflexivity.
  - destruct (first_deciding_variant false (match_equals (PStr "ABC123"))
                (product_of variant_plain [variant_red]) false 0 variant_plain
                [variant_red]) as [H _].
    apply (proj2 (H (Some "sku")) (VStr "XYZ")); reflexivity.
Defined.

(** C1, counterexample to the claim as stated: the master variant has no
    attributes and no prices, a later variant has the colour red and a price
    of 100; the attribute filter and the price filter both return true. *)
Lemma later_variant_matches :
  getVariants (product_of variant_plain [variant_red]) false
  = Ok [variant_plain; variant_red]
  /\ get_prop variant_plain "attributes" = Ok VUndef
  /\ get_prop variant_plain "prices" = Ok VUndef
  /\ verdict (apply_filter "variants.attributes.color:'red'" false
                (product_of variant_plain [variant_red]) false) = Ok true
  /\ verdict (apply_filter "variants.price.centAmount:range(100 to 500)" false
                (product_of variant_plain [variant_red]) false) = Ok true.
Proof.
  repeat split; reflexivity.
Qed.

(** ** The syntax error *)

(** C9, the code at a failing input. The filter [variants.sku] parses to a
    bare string, so compilation fails with the syntax error; the message
    names the filter and nothing else, although the column, 12, has been
    computed. *)
Theorem syntax_error_message_omits_column :
  generateMatchFunc "variants.sku"
  = Throw (Error "Syntax error while parsing 'variants.sku'.")
  /\ String.length (last (split newline "variants.sku") "") = 12%nat.
Proof.
  split; reflexivity.
Qed.

(** ** Tokenizer: patterns consume input *)

Lemma span_length :
  forall (p : ascii -> bool) (s a b : string),
    span p s = (a, b) ->
    String.length s = (String.length a + String.length b)%nat.
Proof.
  intros p. induction s as [|c s IH]; intros a b H; simpl in H.
  - inversion H. reflexivity.
  - destruct (p c).
    + destruct (span p s) as [a' b'] eqn:E. inversion H; subst.
      simpl. f_equal. apply IH. reflexivity.
    + inversion H; subst. reflexivity.
Qed.

Lemma one_or_more_consumes :
  forall p : ascii -> bool, consumes (one_or_more p).
Proof.
  intros p s m g rest H. unfold one_or_more in H.
  destruct (span p s) as [a b] eqn:E.
  apply span_length in E.
  destruct a as [|c a]; [discriminate|].
  inversion H; subst. simpl in E. lia.
Qed.

Lemma literal_ci_length :
  forall (kw s m rest : string),
    literal_ci kw s = Some (m, rest) ->
    String.length s = (String.length kw + String.length rest)%nat.
Proof.
  induction kw as [|k kw IH]; intros s m rest H; simpl in H.
  - inversion H. reflexivity.
  - destruct s as [|c s]; [discriminate|].
    destruct (Ascii.eqb (lower c) k); [|discriminate].
    destruct (literal_ci kw s) as [[m' r']|] eqn:E; [|discriminate].
    inversion H; subst. simpl. f_equal. apply (IH _ _ _ E).
Qed.

Lemma keyword_consumes :
  forall (k : ascii) (kw : string), consumes (keyword (String k kw)).
Proof.
  intros k kw s m g rest H. unfold keyword in H.
  destruct (literal_ci (String k kw) s) as [[m' r']|] eqn:E; [|discriminate].
  apply literal_ci_length in E. simpl in E.
  destruct r' as [|c r'].
  - inversion H; subst. simpl. lia.
  - destruct (guard_char c); [discriminate|]. inversion H; subst. lia.
Qed.

Lemma float_pattern_consumes : consumes float_pattern.
Proof.
  intros s m g rest H. unfold float_pattern in H.
  destruct (span is_digit s) as [a b] eqn:E1. apply span_length in E1.
  destruct a as [|c a]; [discriminate|].
  destruct b as [|d b]; [discriminate|].
  destruct (Ascii.eqb_spec d "."%char) as [->|Hd].
  - destruct (span is_digit b) as [a' b'] eqn:E2. apply span_length in E2.
    destruct a' as [|c' a']; [discriminate|].
    inversion H; subst. simpl in *. lia.
  - exfalso. ascii_cases d; try discriminate. apply Hd. reflexivity.
Qed.

Lemma quoted_body_shorter :
  forall (q : ascii) (n : nat) (s inner rest : string),
    (String.length s <= n)%nat ->
    quoted_body q s = Some (inner, rest) ->
    (String.length rest < String.length s)%nat.
Proof.
  intros q. induction n as [|n IH]; intros s inner rest Hn H.
  - destruct s; simpl in *; [discriminate|lia].
  - destruct s as [|c s]; [discriminate|]. simpl in H.
    destruct (Ascii.eqb c q).
    + inversion H; subst. simpl. lia.
    + destruct (Ascii.eqb c "\").
      * destruct s as [|d s]; [discriminate|].
        destruct (line_terminator d); [discriminate|].
        destruct (quoted_body q s) as [[i' r']|] eqn:E; [|discriminate].
        inversion H; subst.
        assert (String.length rest < String.length s)%nat.
        { apply (IH s i' rest); [simpl in Hn; lia|exact E]. }
        simpl. lia.
      * destruct (quoted_body q s) as [[i' r']|] eqn:E; [|discriminate].
        inversion H; subst.
        assert (String.length rest < String.length s)%nat.
        { apply (IH s i' rest); [simpl in Hn; lia|exact E]. }
        simpl. lia.
Qed.

Lemma quoted_consumes : forall q : ascii, consumes (quoted q).
Proof.
  intros q s m g rest H. unfold quoted in H.
  destruct s as [|c s]; [discriminate|].
  destruct (Ascii.eqb c q); [|discriminate].
  destruct (quoted_body q s) as [[i r]|] eqn:E; [|discriminate].
  inversion H; subst.
  pose proof (quoted_body_shorter q (String.length s) s i rest (le_n _) E).
  simpl. lia.
Qed.

Lemma single_consumes : forall ch : ascii, consumes (single ch).
Proof.
  intros ch s m g rest H. unfold single in H.
  destruct s as [|c s]; [discriminate|].
  destruct (Ascii.eqb c ch); [|discriminate].
  inversion H; subst. simpl. lia.
Qed.

Lemma token_rules_consume :
  Forall (fun r => consumes (rule_pattern r) /\ rule_type r <> EOF) token_rules.
Proof.
  unfold token_rules.
  repeat (apply Forall_cons; [split; [simpl|simpl; discriminate]|]);
    try apply Forall_nil;
    first [ apply keyword_consumes | apply one_or_more_consumes
          | apply float_pattern_consumes | apply quoted_consumes
          | apply single_consumes ].
Qed.

Lemma first_match_consumes :
  forall (rules : list token_rule) (s : string) (r : token_rule)
         (m : string) (g : option string) (rest : string),
    Forall (fun r => consumes (rule_pattern r) /\ rule_type r <> EOF) rules ->
    first_match rules s = Some (r, (m, g, rest)) ->
    (String.length rest < String.length s)%nat /\ rule_type r <> EOF.
Proof.
  induction rules as [|r0 rules IH]; intros s r m g rest HF H; simpl in H.
  - discriminate.
  - inversion HF as [|? ? [Hc Ht] HF']; subst.
    destruct (rule_pattern r0 s) as [[[m0 g0] rest0]|] eqn:E.
    + inversion H; subst. split; [apply (Hc _ _ _ _ E)|exact Ht].
    + apply (IH _ _ _ _ _ HF' H).
Qed.

(** ** Tokenizer: reading does not depend on the recursion bound *)

Lemma read_S :
  forall (n : nat) (s : string),
    read (S n) s
    = match s with
      | EmptyString => Ok (eof_token, s)
      | _ =>
          match first_match token_rules s with
          | None => Throw (UnexpectedInput s)
          | Some (r, (m, g, rest)) =>
              if rule_skip r then read n rest
              else Ok (Token (rule_type r) m g, rest)
          end
      end.
Proof.
  intros n s. destruct s; reflexivity.
Qed.

Lemma read_fuel :
  forall (n m : nat) (s : string),
    (String.length s < n)%nat -> (String.length s < m)%nat ->
    read n s = read m s.
Proof.
  induction n as [|n IH]; intros m s Hn Hm; [lia|].
  destruct m as [|m]; [lia|]. rewrite !read_S.
  destruct s as [|c s]; [reflexivity|].
  destruct (first_match token_rules (String c s)) as [[r [[mt g] rest]]|] eqn:E;
    [|reflexivity].
  destruct (rule_skip r); [|reflexivity].
  apply first_match_consumes in E; [|apply token_rules_consume].
  destruct E as [E _]. apply IH; lia.
Qed.

(** The equation of [next]. *)
Lemma next_equation :
  forall s : string,
    next s
    = match s with
      | EmptyString => Ok (eof_token, s)
      | _ =>
          match first_match token_rules s with
          | None => Throw (UnexpectedInput s)
          | Some (r, (m, g, rest)) =>
              if rule_skip r then next rest
              else Ok (Token (rule_type r) m g, rest)
          end
      end.
Proof.
  intros s. unfold next. rewrite read_S.
  destruct s as [|c s]; [reflexivity|].
  destruct (first_match token_rules (String c s)) as [[r [[mt g] rest]]|] eqn:E;
    [|reflexivity].
  destruct (rule_skip r); [|reflexivity].
  apply first_match_consumes in E; [|apply token_rules_consume].
  destruct E as [E _]. apply read_fuel; simpl in *; lia.
Qed.

(** A token other than the end of the input takes at least one character;
    at the end of the input nothing is left. *)
Lemma next_shorter :
  forall (s : string) (t : token) (rest : string),
    next s = Ok (t, rest) ->
    (ttype t = EOF /\ rest = "")
    \/ (ttype t <> EOF /\ (String.length rest < String.length s)%nat).
Proof.
  intros s. remember (String.length s) as n eqn:Hn.
  revert s Hn. induction n as [n IH] using lt_wf_ind.
  intros s Hn t rest H. rewrite next_equation in H.
  destruct s as [|c s].
  - inversion H; subst. left. split; reflexivity.
  - destruct (first_match token_rules (String c s)) as [[r [[mt g] rest']]|] eqn:E;
      [|discriminate].
    apply first_match_consumes in E; [|apply token_rules_consume].
    destruct E as [Hlen Hty].
    destruct (rule_skip r).
    + destruct (IH (String.length rest') ltac:(lia) rest' eq_refl t rest H)
        as [[? ?]|[? ?]]; [left; split; assumption|right; split; [assumption|lia]].
    + inversion H; subst. right. split; [exact Hty|exact Hlen].
Qed.

Lemma next_never_out_of_fuel :
  forall s : string, next s <> OutOfFuel /\ next s <> Unmodelled.
Proof.
  intros s. remember (String.length s) as n eqn:Hn.
  revert s Hn. induction n as [n IH] using lt_wf_ind.
  intros s Hn. rewrite next_equation.
  destruct s as [|c s]; [split; discriminate|].
  destruct (first_match token_rules (String c s)) as [[r [[mt g] rest']]|] eqn:E;
    [|split; discriminate].
  apply first_match_consumes in E; [|apply token_rules_consume].
  destruct E as [Hlen _].
  destruct (rule_skip r); [|split; discriminate].
  apply (IH (String.length rest')); [lia|reflexivity].
Qed.

(** ** Tokenizer: identifiers *)

Lemma span_run :
  forall (p : ascii -> bool) (run tail : string),
    string_forall p run = true ->
    starts_in p tail = false ->
    span p (run ++ tail) = (run, tail).
Proof.
  intros p. induction run as [|c run IH]; intros tail Hrun Htail; simpl.
  - destruct tail as [|d tail]; [reflexivity|].
    simpl in *. rewrite Htail. reflexivity.
  - unfold string_forall in Hrun. simpl in Hrun.
    apply andb_true_iff in Hrun. destruct Hrun as [Hc Hrun].
    rewrite Hc. rewrite (IH tail Hrun Htail). reflexivity.
Qed.

Lemma keyword_at_false :
  forall s : string,
    keyword_at s = false ->
    keyword "missing" s = None /\ keyword "exists" s = None
    /\ keyword "range" s = None /\ keyword "to" s = None.
Proof.
  intros s H. unfold keyword_at in H. simpl in H.
  destruct (keyword "missing" s); [discriminate|].
  destruct (keyword "exists" s); [discriminate|].
  destruct (keyword "range" s); [discriminate|].
  destruct (keyword "to" s); [discriminate|].
  repeat split.
Qed.

Lemma first_match_identifier :
  forall (s m rest : string),
    keyword_at s = false ->
    one_or_more ident_char s = Some (m, None, rest) ->
    first_match token_rules s
    = Some (TokenRule IDENTIFIER (one_or_more ident_char) false, (m, None, rest)).
Proof.
  intros s m rest Hk Hi.
  destruct (keyword_at_false s Hk) as [H1 [H2 [H3 H4]]].
  unfold token_rules. cbn [first_match rule_pattern].
  rewrite H1, H2, H3, H4, Hi. reflexivity.
Qed.

Lemma next_identifier :
  forall (run tail : string),
    run <> "" ->
    string_forall ident_char run = true ->
    starts_in ident_char tail = false ->
    keyword_at (run ++ tail) = false ->
    next (run ++ tail) = Ok (Token IDENTIFIER run None, tail).
Proof.
  intros run tail Hne Hrun Htail Hk.
  rewrite next_equation.
  assert (Hi : one_or_more ident_char (run ++ tail) = Some (run, None, tail)).
  { unfold one_or_more. rewrite (span_run _ _ _ Hrun Htail).
    destruct run; [contradiction|reflexivity]. }
  rewrite (first_match_identifier _ _ _ Hk Hi).
  destruct run as [|c run]; [contradiction|]. reflexivity.
Qed.

(** C5, as the code has it. Identifier characters are the letters, [-], [_]
    and [.]; a digit is not one. At a position where no keyword pattern
    matches, the tokenizer emits one IDENTIFIER token for the maximal run of
    identifier characters. The mixed segment [ABC123] is tokenized as the
    IDENTIFIER [ABC] followed by the INT [123]. *)
Theorem identifier_token_maximal_run :
  (forall (run tail : string),
      run <> "" ->
      string_forall ident_char run = true ->
      starts_in ident_char tail = false ->
      keyword_at (run ++ tail) = false ->
      next (run ++ tail) = Ok (Token IDENTIFIER run None, tail))
  /\ (forall c : ascii,
        ident_char c = true
        <-> (is_letter c = true \/ c = "-"%char \/ c = "_"%char \/ c = "."%char))
  /\ (forall c : ascii, is_digit c = true -> ident_char c = false)
  /\ tokenize "ABC123" = Ok [Token IDENTIFIER "ABC" None; Token INT "123" None].
Proof.
  split; [exact next_identifier|]. split; [|split].
  - intros c. unfold ident_char. rewrite !orb_true_iff, !Ascii.eqb_eq. tauto.
  - intros c H. ascii_cases c; try discriminate H; reflexivity.
  - reflexivity.
Qed.

(** The theorem at the run [variants.sku] followed by [:exists]. *)
Lemma identifier_token_maximal_run_witness :
  next ("variants.sku" ++ ":exists")
  = Ok (Token IDENTIFIER "variants.sku" None, ":exists").
Proof.
  apply (proj1 identifier_token_maximal_run "variants.sku" ":exists").
  - discriminate.
  - reflexivity.
  - reflexivity.
  - reflexivity.
Defined.

(** C5, counterexample to the claim as stated: [ABC123] is a run of letters
    and digits, and the tokenizer does not emit it as one IDENTIFIER token. *)
Lemma mixed_segment_is_two_tokens :
  string_forall (fun c => is_letter c || is_digit c) "ABC123" = true
  /\ tokenize "ABC123" = Ok [Token IDENTIFIER "ABC" None; Token INT "123" None]
  /\ tokenize "ABC123" <> Ok [Token IDENTIFIER "ABC123" None].
Proof.
  split; [reflexivity|]. split; [reflexivity|]. vm_compute. discriminate.
Qed.

(** ** Compiler: the recursion bound is enough *)

Lemma parse_S :
  forall (n : nat) (rbp : power) (lx : lexer),
    parse (S n) rbp lx
    = ('(t, lx1) <- next lx ;;
       '(left0, lx2) <- nud (parse n) t lx1 ;;
       led_loop (parse n) (S n) rbp left0 lx2).
Proof. reflexivity. Qed.

Lemma led_loop_S :
  forall (f : parse_function) (n : nat) (rbp : power) (left : parsed)
         (lx : lexer),
    led_loop f (S n) rbp left lx
    = (t <- peek lx ;;
       if power_lt rbp (bp t) then
         '(operator, lx1) <- next lx ;;
         '(left', lx2) <- led f operator left lx1 ;;
         led_loop f n rbp left' lx2
       else Ok (left, lx)).
Proof. reflexivity. Qed.

Lemma nud_extends :
  forall (f g : parse_function) (t : token) (lx : lexer),
    extends f g -> nud f t lx <> OutOfFuel -> nud g t lx = nud f t lx.
Proof.
  intros f g t lx Hext H. unfold nud in *.
  destruct (ttype t); try reflexivity.
  destruct (next lx) as [[t1 lx1]|e| |]; simpl in *; try reflexivity.
  destruct (f (Fin 0) lx1) as [[r lx2]|e| |] eqn:E; simpl in *;
    try (rewrite (Hext (Fin 0) lx1), E by (rewrite E; discriminate); reflexivity).
  contradiction.
Qed.

Lemma led_extends :
  forall (f g : parse_function) (t : token) (left : parsed) (lx : lexer),
    extends f g -> led f t left lx <> OutOfFuel -> led g t left lx = led f t left lx.
Proof.
  intros f g t left lx Hext H. unfold led in *.
  destruct (ttype t); try reflexivity;
    (destruct (f (power_pred (bp t)) lx) as [[r lx2]|e| |] eqn:E; simpl in *;
     [ | | contradiction | ];
     rewrite (Hext (power_pred (bp t)) lx), E by (rewrite E; discriminate);
     reflexivity).
Qed.

Lemma led_loop_extends :
  forall (f g : parse_function),
    extends f g ->
    forall (n m : nat) (rbp : power) (left : parsed) (lx : lexer),
      (n <= m)%nat ->
      led_loop f n rbp left lx <> OutOfFuel ->
      led_loop g m rbp left lx = led_loop f n rbp left lx.
Proof.
  intros f g Hext. induction n as [|n IH]; intros m rbp left lx Hle H.
  - simpl in H. contradiction.
  - destruct m as [|m]; [lia|].
    rewrite (led_loop_S g). rewrite (led_loop_S f) in *.
    destruct (peek lx) as [t|e| |]; simpl in *; try reflexivity.
    destruct (power_lt rbp (bp t)); [|reflexivity].
    destruct (next lx) as [[op lx1]|e| |]; simpl in *; try reflexivity.
    destruct (led f op left lx1) as [[l' lx2]|e| |] eqn:E; simpl in *;
      try (rewrite (led_extends f g op left lx1 Hext), E
             by (rewrite E; discriminate); simpl; try reflexivity).
    + apply IH; [lia|exact H].
    + contradiction.
Qed.

Lemma parse_extends : forall n : nat, extends (parse n) (parse (S n)).
Proof.
  induction n as [|n IH]; intros rbp lx H.
  - simpl in H. contradiction.
  - rewrite (parse_S (S n)). rewrite parse_S in *.
    destruct (next lx) as [[t lx1]|e| |]; simpl in *; try reflexivity.
    destruct (nud (parse n) t lx1) as [[l0 lx2]|e| |] eqn:E; simpl in *;
      try (rewrite (nud_extends _ _ t lx1 IH), E by (rewrite E; discriminate);
           simpl; try reflexivity).
    + apply (led_loop_extends _ _ IH); [lia|exact H].
    + contradiction.
Qed.

Lemma parse_mono :
  forall (n m : nat) (rbp : power) (lx : lexer),
    (n <= m)%nat -> parse n rbp lx <> OutOfFuel -> parse m rbp lx = parse n rbp lx.
Proof.
  intros n m rbp lx Hle. induction Hle as [|m Hle IH]; intros H.
  - reflexivity.
  - rewrite (parse_extends m rbp lx); rewrite (IH H); [reflexivity|exact H].
Qed.

Lemma nud_bounded :
  forall (f : parse_function) (n : nat) (t : token) (lx : lexer),
    bounded f n ->
    (String.length lx < n)%nat ->
    nud f t lx <> OutOfFuel
    /\ forall (v : parsed) (lx' : lexer),
         nud f t lx = Ok (v, lx') -> (String.length lx' <= String.length lx)%nat.
Proof.
  intros f n t lx Hb Hlen. unfold nud.
  destruct (ttype t);
    try (split; [discriminate|intros v lx' H; inversion H; subst; lia]);
    try (split; [discriminate|intros v lx' H; discriminate]).
  - (* RANGE *)
    destruct (next lx) as [[t1 lx1]|e| |] eqn:En; simpl;
      try (split; [discriminate|intros v lx' H; discriminate]).
    + assert (Hl1 : (String.length lx1 <= String.length lx)%nat).
      { destruct (next_shorter _ _ _ En) as [[_ ->]|[_ ?]]; simpl; lia. }
      destruct (Hb (Fin 0) lx1 ltac:(lia)) as [Hf Hs].
      destruct (f (Fin 0) lx1) as [[r lx2]|e| |]; simpl;
        try (split; [discriminate|intros v lx' H; discriminate]).
      * specialize (Hs r lx2 eq_refl).
        destruct r; simpl;
          try (split; [discriminate|intros v lx' H; discriminate]);
          (split; [discriminate|]; intros v lx' H; inversion H; subst; lia).
      * contradiction.
    + destruct (next_never_out_of_fuel lx) as [H _]. contradiction.
  - (* INT *)
    destruct (parseInt (tmatch t)) as [z|e| |] eqn:E; simpl;
      try (split; [discriminate|intros v lx' H; discriminate]).
    + split; [discriminate|]. intros v lx' H. inversion H; subst. lia.
    + unfold parseInt in E. destruct (decimal (tmatch t) <? 2 ^ 53); discriminate.
  - (* STRING *)
    destruct (tgroup1 t); simpl.
    + split; [discriminate|]. intros v lx' H. inversion H; subst. lia.
    + split; [discriminate|]. intros v lx' H. discriminate.
Qed.

Lemma led_bounded :
  forall (f : parse_function) (n : nat) (t : token) (left : parsed) (lx : lexer),
    bounded f n ->
    (String.length lx < n)%nat ->
    led f t left lx <> OutOfFuel
    /\ forall (v : parsed) (lx' : lexer),
         led f t left lx = Ok (v, lx') -> (String.length lx' < String.length lx)%nat.
Proof.
  intros f n t left lx Hb Hlen. unfold led.
  destruct (ttype t);
    try (split; [discriminate|intros v lx' H; discriminate]);
    (destruct (Hb (power_pred (bp t)) lx Hlen) as [Hf Hs];
     destruct (f (power_pred (bp t)) lx) as [[r lx2]|e| |]; simpl;
     [ specialize (Hs r lx2 eq_refl)
     | split; [discriminate|intros v lx' H; discriminate]
     | contradiction
     | split; [discriminate|intros v lx' H; discriminate] ]).
  all: destruct r; simpl;
    (split; [discriminate|intros v lx' H; inversion H; subst; lia]).
Qed.

Lemma peek_next :
  forall (lx : lexer) (t : token),
    peek lx = Ok t -> exists lx1, next lx = Ok (t, lx1).
Proof.
  intros lx t H. unfold peek in H.
  destruct (next lx) as [[t' lx1]|e| |]; simpl in H; try discriminate.
  inversion H; subst. exists lx1. reflexivity.
Qed.

Lemma led_loop_bounded :
  forall (f : parse_function) (n : nat),
    bounded f n ->
    forall (k : nat) (rbp : power) (left : parsed) (lx : lexer),
      (String.length lx < k)%nat ->
      (String.length lx <= n)%nat ->
      led_loop f k rbp left lx <> OutOfFuel
      /\ forall (v : parsed) (lx' : lexer),
           led_loop f k rbp left lx = Ok (v, lx') ->
           (String.length lx' <= String.length lx)%nat.
Proof.
  intros f n Hb. induction k as [|k IH]; intros rbp left lx Hk Hn; [lia|].
  rewrite led_loop_S.
  destruct (peek lx) as [t|e| |] eqn:Ep; simpl;
    try (split; [discriminate|intros v lx' H; discriminate]).
  - destruct (power_lt rbp (bp t)) eqn:Ebp.
    + destruct (peek_next _ _ Ep) as [lx1 En]. rewrite En. simpl.
      assert (Hl1 : (String.length lx1 < String.length lx)%nat).
      { destruct (next_shorter _ _ _ En) as [[Heof _]|[_ ?]]; [|assumption].
        unfold bp in Ebp. rewrite Heof in Ebp.
        destruct rbp; discriminate. }
      destruct (led_bounded f n t left lx1 Hb ltac:(lia)) as [Hf Hs].
      destruct (led f t left lx1) as [[l' lx2]|e| |]; simpl;
        try (split; [discriminate|intros v lx' H; discriminate]).
      * specialize (Hs l' lx2 eq_refl).
        destruct (IH rbp l' lx2 ltac:(lia) ltac:(lia)) as [Hf' Hs'].
        split; [exact Hf'|]. intros v lx' H. specialize (Hs' v lx' H). lia.
      * contradiction.
    + split; [discriminate|]. intros v lx' H. inversion H; subst. lia.
  - unfold peek in Ep. destruct (next_never_out_of_fuel lx) as [Hn1 _].
    destruct (next lx) as [[t' lx1]|e| |]; simpl in Ep; try discriminate.
    contradiction.
Qed.

Lemma parse_bounded : forall n : nat, bounded (parse n) n.
Proof.
  induction n as [|n IH]; intros rbp lx Hlen; [lia|].
  rewrite parse_S.
  destruct (next lx) as [[t lx1]|e| |] eqn:En; simpl;
    try (split; [discriminate|intros v lx' H; discriminate]).
  - destruct (next_shorter _ _ _ En) as [[Heof _]|[_ Hl1]].
    + unfold nud. rewrite Heof. simpl.
      split; [discriminate|intros v lx' H; discriminate].
    + destruct (nud_bounded (parse n) n t lx1 IH ltac:(lia)) as [Hf Hs].
      destruct (nud (parse n) t lx1) as [[l0 lx2]|e| |]; simpl;
        try (split; [discriminate|intros v lx' H; discriminate]).
      * specialize (Hs l0 lx2 eq_refl).
        destruct (led_loop_bounded (parse n) n IH (S n) rbp l0 lx2
                    ltac:(lia) ltac:(lia)) as [Hf' Hs'].
        split; [exact Hf'|]. intros v lx' H. specialize (Hs' v lx' H). lia.
      * contradiction.
  - destruct (next_never_out_of_fuel lx) as [H _]. contradiction.
Qed.

(** Whatever [parse] gives within some bound, it gives within the bound
    that [generateMatchFunc] uses. *)
Lemma parse_enough :
  forall (n : nat) (rbp : power) (lx : lexer) (r : outcome (parsed * lexer)),
    parse n rbp lx = r ->
    r <> OutOfFuel ->
    parse (S (String.length lx)) rbp lx = r.
Proof.
  intros n rbp lx r Hn Hr.
  destruct (parse_bounded (S (String.length lx)) rbp lx ltac:(lia)) as [Hf _].
  pose (m := Nat.max n (S (String.length lx))).
  assert (H1 : parse m rbp lx = parse n rbp lx).
  { apply parse_mono; [unfold m; lia|]. rewrite Hn. exact Hr. }
  assert (H2 : parse m rbp lx = parse (S (String.length lx)) rbp lx).
  { apply parse_mono; [unfold m; lia|exact Hf]. }
  rewrite <- H2, H1. exact Hn.
Qed.

(** The compiler terminates: its recursion bound is never exhausted. *)
Lemma generateMatchFunc_terminates :
  forall filter : string, generateMatchFunc filter <> OutOfFuel.
Proof.
  intros filter. unfold generateMatchFunc, getLexer.
  destruct (parse_bounded (S (String.length filter)) (Fin 0) filter ltac:(lia))
    as [Hf _].
  destruct (parse (S (String.length filter)) (Fin 0) filter) as [[r lx]|e| |];
    simpl; try discriminate.
  - destruct r; discriminate.
  - contradiction.
Qed.

(** A parse that ends in a match function, within any bound, is what
    [generateMatchFunc] returns. *)
Lemma generateMatchFunc_of_parse :
  forall (filter : string) (n : nat) (f : MatchFunc) (lx : lexer),
    parse n (Fin 0) filter = Ok (PFun f, lx) ->
    generateMatchFunc filter = Ok f.
Proof.
  intros filter n f lx H. unfold generateMatchFunc, getLexer.
  rewrite (parse_enough n (Fin 0) filter _ H) by discriminate.
  reflexivity.
Qed.

(** ** Tokenizer: literals, keywords and punctuation *)

Lemma append_empty : forall s : string, s ++ "" = s.
Proof.
  induction s as [|c s IH]; simpl; [reflexivity|rewrite IH; reflexivity].
Qed.

Lemma append_assoc :
  forall a b c : string, (a ++ b) ++ c = a ++ (b ++ c).
Proof.
  induction a as [|x a IH]; intros b c; simpl; [reflexivity|].
  rewrite IH. reflexivity.
Qed.

Lemma quoted_body_items :
  forall (q : ascii) (n : nat) (inner tail : string),
    (String.length inner <= n)%nat ->
    quoted_items q inner = true ->
    quoted_body q (inner ++ String q tail) = Some (inner, tail).
Proof.
  intros q. induction n as [|n IH]; intros inner tail Hn H.
  - destruct inner; [|simpl in Hn; lia].
    simpl. rewrite Ascii.eqb_refl. reflexivity.
  - destruct inner as [|c inner].
    + simpl. rewrite Ascii.eqb_refl. reflexivity.
    + simpl in *. destruct (Ascii.eqb c q); [discriminate|].
      destruct (Ascii.eqb c "\").
      * destruct inner as [|d inner]; [discriminate|].
        apply andb_true_iff in H. destruct H as [Hd H].
        simpl. apply negb_true_iff in Hd. rewrite Hd.
        rewrite (IH inner tail); [reflexivity|simpl in Hn; lia|exact H].
      * rewrite (IH inner tail); [reflexivity|lia|exact H].
Qed.

Lemma next_string :
  forall (q : ascii) (inner tail : string),
    Ascii.eqb q dquote || Ascii.eqb q "'" = true ->
    quoted_items q inner = true ->
    next (String q (inner ++ String q tail))
    = Ok (Token STRING (String q (inner ++ String q "")) (Some inner), tail).
Proof.
  intros q inner tail Hq Hi.
  pose proof (quoted_body_items q _ inner tail (le_n _) Hi) as Hb.
  rewrite next_equation.
  apply orb_true_iff in Hq. destruct Hq as [Hq|Hq];
    apply Ascii.eqb_eq in Hq; subst q;
    unfold token_rules; cbn [first_match rule_pattern];
    (replace (keyword "missing" _) with (@None match_result) by reflexivity);
    (replace (keyword "exists" _) with (@None match_result) by reflexivity);
    (replace (keyword "range" _) with (@None match_result) by reflexivity);
    (replace (keyword "to" _) with (@None match_result) by reflexivity);
    (replace (one_or_more ident_char _) with (@None match_result) by reflexivity);
    (replace (float_pattern _) with (@None match_result) by reflexivity);
    (replace (one_or_more is_digit _) with (@None match_result) by reflexivity).
  - unfold quoted at 1. rewrite Ascii.eqb_refl. rewrite Hb. reflexivity.
  - (replace (quoted dquote _) with (@None match_result) by reflexivity).
    unfold quoted at 1. rewrite Ascii.eqb_refl. rewrite Hb. reflexivity.
Qed.

Lemma digit_starts_no_keyword :
  forall (d : ascii) (s : string),
    is_digit d = true -> keyword_at (String d s) = false.
Proof.
  intros d s H. ascii_cases d; try discriminate H; reflexivity.
Qed.

Lemma float_pattern_no_dot :
  forall (digits tail : string),
    string_forall is_digit digits = true ->
    literal_boundary tail = true ->
    float_pattern (digits ++ tail) = None.
Proof.
  intros digits tail Hd Hb. unfold float_pattern.
  unfold literal_boundary in Hb. apply negb_true_iff in Hb.
  assert (Hs : starts_in is_digit tail = false).
  { destruct tail; [reflexivity|]. simpl in *.
    apply orb_false_iff in Hb. tauto. }
  rewrite (span_run _ _ _ Hd Hs).
  destruct digits as [|c digits]; [reflexivity|].
  destruct tail as [|t tail]; [reflexivity|].
  simpl in Hb. apply orb_false_iff in Hb. destruct Hb as [_ Hb].
  ascii_cases t; try reflexivity. discriminate Hb.
Qed.

Lemma next_int :
  forall (digits tail : string),
    digits <> "" ->
    string_forall is_digit digits = true ->
    literal_boundary tail = true ->
    next (digits ++ tail) = Ok (Token INT digits None, tail).
Proof.
  intros digits tail Hne Hd Hb.
  pose proof (float_pattern_no_dot digits tail Hd Hb) as Hf.
  assert (Hs : starts_in is_digit tail = false).
  { unfold literal_boundary in Hb. apply negb_true_iff in Hb.
    destruct tail; [reflexivity|]. simpl in *.
    apply orb_false_iff in Hb. tauto. }
  assert (Hi : one_or_more is_digit (digits ++ tail) = Some (digits, None, tail)).
  { unfold one_or_more. rewrite (span_run _ _ _ Hd Hs).
    destruct digits; [contradiction|reflexivity]. }
  destruct digits as [|d digits]; [contradiction|].
  assert (Hdig : is_digit d = true).
  { unfold string_forall in Hd. simpl in Hd.
    apply andb_true_iff in Hd. tauto. }
  destruct (keyword_at_false _ (digit_starts_no_keyword d (digits ++ tail) Hdig))
    as [H1 [H2 [H3 H4]]].
  assert (Hid : one_or_more ident_char (String d digits ++ tail) = None).
  { unfold one_or_more. simpl.
    replace (ident_char d) with false; [reflexivity|].
    ascii_cases d; try discriminate Hdig; reflexivity. }
  rewrite next_equation.
  unfold token_rules. cbn [first_match rule_pattern].
  simpl append in *. rewrite H1, H2, H3, H4, Hid, Hf, Hi. reflexivity.
Qed.

Lemma next_literal :
  forall (l : literal) (tail : string),
    well_formed l = true ->
    literal_boundary tail = true ->
    next (literal_text l ++ tail) = Ok (literal_token l, tail).
Proof.
  intros [q inner|digits] tail Hw Hb; simpl in Hw.
  - apply andb_true_iff in Hw. destruct Hw as [Hq Hi].
    simpl. rewrite append_assoc. simpl.
    apply next_string; assumption.
  - apply andb_true_iff in Hw. destruct Hw as [Hw _].
    apply andb_true_iff in Hw. destruct Hw as [Hne Hd].
    simpl. apply next_int; try assumption.
    intros ->. discriminate.
Qed.

Lemma nud_literal :
  forall (f : parse_function) (l : literal) (lx : lexer),
    well_formed l = true ->
    nud f (literal_token l) lx = Ok (literal_value l, lx).
Proof.
  intros f [q inner|digits] lx Hw; simpl in Hw.
  - reflexivity.
  - apply andb_true_iff in Hw. destruct Hw as [_ Hs].
    unfold nud, parseInt. simpl. rewrite Hs. reflexivity.
Qed.

(** ** Tokenizer: paths that are not read as keywords *)

Lemma letter_is_identifier :
  forall c : ascii, is_letter (lower c) = true -> ident_char c = true.
Proof.
  intros c H. ascii_cases c; try discriminate H; reflexivity.
Qed.

Lemma identifier_guarded :
  forall c : ascii,
    ident_char c = true -> Ascii.eqb c "." = false -> guard_char c = true.
Proof.
  intros c Hi Hd. unfold ident_char, guard_char in *.
  rewrite Hd in Hi.
  destruct (Ascii.eqb c "-"); [reflexivity|].
  destruct (Ascii.eqb c "_"); [reflexivity|].
  simpl in *. rewrite Hi. reflexivity.
Qed.

Lemma keyword_cons_none :
  forall (k c : ascii) (kw s : string),
    keyword kw s = None -> keyword (String k kw) (String c s) = None.
Proof.
  intros k c kw s H. unfold keyword in *. simpl.
  destruct (Ascii.eqb (lower c) k); [|reflexivity].
  destruct (literal_ci kw s) as [[m rest]|]; [|reflexivity].
  destruct rest as [|d rest]; [discriminate|].
  destruct (guard_char d); [reflexivity|discriminate].
Qed.

Lemma keyword_not_reserved :
  forall (kw path tail : string),
    string_forall is_letter kw = true ->
    string_forall ident_char path = true ->
    starts_in ident_char tail = false ->
    match literal_ci kw path with
    | Some (_, EmptyString) => true
    | Some (_, String c _) => Ascii.eqb c "."
    | None => false
    end = false ->
    keyword kw (path ++ tail) = None.
Proof.
  induction kw as [|k kw IH]; intros path tail Hkw Hpath Htail Hres.
  - simpl in Hres. destruct path as [|c path]; [discriminate|].
    unfold string_forall in Hpath. simpl in Hpath.
    apply andb_true_iff in Hpath. destruct Hpath as [Hc _].
    unfold keyword. simpl.
    rewrite (identifier_guarded c Hc Hres). reflexivity.
  - unfold string_forall in Hkw. simpl in Hkw.
    apply andb_true_iff in Hkw. destruct Hkw as [Hk Hkw].
    destruct path as [|c path].
    + simpl. destruct tail as [|c tail]; [reflexivity|].
      unfold keyword. simpl.
      destruct (Ascii.eqb_spec (lower c) k) as [E|E]; [|reflexivity].
      simpl in Htail. rewrite <- E in Hk.
      rewrite (letter_is_identifier c Hk) in Htail. discriminate.
    + unfold string_forall in Hpath. simpl in Hpath.
      apply andb_true_iff in Hpath. destruct Hpath as [_ Hpath].
      simpl append. simpl in Hres.
      destruct (Ascii.eqb (lower c) k) eqn:E.
      * apply keyword_cons_none. apply IH; try assumption.
        destruct (literal_ci kw path) as [[m rest]|]; exact Hres.
      * unfold keyword. simpl. rewrite E. reflexivity.
Qed.

Lemma identifier_no_keyword :
  forall (path tail : string),
    string_forall ident_char path = true ->
    starts_in ident_char tail = false ->
    reserved path = false ->
    keyword_at (path ++ tail) = false.
Proof.
  intros path tail Hpath Htail Hres.
  unfold reserved in Hres. simpl in Hres.
  repeat (apply orb_false_iff in Hres; destruct Hres as [? Hres]).
  unfold keyword_at. simpl.
  rewrite !keyword_not_reserved; try assumption; reflexivity.
Qed.

Lemma next_path :
  forall (path tail : string),
    identifier path = true ->
    starts_in ident_char tail = false ->
    next (path ++ tail) = Ok (Token IDENTIFIER path None, tail).
Proof.
  intros path tail Hid Htail. unfold identifier in Hid.
  apply andb_true_iff in Hid. destruct Hid as [Hid Hres].
  apply andb_true_iff in Hid. destruct Hid as [Hne Hpath].
  apply negb_true_iff in Hres.
  apply next_identifier; try assumption.
  - intros ->. discriminate.
  - apply identifier_no_keyword; assumption.
Qed.

(** ** Compiler: steps of the operator loop *)

Lemma led_loop_stop :
  forall (f : parse_function) (n : nat) (rbp : power) (left : parsed)
         (lx : lexer) (t : token),
    peek lx = Ok t ->
    power_lt rbp (bp t) = false ->
    led_loop f (S n) rbp left lx = Ok (left, lx).
Proof.
  intros f n rbp left lx t Hp Hbp.
  rewrite led_loop_S, Hp. simpl. rewrite Hbp. reflexivity.
Qed.

Lemma led_loop_step :
  forall (f : parse_function) (n : nat) (rbp : power) (left left' : parsed)
         (lx lx1 lx2 : lexer) (t : token),
    next lx = Ok (t, lx1) ->
    power_lt rbp (bp t) = true ->
    led f t left lx1 = Ok (left', lx2) ->
    led_loop f (S n) rbp left lx = led_loop f n rbp left' lx2.
Proof.
  intros f n rbp left left' lx lx1 lx2 t Hn Hbp Hled.
  rewrite led_loop_S. unfold peek. rewrite Hn. simpl.
  rewrite Hbp, Hled. reflexivity.
Qed.

Lemma led_loop_end :
  forall (f : parse_function) (n : nat) (rbp : power) (left : parsed),
    led_loop f (S n) rbp left "" = Ok (left, "").
Proof.
  intros f n rbp left. apply (led_loop_stop f n rbp left "" eof_token).
  - reflexivity.
  - destruct rbp; reflexivity.
Qed.

Lemma led_loop_rparen :
  forall (f : parse_function) (n : nat) (z : Z) (left : parsed) (lx : lexer),
    0 <= z ->
    led_loop f (S n) (Fin z) left (String ")" lx) = Ok (left, String ")" lx).
Proof.
  intros f n z left lx Hz.
  apply (led_loop_stop f n (Fin z) left _ (Token RPAREN ")" None)).
  - reflexivity.
  - simpl. apply Z.ltb_ge. exact Hz.
Qed.

Lemma parse_literal :
  forall (n : nat) (rbp : power) (l : literal) (tail : string),
    well_formed l = true ->
    literal_boundary tail = true ->
    parse (S n) rbp (literal_text l ++ tail)
    = led_loop (parse n) (S n) rbp (literal_value l) tail.
Proof.
  intros n rbp l tail Hw Hb.
  rewrite parse_S, (next_literal l tail Hw Hb). simpl.
  rewrite (nud_literal (parse n) l tail Hw). reflexivity.
Qed.

Lemma parse_literal_end :
  forall (n : nat) (rbp : power) (l : literal),
    well_formed l = true ->
    parse (S n) rbp (literal_text l) = Ok (literal_value l, "").
Proof.
  intros n rbp l Hw.
  rewrite <- (append_empty (literal_text l)).
  rewrite (parse_literal n rbp l "" Hw eq_refl).
  apply led_loop_end.
Qed.

Lemma parse_path :
  forall (n : nat) (rbp : power) (path tail : string),
    identifier path = true ->
    starts_in ident_char tail = false ->
    parse (S n) rbp (path ++ tail)
    = led_loop (parse n) (S n) rbp (PStr path) tail.
Proof.
  intros n rbp path tail Hid Htail.
  rewrite parse_S, (next_path path tail Hid Htail). reflexivity.
Qed.

Lemma next_colon :
  forall lx : lexer, next (String ":" lx) = Ok (Token COLON ":" None, lx).
Proof. reflexivity. Qed.

Lemma next_comma :
  forall lx : lexer, next (String "," lx) = Ok (Token COMMA "," None, lx).
Proof. reflexivity. Qed.

(** A path, a colon, and a right-hand side that parses at power 99 to
    [expr] up to the end of the input or a closing parenthesis. *)
Lemma parse_colon :
  forall (n : nat) (path rhs : string) (expr : parsed) (lx : lexer),
    identifier path = true ->
    parse (S n) (Fin 99) rhs = Ok (expr, lx) ->
    lx = "" \/ (exists lx', lx = String ")" lx') ->
    parse (S (S n)) (Fin 0) (path ++ ":" ++ rhs)
    = Ok (PFun (match expr with
                | PArr items => match_includes items
                | PFun g => match_call g
                | _ => match_equals expr
                end), lx).
Proof.
  intros n path rhs expr lx Hid Hrhs Hend.
  rewrite (parse_path (S n) (Fin 0) path (":" ++ rhs) Hid eq_refl).
  assert (Hled : led (parse (S n)) (Token COLON ":" None) (PStr path) rhs
                 = Ok (PFun (match expr with
                             | PArr items => match_includes items
                             | PFun g => match_call g
                             | _ => match_equals expr
                             end), lx)).
  { unfold led. simpl. rewrite Hrhs. simpl. destruct expr; reflexivity. }
  rewrite (led_loop_step (parse (S n)) (S n) (Fin 0) (PStr path) _
             (":" ++ rhs) rhs lx _ (next_colon rhs) eq_refl Hled).
  destruct Hend as [->|[lx' ->]].
  - apply led_loop_end.
  - apply led_loop_rparen. lia.
Qed.

(** ** The colon rule *)



(** ** The range rule *)

Lemma span_none :
  forall (p : ascii -> bool) (s : string),
    starts_in p s = false -> span p s = ("", s).
Proof.
  intros p s H. destruct s as [|c s]; [reflexivity|].
  simpl in *. rewrite H. reflexivity.
Qed.

Lemma next_space :
  forall s : string,
    starts_in is_space s = false -> next (String " " s) = next s.
Proof.
  intros s H. rewrite next_equation.
  unfold token_rules. cbn [first_match rule_pattern].
  (replace (keyword "missing" _) with (@None match_result) by reflexivity).
  (replace (keyword "exists" _) with (@None match_result) by reflexivity).
  (replace (keyword "range" _) with (@None match_result) by reflexivity).
  (replace (keyword "to" _) with (@None match_result) by reflexivity).
  (replace (one_or_more ident_char _) with (@None match_result) by reflexivity).
  (replace (float_pattern _) with (@None match_result) by reflexivity).
  (replace (one_or_more is_digit _) with (@None match_result) by reflexivity).
  (replace (quoted dquote _) with (@None match_result) by reflexivity).
  (replace (quoted "'" _) with (@None match_result) by reflexivity).
  (replace (single "," _) with (@None match_result) by reflexivity).
  (replace (single "(" _) with (@None match_result) by reflexivity).
  (replace (single ":" _) with (@None match_result) by reflexivity).
  (replace (single ")" _) with (@None match_result) by reflexivity).
  (replace (single dquote _) with (@None match_result) by reflexivity).
  unfold one_or_more. simpl span. rewrite (span_none _ _ H). reflexivity.
Qed.

Lemma digits_start :
  forall (digits tail : string),
    well_formed (LInt digits) = true ->
    starts_in is_space (digits ++ tail) = false.
Proof.
  intros digits tail Hw. simpl in Hw.
  apply andb_true_iff in Hw. destruct Hw as [Hw _].
  apply andb_true_iff in Hw. destruct Hw as [Hne Hd].
  destruct digits as [|d digits]; [discriminate|].
  unfold string_forall in Hd. simpl in Hd.
  apply andb_true_iff in Hd. destruct Hd as [Hd _].
  simpl. ascii_cases d; try discriminate Hd; reflexivity.
Qed.

(** [range(A to B)] followed by anything, at power 99: the range predicate,
    with the closing parenthesis left in the input. *)
Lemma parse_range :
  forall (n : nat) (A B tail : string),
    well_formed (LInt A) = true ->
    well_formed (LInt B) = true ->
    parse (S (S (S n))) (Fin 99) ("range(" ++ A ++ " to " ++ B ++ ")" ++ tail)
    = Ok (PFun (match_range (Some (PNum (decimal A))) (Some (PNum (decimal B)))),
          ")" ++ tail).
Proof.
  intros n A B tail HA HB.
  assert (Hupper : parse (S n) (Fin 19) (" " ++ B ++ ")" ++ tail)
                   = Ok (PNum (decimal B), ")" ++ tail)).
  { rewrite parse_S.
    change (" " ++ B ++ ")" ++ tail) with (String " " (B ++ ")" ++ tail)).
    rewrite (next_space _ (digits_start B _ HB)).
    rewrite <- parse_S.
    transitivity (led_loop (parse n) (S n) (Fin 19) (PNum (decimal B))
                    (")" ++ tail)).
    - exact (parse_literal n (Fin 19) (LInt B) (")" ++ tail) HB eq_refl).
    - apply led_loop_rparen. lia. }
  assert (Hpair : parse (S (S n)) (Fin 0) (A ++ " to " ++ B ++ ")" ++ tail)
                  = Ok (PArr [PNum (decimal A); PNum (decimal B)], ")" ++ tail)).
  { transitivity (led_loop (parse (S n)) (S (S n)) (Fin 0) (PNum (decimal A))
                    (" to " ++ B ++ ")" ++ tail)).
    { exact (parse_literal (S n) (Fin 0) (LInt A) (" to " ++ B ++ ")" ++ tail)
               HA eq_refl). }
    assert (Hled : led (parse (S n)) (Token TO "to" None) (PNum (decimal A))
                     (" " ++ B ++ ")" ++ tail)
                   = Ok (PArr [PNum (decimal A); PNum (decimal B)], ")" ++ tail)).
    { unfold led. simpl ttype. cbv iota.
      change (power_pred (bp (Token TO "to" None))) with (Fin 19).
      rewrite Hupper. reflexivity. }
    rewrite (led_loop_step (parse (S n)) (S n) (Fin 0) (PNum (decimal A)) _
               (" to " ++ B ++ ")" ++ tail) (" " ++ B ++ ")" ++ tail)
               (")" ++ tail) (Token TO "to" None) eq_refl eq_refl Hled).
    apply led_loop_rparen. lia. }
  rewrite parse_S.
  change (next ("range(" ++ A ++ " to " ++ B ++ ")" ++ tail))
    with (@Ok (token * lexer)
            (Token RANGE "range" None, "(" ++ A ++ " to " ++ B ++ ")" ++ tail)).
  cbn [bind]. unfold nud. cbn [ttype].
  change (next ("(" ++ A ++ " to " ++ B ++ ")" ++ tail))
    with (@Ok (token * lexer)
            (Token LPAREN "(" None, A ++ " to " ++ B ++ ")" ++ tail)).
  cbn [bind]. rewrite Hpair. cbn [bind destructure_pair nth_error].
  apply led_loop_rparen. lia.
Qed.


(** ** Filters on products *)

Lemma verdict_matched :
  forall (p : value) (staged : bool) (i : nat) (fields : list (string * value))
         (mark : bool),
    verdict (matched p staged i (VObj fields) mark) = Ok true.
Proof.
  intros p staged i fields [|]; reflexivity.
Qed.

Lemma truthy_property_object :
  forall (variant : value) (k : string) (v : value),
    String.eqb k "length" = false ->
    array_index k = None ->
    get_prop variant k = Ok v ->
    truthy v = true ->
    exists fields, variant = VObj fields.
Proof.
  intros variant k v Hk Hi Hg Ht.
  destruct variant; simpl in Hg; try discriminate;
    try (inversion Hg; subst; discriminate);
    try (rewrite Hk, Hi in Hg; inversion Hg; subst; discriminate).
  eexists. reflexivity.
Qed.

Lemma filterPrice_loop_skips :
  forall (staged : bool) (exprFunc : MatchFunc) (p : value) (mark : bool)
         (skipped : list value) (i : nat) (l : list value),
    forallb lacks_prices skipped = true ->
    filterPrice_loop staged exprFunc p mark i (skipped ++ l)%list
    = filterPrice_loop staged exprFunc p mark (List.length skipped + i) l.
Proof.
  intros staged exprFunc p mark.
  induction skipped as [|variant skipped IH]; intros i l H; simpl in *.
  - reflexivity.
  - apply andb_true_iff in H. destruct H as [Hv H].
    unfold lacks_prices in Hv.
    destruct (get_prop variant "prices") as [prices|e| |]; try discriminate.
    simpl. rewrite Hv. rewrite (IH (S i) l H).
    f_equal. lia.
Qed.

Lemma filterPrice_loop_decides :
  forall (staged : bool) (exprFunc : MatchFunc) (p : value) (mark : bool)
         (i : nat) (variant : value) (rest : list value)
         (prices price price_value centAmount : value) (b : bool),
    get_prop variant "prices" = Ok prices ->
    truthy prices = true ->
    get_prop prices "0" = Ok price ->
    get_prop price "value" = Ok price_value ->
    get_prop price_value "centAmount" = Ok centAmount ->
    exprFunc centAmount = Ok b ->
    verdict (filterPrice_loop staged exprFunc p mark i (variant :: rest)) = Ok b.
Proof.
  intros staged exprFunc p mark i variant rest prices price pv c b
         Hp Ht H0 Hv Hc Hf.
  destruct (truthy_property_object variant "prices" prices eq_refl eq_refl Hp Ht)
    as [fields Hobj].
  simpl. rewrite Hp. simpl. rewrite Ht. simpl.
  rewrite H0. simpl. rewrite Hv. simpl. rewrite Hc. simpl. rewrite Hf. simpl.
  destruct b; [rewrite Hobj; apply verdict_matched|reflexivity].
Qed.

Lemma attribute_loop_skips :
  forall (staged : bool) (exprFunc : MatchFunc) (attrName path : option string)
         (p : value) (mark : bool) (i : nat) (variant : value)
         (before l : list value),
    forallb (attribute_not_named attrName) before = true ->
    attribute_loop staged exprFunc attrName path p mark i variant (before ++ l)%list
    = attribute_loop staged exprFunc attrName path p mark i variant l.
Proof.
  intros staged exprFunc attrName path p mark i variant.
  induction before as [|attr before IH]; intros l H; simpl in *.
  - reflexivity.
  - apply andb_true_iff in H. destruct H as [Ha H].
    unfold attribute_not_named in Ha.
    destruct (get_prop attr "name") as [name|e| |]; try discriminate.
    simpl. rewrite Ha. apply IH. exact H.
Qed.

Lemma filterAttribute_loop_skips :
  forall (staged : bool) (exprFunc : MatchFunc) (attrName path : option string)
         (p : value) (mark : bool) (skipped : list value) (i : nat)
         (l : list value),
    forallb (lacks_attribute attrName) skipped = true ->
    filterAttribute_loop staged exprFunc attrName path p mark i (skipped ++ l)%list
    = filterAttribute_loop staged exprFunc attrName path p mark
        (List.length skipped + i) l.
Proof.
  intros staged exprFunc attrName path p mark.
  induction skipped as [|variant skipped IH]; intros i l H; simpl in *.
  - reflexivity.
  - apply andb_true_iff in H. destruct H as [Hv H].
    replace (S (List.length skipped + i)) with (List.length skipped + S i)%nat
      by lia.
    rewrite <- (IH (S i) l H).
    unfold lacks_attribute in Hv.
    destruct (get_prop variant "attributes") as [a|e| |]; try discriminate.
    simpl. destruct (truthy a); simpl; [|reflexivity].
    destruct (iterate a) as [attrs|e| |]; try discriminate. simpl.
    rewrite (attribute_loop_none staged exprFunc attrName path p mark i
               variant attrs Hv).
    reflexivity.
Qed.

Lemma filterAttribute_loop_decides :
  forall (staged : bool) (exprFunc : MatchFunc) (attrName path : option string)
         (p : value) (mark : bool) (i : nat) (variant : value)
         (rest : list value) (attributes : value) (before after : list value)
         (attr name attr_value v : value) (b : bool),
    get_prop variant "attributes" = Ok attributes ->
    truthy attributes = true ->
    iterate attributes = Ok (before ++ attr :: after)%list ->
    forallb (attribute_not_named attrName) before = true ->
    get_prop attr "name" = Ok name ->
    name_differs name attrName = false ->
    get_prop attr "value" = Ok attr_value ->
    resolveValue attr_value path = Ok v ->
    exprFunc v = Ok b ->
    verdict (filterAttribute_loop staged exprFunc attrName path p mark i
               (variant :: rest)) = Ok b.
Proof.
  intros staged exprFunc attrName path p mark i variant rest attributes
         before after attr name av v b Ha Ht Hi Hb Hn Hd Hv Hr Hf.
  destruct (truthy_property_object variant "attributes" attributes
              eq_refl eq_refl Ha Ht) as [fields Hobj].
  simpl. rewrite Ha. simpl. rewrite Ht. simpl. rewrite Hi. simpl.
  rewrite (attribute_loop_skips staged exprFunc attrName path p mark i
             variant before (attr :: after) Hb).
  simpl. rewrite Hn. simpl. rewrite Hd, Hv. simpl. rewrite Hr. simpl.
  rewrite Hf. simpl.
  destruct b; [|reflexivity].
  rewrite Hobj. destruct mark; reflexivity.
Qed.

(** ** The source of a filter *)

Lemma split_app_sep :
  forall (sep : ascii) (part rest : string),
    string_forall (fun c => negb (Ascii.eqb c sep)) part = true ->
    split sep (part ++ String sep rest) = part :: split sep rest.
Proof.
  intros sep. induction part as [|c part IH]; intros rest H; simpl.
  - rewrite Ascii.eqb_refl. reflexivity.
  - unfold string_forall in H. simpl in H.
    apply andb_true_iff in H. destruct H as [Hc H].
    apply negb_true_iff in Hc. rewrite Hc.
    rewrite (IH rest H). reflexivity.
Qed.

Lemma split_no_sep :
  forall (sep : ascii) (part : string),
    string_forall (fun c => negb (Ascii.eqb c sep)) part = true ->
    split sep part = [part].
Proof.
  intros sep. induction part as [|c part IH]; intros H; simpl.
  - reflexivity.
  - unfold string_forall in H. simpl in H.
    apply andb_true_iff in H. destruct H as [Hc H].
    apply negb_true_iff in Hc. rewrite Hc.
    rewrite (IH H). reflexivity.
Qed.




(** ** Range filters *)






(** ** Comma lists *)

Lemma parse_comma_list :
  forall (ls : list literal),
    ls <> [] ->
    forallb well_formed ls = true ->
    forall (n : nat) (rbp : power),
      (List.length ls <= n)%nat ->
      power_lt rbp (Fin 200) = true ->
      parse n rbp (comma_list ls) = Ok (list_value ls, "").
Proof.
  induction ls as [|l ls IH]; intros Hne Hw n rbp Hn Hrbp; [contradiction|].
  simpl in Hw. apply andb_true_iff in Hw. destruct Hw as [Hl Hw].
  destruct n as [|n]; [simpl in Hn; lia|].
  destruct ls as [|l2 ls].
  - simpl. apply parse_literal_end. exact Hl.
  - assert (Hrest : parse n (Fin 199) (comma_list (l2 :: ls))
                    = Ok (list_value (l2 :: ls), "")).
    { apply IH; [discriminate|exact Hw|simpl in *; lia|reflexivity]. }
    change (comma_list (l :: l2 :: ls))
      with (literal_text l ++ "," ++ comma_list (l2 :: ls)).
    transitivity (led_loop (parse n) (S n) rbp (literal_value l)
                    ("," ++ comma_list (l2 :: ls))).
    { exact (parse_literal n rbp l ("," ++ comma_list (l2 :: ls)) Hl eq_refl). }
    assert (Hled : led (parse n) (Token COMMA "," None) (literal_value l)
                     (comma_list (l2 :: ls))
                   = Ok (list_value (l :: l2 :: ls), "")).
    { unfold led. cbn [ttype].
      change (power_pred (bp (Token COMMA "," None))) with (Fin 199).
      rewrite Hrest. cbn [bind].
      destruct ls as [|l3 ls].
      - destruct l2; reflexivity.
      - reflexivity. }
    rewrite (led_loop_step (parse n) n rbp (literal_value l) _
               ("," ++ comma_list (l2 :: ls)) (comma_list (l2 :: ls)) ""
               (Token COMMA "," None) (next_comma _) Hrbp Hled).
    destruct n as [|n]; [simpl in Hn; lia|].
    apply led_loop_end.
Qed.



(** ** The colon rule on paths and literals *)




(** ** Attribute filters with a list of literals *)







(** * Further properties of the compiler *)

(** ** Outcomes of a parse carried to [generateMatchFunc] *)

Lemma generateMatchFunc_of_throw :
  forall (filter : string) (n : nat) (e : js_error),
    parse n (Fin 0) filter = Throw e ->
    generateMatchFunc filter = Throw e.
Proof.
  intros filter n e H. unfold generateMatchFunc, getLexer.
  rewrite (parse_enough n (Fin 0) filter _ H) by discriminate.
  reflexivity.
Qed.

Lemma generateMatchFunc_of_value :
  forall (filter : string) (n : nat) (r : parsed) (lx : lexer),
    parse n (Fin 0) filter = Ok (r, lx) ->
    not_function r = true ->
    generateMatchFunc filter = Throw (syntax_error filter).
Proof.
  intros filter n r lx H Hr. unfold generateMatchFunc, getLexer.
  rewrite (parse_enough n (Fin 0) filter _ H) by discriminate.
  destruct r; try discriminate Hr; reflexivity.
Qed.

(** ** The keywords [exists] and [missing] *)

Lemma literal_ci_matched :
  forall (word s m rest : string),
    literal_ci word s = Some (m, rest) -> s = m ++ rest.
Proof.
  induction word as [|k word IH]; intros s m rest H; simpl in H.
  - inversion H. reflexivity.
  - destruct s as [|c s]; [discriminate|].
    destruct (Ascii.eqb (lower c) k); [|discriminate].
    destruct (literal_ci word s) as [[m' r']|] eqn:E; [|discriminate].
    inversion H; subst. simpl. f_equal. apply (IH _ _ _ E).
Qed.

Lemma spells_literal_ci :
  forall (word kw : string),
    spells word kw = true -> literal_ci word kw = Some (kw, "").
Proof.
  intros word kw H. unfold spells in H.
  destruct (literal_ci word kw) as [[m rest]|] eqn:E; [|discriminate].
  destruct rest; [|discriminate].
  pose proof (literal_ci_matched _ _ _ _ E) as Hm.
  rewrite append_empty in Hm. subst m. reflexivity.
Qed.

Lemma keyword_other_head :
  forall (k : ascii) (word : string) (c : ascii) (s : string),
    Ascii.eqb (lower c) k = false ->
    keyword (String k word) (String c s) = None.
Proof.
  intros k word c s H. unfold keyword. simpl. rewrite H. reflexivity.
Qed.

Lemma next_missing :
  forall kw : string,
    spells "missing" kw = true -> next kw = Ok (Token MISSING kw None, "").
Proof.
  intros kw H. pose proof (spells_literal_ci _ _ H) as E.
  rewrite next_equation.
  unfold token_rules. cbn [first_match rule_pattern].
  unfold keyword at 1. rewrite E.
  destruct kw; [discriminate E|reflexivity].
Qed.

Lemma next_exists :
  forall kw : string,
    spells "exists" kw = true -> next kw = Ok (Token EXISTS kw None, "").
Proof.
  intros kw H. pose proof (spells_literal_ci _ _ H) as E.
  rewrite next_equation.
  destruct kw as [|c kw]; [discriminate E|].
  assert (Hc : Ascii.eqb (lower c) "e" = true).
  { simpl in E. destruct (Ascii.eqb (lower c) "e"); [reflexivity|discriminate]. }
  assert (Hm : Ascii.eqb (lower c) "m" = false).
  { apply Ascii.eqb_eq in Hc. rewrite Hc. reflexivity. }
  unfold token_rules. cbn [first_match rule_pattern].
  rewrite (keyword_other_head "m" "issing" c kw Hm).
  unfold keyword at 1. rewrite E. reflexivity.
Qed.

(** X1. For every path that is an identifier, [path:exists] and
    [path:missing], with the keyword in any mix of cases, compile. The
    predicate of [exists] is true on every value other than undefined, so
    null and the empty string count as existing; the predicate of [missing]
    is true on undefined only. *)
Theorem exists_and_missing_rules :
  forall (path kw : string),
    identifier path = true ->
    (spells "exists" kw = true ->
     exists f : MatchFunc,
       generateMatchFunc (path ++ ":" ++ kw) = Ok f
       /\ (forall val : value, f val = Ok (negb (is_undefined val)))
       /\ f VNull = Ok true /\ f (VStr "") = Ok true /\ f VUndef = Ok false)
    /\ (spells "missing" kw = true ->
        exists f : MatchFunc,
          generateMatchFunc (path ++ ":" ++ kw) = Ok f
          /\ (forall val : value, f val = Ok (is_undefined val))
          /\ f VNull = Ok false /\ f (VStr "") = Ok false /\ f VUndef = Ok true).
Proof.
  intros path kw Hid. split; intros Hkw.
  - exists (match_call match_exists). split.
    + apply (generateMatchFunc_of_parse _ 2%nat _ "").
      assert (Hrhs : parse 1 (Fin 99) kw = Ok (PFun match_exists, "")).
      { rewrite parse_S, (next_exists kw Hkw). cbn [bind].
        unfold nud. cbn [ttype bind]. apply led_loop_end. }
      exact (parse_colon 0 path kw _ "" Hid Hrhs (or_introl eq_refl)).
    + split; [intros val; destruct val; reflexivity|repeat split].
  - exists (match_call match_missing). split.
    + apply (generateMatchFunc_of_parse _ 2%nat _ "").
      assert (Hrhs : parse 1 (Fin 99) kw = Ok (PFun match_missing, "")).
      { rewrite parse_S, (next_missing kw Hkw). cbn [bind].
        unfold nud. cbn [ttype bind]. apply led_loop_end. }
      exact (parse_colon 0 path kw _ "" Hid Hrhs (or_introl eq_refl)).
    + split; [intros val; destruct val; reflexivity|repeat split].
Qed.

(** The theorem at the path [variants.key] and the spellings [Exists] and
    [MISSING]. *)
Lemma exists_and_missing_rules_witness :
  (exists f : MatchFunc,
      generateMatchFunc ("variants.key" ++ ":" ++ "Exists") = Ok f
      /\ (forall val : value, f val = Ok (negb (is_undefined val)))
      /\ f VNull = Ok true /\ f (VStr "") = Ok true /\ f VUndef = Ok false)
  /\ (exists f : MatchFunc,
        generateMatchFunc ("variants.key" ++ ":" ++ "MISSING") = Ok f
        /\ (forall val : value, f val = Ok (is_undefined val))
        /\ f VNull = Ok false /\ f (VStr "") = Ok false /\ f VUndef = Ok true).
Proof.
  split.
  - apply (proj1 (exists_and_missing_rules "variants.key" "Exists" eq_refl)).
    reflexivity.
  - apply (proj2 (exists_and_missing_rules "variants.key" "MISSING" eq_refl)).
    reflexivity.
Defined.

(** ** Errors met below the colon *)

Lemma led_loop_throw :
  forall (f : parse_function) (n : nat) (rbp : power) (left : parsed)
         (lx lx1 : lexer) (t : token) (e : js_error),
    next lx = Ok (t, lx1) ->
    power_lt rbp (bp t) = true ->
    led f t left lx1 = Throw e ->
    led_loop f (S n) rbp left lx = Throw e.
Proof.
  intros f n rbp left lx lx1 t e Hn Hbp Hled.
  rewrite led_loop_S. unfold peek. rewrite Hn. cbn [bind].
  rewrite Hbp, Hled. reflexivity.
Qed.

(** A path, a colon, and a right-hand side whose parse at power 99 throws:
    the whole parse throws the same. *)
Lemma parse_colon_throw :
  forall (n : nat) (path rhs : string) (e : js_error),
    identifier path = true ->
    parse (S n) (Fin 99) rhs = Throw e ->
    parse (S (S n)) (Fin 0) (path ++ ":" ++ rhs) = Throw e.
Proof.
  intros n path rhs e Hid Hrhs.
  rewrite (parse_path (S n) (Fin 0) path (":" ++ rhs) Hid eq_refl).
  apply (led_loop_throw (parse (S n)) (S n) (Fin 0) (PStr path)
           (":" ++ rhs) rhs (Token COLON ":" None) e (next_colon rhs) eq_refl).
  unfold led. cbn [ttype].
  change (power_pred (bp (Token COLON ":" None))) with (Fin 99).
  rewrite Hrhs. reflexivity.
Qed.

(** ** What follows a closing parenthesis *)

(** X2. The compiler stops at the closing parenthesis of a range and never
    reads what follows it: whatever text comes after, even text that no
    token pattern matches, the filter compiles to the same range
    predicate. *)
Theorem text_after_closing_parenthesis_is_not_read :
  forall (path A B tail : string),
    identifier path = true ->
    well_formed (LInt A) = true ->
    well_formed (LInt B) = true ->
    generateMatchFunc (path ++ ":range(" ++ A ++ " to " ++ B ++ ")" ++ tail)
    = Ok (match_call
            (match_range (Some (PNum (decimal A))) (Some (PNum (decimal B)))))
    /\ generateMatchFunc (path ++ ":range(" ++ A ++ " to " ++ B ++ ")" ++ tail)
       = generateMatchFunc (path ++ ":range(" ++ A ++ " to " ++ B ++ ")").
Proof.
  intros path A B tail Hid HA HB.
  assert (H : forall t : string,
             generateMatchFunc (path ++ ":range(" ++ A ++ " to " ++ B ++ ")" ++ t)
             = Ok (match_call
                     (match_range (Some (PNum (decimal A)))
                        (Some (PNum (decimal B)))))).
  { intros t. apply (generateMatchFunc_of_parse _ 5%nat _ (")" ++ t)).
    exact (parse_colon 3 path ("range(" ++ A ++ " to " ++ B ++ ")" ++ t) _
             (")" ++ t) Hid (parse_range 1 A B t HA HB)
             (or_intror (ex_intro _ t eq_refl))). }
  split; [apply H|]. rewrite (H tail). symmetry. exact (H "").
Qed.

(** The theorem at [variants.price.centAmount:range(1 to 2)] followed by
    text the tokenizer would reject. *)
Lemma text_after_closing_parenthesis_is_not_read_witness :
  generateMatchFunc ("variants.price.centAmount" ++ ":range(" ++ "1" ++ " to "
                     ++ "2" ++ ")" ++ " # and more (")
  = Ok (match_call
          (match_range (Some (PNum (decimal "1"))) (Some (PNum (decimal "2")))))
  /\ generateMatchFunc ("variants.price.centAmount" ++ ":range(" ++ "1" ++ " to "
                        ++ "2" ++ ")" ++ " # and more (")
     = generateMatchFunc ("variants.price.centAmount" ++ ":range(" ++ "1" ++ " to "
                          ++ "2" ++ ")").
Proof.
  apply (text_after_closing_parenthesis_is_not_read
           "variants.price.centAmount" "1" "2" " # and more ("); reflexivity.
Defined.

(** ** A range with one bound *)

Lemma parse_range_single :
  forall (n : nat) (A tail : string),
    well_formed (LInt A) = true ->
    parse (S (S n)) (Fin 99) ("range(" ++ A ++ ")" ++ tail) = Throw TypeError.
Proof.
  intros n A tail HA.
  assert (Hone : parse (S n) (Fin 0) (A ++ ")" ++ tail)
                 = Ok (PNum (decimal A), ")" ++ tail)).
  { transitivity (led_loop (parse n) (S n) (Fin 0) (PNum (decimal A))
                    (")" ++ tail)).
    - exact (parse_literal n (Fin 0) (LInt A) (")" ++ tail) HA eq_refl).
    - apply led_loop_rparen. lia. }
  rewrite parse_S.
  change (next ("range(" ++ A ++ ")" ++ tail))
    with (@Ok (token * lexer) (Token RANGE "range" None, "(" ++ A ++ ")" ++ tail)).
  cbn [bind]. unfold nud. cbn [ttype].
  change (next ("(" ++ A ++ ")" ++ tail))
    with (@Ok (token * lexer) (Token LPAREN "(" None, A ++ ")" ++ tail)).
  cbn [bind]. rewrite Hone. reflexivity.
Qed.

(** X3. A range written with a single integer, [path:range(A)], does not
    compile: the rule destructures the number it parsed as a pair, which
    throws a TypeError instead of the syntax error. *)
Theorem range_with_one_bound_throws :
  forall (path A : string),
    identifier path = true ->
    well_formed (LInt A) = true ->
    generateMatchFunc (path ++ ":range(" ++ A ++ ")") = Throw TypeError.
Proof.
  intros path A Hid HA.
  apply (generateMatchFunc_of_throw _ 4%nat).
  exact (parse_colon_throw 2 path ("range(" ++ A ++ ")") TypeError Hid
           (parse_range_single 1 A "" HA)).
Qed.

(** The theorem at [variants.price.centAmount:range(100)]. *)
Lemma range_with_one_bound_throws_witness :
  generateMatchFunc ("variants.price.centAmount" ++ ":range(" ++ "100" ++ ")")
  = Throw TypeError.
Proof.
  apply (range_with_one_bound_throws "variants.price.centAmount" "100");
    reflexivity.
Defined.

(** ** Filters without a colon *)

Lemma list_value_not_function :
  forall ls : list literal, not_function (list_value ls) = true.
Proof.
  intros [|l [|l2 ls]]; try reflexivity. destruct l; reflexivity.
Qed.

(** X4. A filter that is only a path, or only a list of literals, has no
    colon to make a predicate of it: compiling it raises the syntax error,
    whose message quotes the whole filter. *)
Theorem filter_without_colon_is_a_syntax_error :
  (forall path : string,
      identifier path = true ->
      generateMatchFunc path
      = Throw (Error ("Syntax error while parsing '" ++ path ++ "'.")))
  /\ (forall ls : list literal,
        ls <> [] ->
        forallb well_formed ls = true ->
        generateMatchFunc (comma_list ls)
        = Throw (Error ("Syntax error while parsing '" ++ comma_list ls ++ "'."))).
Proof.
  split.
  - intros path Hid.
    apply (generateMatchFunc_of_value path 1%nat (PStr path) ""); [|reflexivity].
    pose proof (parse_path 0 (Fin 0) path "" Hid eq_refl) as H.
    rewrite append_empty in H. rewrite H. apply led_loop_end.
  - intros ls Hne Hw.
    apply (generateMatchFunc_of_value _ (List.length ls) (list_value ls) "").
    + apply parse_comma_list; try assumption; [lia|reflexivity].
    + apply list_value_not_function.
Qed.

(** The theorem at the path [variants.sku] and at the list of the literals
    red and blue. *)
Lemma filter_without_colon_is_a_syntax_error_witness :
  generateMatchFunc "variants.sku"
  = Throw (Error ("Syntax error while parsing '" ++ "variants.sku" ++ "'."))
  /\ generateMatchFunc (comma_list red_or_blue)
     = Throw (Error ("Syntax error while parsing '" ++ comma_list red_or_blue
                     ++ "'.")).
Proof.
  split.
  - apply (proj1 filter_without_colon_is_a_syntax_error "variants.sku").
    reflexivity.
  - apply (proj2 filter_without_colon_is_a_syntax_error red_or_blue).
    + discriminate.
    + reflexivity.
Defined.

(** ** Whitespace *)

Lemma first_match_space :
  forall (c : ascii) (s : string),
    is_space c = true ->
    first_match token_rules (String c s)
    = Some (TokenRule WS (one_or_more is_space) true,
            (String c (fst (span is_space s)), None, snd (span is_space s))).
Proof.
  intros c s Hc.
  assert (Hws : one_or_more is_space (String c s)
                = Some (String c (fst (span is_space s)), None,
                        snd (span is_space s))).
  { unfold one_or_more. simpl. rewrite Hc.
    destruct (span is_space s) as [a b]. reflexivity. }
  unfold token_rules. cbn [first_match rule_pattern]. rewrite Hws. clear Hws.
  ascii_cases c; try discriminate Hc; reflexivity.
Qed.

Lemma next_skips_one :
  forall (c : ascii) (s : string),
    is_space c = true -> next (String c s) = next s.
Proof.
  intros c s Hc. rewrite next_equation, (first_match_space c s Hc).
  cbn [rule_skip].
  destruct s as [|d s]; [reflexivity|].
  destruct (is_space d) eqn:Hd.
  - rewrite (next_equation (String d s)), (first_match_space d s Hd).
    cbn [rule_skip]. simpl. rewrite Hd.
    destruct (span is_space s) as [a b]. reflexivity.
  - simpl. rewrite Hd. reflexivity.
Qed.

Lemma next_skips_whitespace :
  forall (ws s : string),
    string_forall is_space ws = true -> next (ws ++ s) = next s.
Proof.
  induction ws as [|c ws IH]; intros s H; [reflexivity|].
  unfold string_forall in H. simpl in H.
  apply andb_true_iff in H. destruct H as [Hc H].
  simpl. rewrite (next_skips_one c (ws ++ s) Hc). apply IH. exact H.
Qed.

Lemma parse_skips_whitespace :
  forall (ws s : string) (n : nat) (rbp : power),
    string_forall is_space ws = true ->
    parse n rbp (ws ++ s) = parse n rbp s.
Proof.
  intros ws s [|n] rbp H; [reflexivity|].
  rewrite !parse_S, (next_skips_whitespace ws s H). reflexivity.
Qed.

(** X5. Whitespace in front of a token is skipped. When the tokenizer
    gives a token for [s], it gives the token of that type and text, and
    the same remaining input, for a run of whitespace followed by [s]; a
    parse of [s] that succeeds succeeds with the same result after the
    whitespace, and a filter that compiles compiles to the same predicate
    with whitespace in front of it. Whitespace alone reads as the end of
    the input. *)
Theorem whitespace_is_skipped :
  forall (ws s : string),
    string_forall is_space ws = true ->
    (forall (t : token) (rest : lexer),
        next s = Ok (t, rest) -> next (ws ++ s) = Ok (t, rest))
    /\ (forall (n : nat) (rbp : power) (r : parsed * lexer),
          parse n rbp s = Ok r -> parse n rbp (ws ++ s) = Ok r)
    /\ (forall f : MatchFunc,
          generateMatchFunc s = Ok f -> generateMatchFunc (ws ++ s) = Ok f)
    /\ next ws = Ok (eof_token, "").
Proof.
  intros ws s H. split; [|split; [|split]].
  - intros t rest Hs. rewrite (next_skips_whitespace ws s H). exact Hs.
  - intros n rbp r Hs. rewrite (parse_skips_whitespace ws s n rbp H). exact Hs.
  - intros f Hf. unfold generateMatchFunc, getLexer in Hf.
    destruct (parse (S (String.length s)) (Fin 0) s) as [[r lx]|e| |] eqn:E;
      simpl in Hf; try discriminate.
    destruct r; try discriminate. inversion Hf; subst.
    apply (generateMatchFunc_of_parse _ (S (String.length s)) _ lx).
    rewrite (parse_skips_whitespace ws s _ _ H). exact E.
  - rewrite <- (append_empty ws). rewrite (next_skips_whitespace ws "" H).
    reflexivity.
Qed.

(** The theorem at a space, a tab and a line feed before
    [variants.sku:exists]. *)
Lemma whitespace_is_skipped_witness :
  next (String " " (String "009" (String "010" "")) ++ "variants.sku:exists")
  = Ok (Token IDENTIFIER "variants.sku" None, ":exists")
  /\ generateMatchFunc
       (String " " (String "009" (String "010" "")) ++ "variants.sku:exists")
     = Ok (match_call match_exists)
  /\ next (String " " (String "009" (String "010" ""))) = Ok (eof_token, "").
Proof.
  destruct (whitespace_is_skipped (String " " (String "009" (String "010" "")))
              "variants.sku:exists" eq_refl) as [H1 [_ [H3 H4]]].
  split; [|split].
  - apply H1. reflexivity.
  - apply H3. reflexivity.
  - exact H4.
Defined.

(** ** Filters without an expression *)

Lemma parse_end_of_input :
  forall (n : nat) (rbp : power) (ws : string),
    string_forall is_space ws = true ->
    parse (S n) rbp ws = Throw (UnexpectedToken eof_token).
Proof.
  intros n rbp ws H. rewrite parse_S.
  rewrite <- (append_empty ws), (next_skips_whitespace ws "" H).
  reflexivity.
Qed.

(** X6. A filter with nothing to parse where an expression must start is
    rejected with the unexpected end of the input, not with the syntax
    error: so it is for a filter that is empty or all whitespace, and for a
    path followed by a colon and at most whitespace. *)
Theorem missing_expression_is_unexpected_end :
  forall ws : string,
    string_forall is_space ws = true ->
    generateMatchFunc ws = Throw (UnexpectedToken eof_token)
    /\ (forall path : string,
          identifier path = true ->
          generateMatchFunc (path ++ ":" ++ ws) = Throw (UnexpectedToken eof_token)).
Proof.
  intros ws H. split.
  - apply (generateMatchFunc_of_throw ws 1%nat).
    apply parse_end_of_input. exact H.
  - intros path Hid.
    apply (generateMatchFunc_of_throw _ 2%nat).
    apply (parse_colon_throw 0 path ws _ Hid).
    apply parse_end_of_input. exact H.
Qed.

(** The theorem at the empty filter and at [variants.sku:]. *)
Lemma missing_expression_is_unexpected_end_witness :
  generateMatchFunc "" = Throw (UnexpectedToken eof_token)
  /\ generateMatchFunc ("variants.sku" ++ ":" ++ "")
     = Throw (UnexpectedToken eof_token).
Proof.
  destruct (missing_expression_is_unexpected_end "" eq_refl) as [H1 H2].
  split; [exact H1|]. apply (H2 "variants.sku"). reflexivity.
Defined.

(** ** Quotes that are not closed *)

Lemma next_open_double_quote :
  forall rest : string,
    quoted_body dquote rest = None ->
    next (String dquote rest) = Ok (Token DQUOTE (String dquote "") None, rest).
Proof.
  intros rest H. rewrite next_equation.
  unfold token_rules. cbn [first_match rule_pattern].
  (replace (keyword "missing" _) with (@None match_result) by reflexivity).
  (replace (keyword "exists" _) with (@None match_result) by reflexivity).
  (replace (keyword "range" _) with (@None match_result) by reflexivity).
  (replace (keyword "to" _) with (@None match_result) by reflexivity).
  (replace (one_or_more ident_char _) with (@None match_result) by reflexivity).
  (replace (float_pattern _) with (@None match_result) by reflexivity).
  (replace (one_or_more is_digit _) with (@None match_result) by reflexivity).
  (replace (quoted dquote (String dquote rest)) with (@None match_result)
    by (unfold quoted; rewrite Ascii.eqb_refl, H; reflexivity)).
  reflexivity.
Qed.

Lemma next_open_single_quote :
  forall rest : string,
    quoted_body "'" rest = None ->
    next (String "'" rest) = Throw (UnexpectedInput (String "'" rest)).
Proof.
  intros rest H. rewrite next_equation.
  unfold token_rules. cbn [first_match rule_pattern].
  (replace (keyword "missing" _) with (@None match_result) by reflexivity).
  (replace (keyword "exists" _) with (@None match_result) by reflexivity).
  (replace (keyword "range" _) with (@None match_result) by reflexivity).
  (replace (keyword "to" _) with (@None match_result) by reflexivity).
  (replace (one_or_more ident_char _) with (@None match_result) by reflexivity).
  (replace (float_pattern _) with (@None match_result) by reflexivity).
  (replace (one_or_more is_digit _) with (@None match_result) by reflexivity).
  (replace (quoted dquote _) with (@None match_result) by reflexivity).
  (replace (quoted "'" (String "'" rest)) with (@None match_result)
    by (unfold quoted; rewrite Ascii.eqb_refl, H; reflexivity)).
  reflexivity.
Qed.

(** X7. A string literal whose quote is never closed is not an error of one
    kind: an open double quote is read as the one-character token of the
    quote, which no rule accepts, so the compiler reports an unexpected
    token; an open single quote matches no pattern at all, so the tokenizer
    reports unexpected input. *)
Theorem open_quote_errors :
  forall (path rest : string),
    identifier path = true ->
    (quoted_body dquote rest = None ->
     generateMatchFunc (path ++ ":" ++ String dquote rest)
     = Throw (UnexpectedToken (Token DQUOTE (String dquote "") None)))
    /\ (quoted_body "'" rest = None ->
        generateMatchFunc (path ++ ":" ++ String "'" rest)
        = Throw (UnexpectedInput (String "'" rest))).
Proof.
  intros path rest Hid. split; intros H.
  - apply (generateMatchFunc_of_throw _ 2%nat).
    apply (parse_colon_throw 0 path _ _ Hid).
    rewrite parse_S, (next_open_double_quote rest H). reflexivity.
  - apply (generateMatchFunc_of_throw _ 2%nat).
    apply (parse_colon_throw 0 path _ _ Hid).
    rewrite parse_S, (next_open_single_quote rest H). reflexivity.
Qed.

(** The theorem at the path [variants.sku] and the open literal [ABC123]. *)
Lemma open_quote_errors_witness :
  generateMatchFunc ("variants.sku" ++ ":" ++ String dquote "ABC123")
  = Throw (UnexpectedToken (Token DQUOTE (String dquote "") None))
  /\ generateMatchFunc ("variants.sku" ++ ":" ++ String "'" "ABC123")
     = Throw (UnexpectedInput (String "'" "ABC123")).
Proof.
  destruct (open_quote_errors "variants.sku" "ABC123" eq_refl) as [H1 H2].
  split; [apply H1|apply H2]; reflexivity.
Defined.

(** ** Termination *)

(** X8. Compilation terminates on every filter: a parse that succeeds has
    consumed at least one character of its input, so the recursion of the
    parser is bounded by the length of the filter and the bound that
    [generateMatchFunc] gives it is never exhausted; a parse within any
    larger bound gives the same result. *)
Theorem compilation_terminates :
  forall (filter : string) (staged : bool),
    generateMatchFunc filter <> OutOfFuel
    /\ parseFilterExpression filter staged <> OutOfFuel
    /\ (forall (n : nat) (rbp : power) (v : parsed) (lx : lexer),
          parse n rbp filter = Ok (v, lx) ->
          (String.length lx < String.length filter)%nat)
    /\ (forall (n : nat) (rbp : power),
          (String.length filter < n)%nat ->
          parse n rbp filter = parse (S (String.length filter)) rbp filter).
Proof.
  intros filter staged.
  pose proof (generateMatchFunc_terminates filter) as Hg.
  split; [exact Hg|]. split; [|split].
  - unfold parseFilterExpression.
    destruct (generateMatchFunc filter) as [f|e| |]; cbn [bind];
      try discriminate; [|contradiction].
    destruct (startsWith (filter_source filter) "variants.attributes");
      [discriminate|].
    destruct (startsWith (filter_source filter) "variants.price");
      [discriminate|].
    destruct (startsWith (filter_source filter) "variants.scopedPrice");
      [discriminate|].
    destruct (startsWith (filter_source filter) "variants.sku"
              || startsWith (filter_source filter) "variants.key");
      discriminate.
  - intros n rbp v lx H.
    assert (He : parse (S (String.length filter)) rbp filter = Ok (v, lx)).
    { apply (parse_enough n); [exact H|discriminate]. }
    destruct (parse_bounded (S (String.length filter)) rbp filter
                ltac:(lia)) as [_ Hs].
    apply (Hs v lx He).
  - intros n rbp Hn.
    destruct (parse_bounded (S (String.length filter)) rbp filter
                ltac:(lia)) as [Hf _].
    apply parse_mono; [lia|exact Hf].
Qed.

(** The theorem at [variants.sku:exists] and a bound of forty. *)
Lemma compilation_terminates_witness :
  parse 40 (Fin 0) "variants.sku:exists"
  = parse (S (String.length "variants.sku:exists")) (Fin 0) "variants.sku:exists".
Proof.
  apply (proj2 (proj2 (proj2 (compilation_terminates "variants.sku:exists" false)))
           40%nat (Fin 0)).
  simpl. lia.
Defined.

(** * Further properties of the filter families *)

(** ** A projection without a master variant *)

Lemma split_cons :
  forall (sep : ascii) (s : string),
    exists (first : string) (others : list string), split sep s = first :: others.
Proof.
  intros sep. induction s as [|c s [first [others IH]]]; simpl.
  - eexists. eexists. reflexivity.
  - destruct (Ascii.eqb c sep); [eexists; eexists; reflexivity|].
    rewrite IH. eexists. eexists. reflexivity.
Qed.

Lemma resolveValue_absent :
  forall (val : value) (path : string),
    absent val = true -> resolveValue val (Some path) = Throw TypeError.
Proof.
  intros val path H. unfold resolveValue.
  destruct (split_cons "." path) as [first [others E]]. rewrite E.
  destruct val; try discriminate H; reflexivity.
Qed.

Lemma variant_source_path :
  forall source : string,
    startsWith source "variants.sku" || startsWith source "variants.key" = true ->
    exists path : string, nth_error (split_limit "." source 2) 1 = Some path.
Proof.
  intros source H. unfold split_limit.
  assert (Hv : exists r, source = "variants" ++ String "." r).
  { apply orb_true_iff in H. destruct H as [H|H];
      destruct (prefix_app _ _ H) as [r ->]; eexists; reflexivity. }
  destruct Hv as [r ->].
  rewrite (split_app_sep "." "variants" r eq_refl).
  destruct (split_cons "." r) as [first [others E]]. rewrite E.
  exists first. reflexivity.
Qed.

(** X9. When the selected projection is there but has no master variant,
    the first candidate is undefined and every family predicate throws a
    TypeError on reading it; the variants that follow are not tried. (A
    scoped-price predicate with an unsupported source raises its own error
    first.) *)
Theorem missing_master_variant_throws :
  forall (filter : string) (staged : bool) (pf : ProductFilter)
         (p master : value) (rest : list value) (mark : bool),
    parseFilterExpression filter staged = Ok pf ->
    family (filter_source filter) = true ->
    (startsWith (filter_source filter) "variants.scopedPrice" = true ->
     filter_source filter = scoped_source) ->
    getVariants p staged = Ok (master :: rest) ->
    absent master = true ->
    pf p mark = Throw TypeError.
Proof.
  intros filter staged pf p master rest mark Hpf Hfam Hsc Hgv Habs.
  assert (Hget : forall k, get_prop master k = Throw TypeError).
  { intros k. destruct master; try discriminate Habs; reflexivity. }
  unfold parseFilterExpression in Hpf.
  apply bind_Ok_inv in Hpf. destruct Hpf as [exprFunc [_ Hpf]].
  unfold family in Hfam.
  destruct (startsWith (filter_source filter) "variants.attributes").
  { inversion Hpf; subst pf. unfold filterAttribute. rewrite Hgv. cbn [bind].
    simpl. rewrite Hget. reflexivity. }
  destruct (startsWith (filter_source filter) "variants.price").
  { inversion Hpf; subst pf. unfold filterPrice. rewrite Hgv. cbn [bind].
    simpl. rewrite Hget. reflexivity. }
  destruct (startsWith (filter_source filter) "variants.scopedPrice").
  { inversion Hpf; subst pf. unfold filterScopedPrice.
    rewrite (Hsc eq_refl). unfold scoped_source. cbn [String.eqb negb].
    simpl. rewrite Hgv. cbn [bind]. unfold filterScopedPrice_loop, scoped_centAmount.
    rewrite Hget. reflexivity. }
  simpl in Hfam.
  destruct (variant_source_path _ Hfam) as [path Hpath].
  rewrite Hfam in Hpf.
  inversion Hpf; subst pf. unfold filterVariant. rewrite Hgv. cbn [bind].
  rewrite Hpath. unfold filterVariant_loop.
  rewrite (resolveValue_absent master path Habs). reflexivity.
Qed.

(** The theorem at [variants.sku:exists] and a product whose current
    projection has variants but no master variant. *)
Lemma missing_master_variant_throws_witness :
  filterVariant false (match_call match_exists) "variants.sku"
    (VObj [("masterData", VObj [("current", VObj [("variants", VArr [variant_red])])])])
    false
  = Throw TypeError.
Proof.
  apply (missing_master_variant_throws "variants.sku:exists" false
           (filterVariant false (match_call match_exists) "variants.sku")
           (VObj [("masterData",
                   VObj [("current", VObj [("variants", VArr [variant_red])])])])
           VUndef [variant_red] false).
  - reflexivity.
  - reflexivity.
  - intros H. vm_compute in H. discriminate.
  - reflexivity.
  - reflexivity.
Defined.

(** ** The price family *)

(** X10. The price family passes over a variant whose prices are missing,
    but not over one whose price list is empty: an empty list is truthy, its
    first entry is undefined, and reading the value of that entry throws a
    TypeError, whatever variants follow. *)
Theorem empty_price_list_throws :
  forall (staged : bool) (exprFunc : MatchFunc) (source : string)
         (p : value) (mark : bool) (skipped : list value) (variant : value)
         (rest : list value),
    getVariants p staged = Ok (skipped ++ variant :: rest)%list ->
    forallb lacks_prices skipped = true ->
    get_prop variant "prices" = Ok (VArr []) ->
    filterPrice staged exprFunc source p mark = Throw TypeError.
Proof.
  intros staged exprFunc source p mark skipped variant rest Hgv Hskip Hp.
  unfold filterPrice. rewrite Hgv. cbn [bind].
  rewrite (filterPrice_loop_skips _ _ _ _ skipped 0 (variant :: rest) Hskip).
  simpl. rewrite Hp. reflexivity.
Qed.

(** The theorem at a product whose master variant has no prices and whose
    next variant has an empty price list. *)
Lemma empty_price_list_throws_witness :
  filterPrice false (match_equals (PNum 100)) "variants.price.centAmount"
    (product_of variant_plain [VObj [("prices", VArr [])]; variant_red]) false
  = Throw TypeError.
Proof.
  apply (empty_price_list_throws false (match_equals (PNum 100))
           "variants.price.centAmount"
           (product_of variant_plain [VObj [("prices", VArr [])]; variant_red])
           false [variant_plain] (VObj [("prices", VArr [])]) [variant_red]);
    reflexivity.
Defined.

Lemma price_prefix_dispatch :
  forall source : string,
    startsWith source "variants.price" = true ->
    startsWith source "variants.attributes" = false.
Proof.
  intros source H. unfold startsWith in *.
  destruct (prefix_app _ _ H) as [r ->]. reflexivity.
Qed.

(** X11. What follows [variants.price] in the source is not read: every
    filter whose source starts with [variants.price] compiles to the price
    predicate, and that predicate tests the centAmount of the value of the
    first price of the deciding variant. *)
Theorem price_source_suffix_is_ignored :
  forall (filter : string) (staged : bool) (exprFunc : MatchFunc),
    startsWith (filter_source filter) "variants.price" = true ->
    generateMatchFunc filter = Ok exprFunc ->
    exists pf : ProductFilter,
      parseFilterExpression filter staged = Ok pf
      /\ (forall (p : value) (mark : bool),
            pf p mark = filterPrice staged exprFunc "variants.price.centAmount" p mark)
      /\ (forall (p : value) (mark : bool) (skipped : list value)
                 (variant : value) (rest : list value)
                 (prices price price_value centAmount : value) (b : bool),
            getVariants p staged = Ok (skipped ++ variant :: rest)%list ->
            forallb lacks_prices skipped = true ->
            get_prop variant "prices" = Ok prices ->
            truthy prices = true ->
            get_prop prices "0" = Ok price ->
            get_prop price "value" = Ok price_value ->
            get_prop price_value "centAmount" = Ok centAmount ->
            exprFunc centAmount = Ok b ->
            verdict (pf p mark) = Ok b).
Proof.
  intros filter staged exprFunc Hpre Hgen.
  exists (filterPrice staged exprFunc (filter_source filter)).
  split; [|split].
  - unfold parseFilterExpression. rewrite Hgen. cbn [bind].
    rewrite (price_prefix_dispatch _ Hpre), Hpre. reflexivity.
  - reflexivity.
  - intros p mark skipped variant rest prices price pv c b
           Hgv Hskip Hp Ht H0 Hv Hc Hf.
    unfold filterPrice. rewrite Hgv. cbn [bind].
    rewrite (filterPrice_loop_skips _ _ _ _ skipped 0 (variant :: rest) Hskip).
    apply (filterPrice_loop_decides _ _ _ _ _ _ _ prices price pv c);
      assumption.
Qed.

(** The theorem at the filter [variants.price.currencyCode:100]: the
    currency code is not looked at, the amount 100 matches. *)
Lemma price_source_suffix_is_ignored_witness :
  exists pf : ProductFilter,
    parseFilterExpression "variants.price.currencyCode:100" false = Ok pf
    /\ verdict (pf (product_priced 100) true) = Ok true.
Proof.
  destruct (price_source_suffix_is_ignored "variants.price.currencyCode:100"
              false (match_equals (PNum 100)) eq_refl eq_refl)
    as [pf [Hpf [_ Hv]]].
  exists pf. split; [exact Hpf|].
  apply (Hv (product_priced 100) true []
            (VObj [("id", VNum 1);
                   ("prices",
                    VArr [VObj [("value", VObj [("centAmount", VNum 100)])]])])
            []
            (VArr [VObj [("value", VObj [("centAmount", VNum 100)])]])
            (VObj [("value", VObj [("centAmount", VNum 100)])])
            (VObj [("centAmount", VNum 100)]) (VNum 100) true); reflexivity.
Defined.

(** ** The sku and key family *)

Lemma resolveValue_segment :
  forall (val : value) (field : string),
    segment field = true ->
    resolveValue val (Some field) = get_prop val field.
Proof.
  intros val field H. unfold resolveValue.
  rewrite (split_no_sep "." field H). simpl.
  destruct (get_prop val field); reflexivity.
Qed.

Lemma variant_source_field :
  forall (field more : string),
    segment field = true ->
    nth_error (split_limit "." ("variants." ++ field) 2) 1 = Some field
    /\ nth_error (split_limit "." ("variants." ++ field ++ "." ++ more) 2) 1
       = Some field.
Proof.
  intros field more H. unfold split_limit. split.
  - change ("variants." ++ field) with ("variants" ++ String "." field).
    rewrite (split_app_sep "." "variants" _ eq_refl).
    rewrite (split_no_sep "." field H). reflexivity.
  - change ("variants." ++ field ++ "." ++ more)
      with ("variants" ++ String "." (field ++ String "." more)).
    rewrite (split_app_sep "." "variants" _ eq_refl).
    rewrite (split_app_sep "." field more H).
    reflexivity.
Qed.

(** X12. The sku/key predicate reads one property of the first candidate:
    the segment that follows [variants.] in the source. Segments after it
    are dropped, so [variants.sku.length] tests the sku itself, and a
    property the variant does not have is tested as undefined. *)
Theorem variant_field_is_second_segment :
  forall (staged : bool) (exprFunc : MatchFunc) (field more : string)
         (p : value) (mark : bool) (fields : list (string * value))
         (rest : list value) (val : value) (b : bool),
    segment field = true ->
    getVariants p staged = Ok (VObj fields :: rest) ->
    get_prop (VObj fields) field = Ok val ->
    exprFunc val = Ok b ->
    verdict (filterVariant staged exprFunc ("variants." ++ field) p mark) = Ok b
    /\ verdict (filterVariant staged exprFunc
                  ("variants." ++ field ++ "." ++ more) p mark) = Ok b.
Proof.
  intros staged exprFunc field more p mark fields rest val b
         Hseg Hgv Hval Hf.
  destruct (variant_source_field field more Hseg) as [H1 H2].
  split; unfold filterVariant; rewrite Hgv; cbn [bind];
    [rewrite H1|rewrite H2];
    unfold filterVariant_loop;
    rewrite (resolveValue_segment _ field Hseg), Hval; cbn [bind];
    rewrite Hf; cbn [bind];
    (destruct b; [apply verdict_matched|reflexivity]).
Qed.

(** The theorem at the field [sku] of the red variant, with and without the
    further segment [length]. *)
Lemma variant_field_is_second_segment_witness :
  verdict (filterVariant false (match_equals (PStr "ABC123"))
             ("variants." ++ "sku")
             (product_of variant_red [variant_plain]) true) = Ok true
  /\ verdict (filterVariant false (match_equals (PStr "ABC123"))
                ("variants." ++ "sku" ++ "." ++ "length")
                (product_of variant_red [variant_plain]) true) = Ok true.
Proof.
  apply (variant_field_is_second_segment false (match_equals (PStr "ABC123"))
           "sku" "length" (product_of variant_red [variant_plain]) true
           [("id", VNum 2); ("sku", VStr "ABC123");
            ("attributes",
             VArr [VObj [("name", VStr "color"); ("value", VStr "red")]]);
            ("prices", VArr [VObj [("value", VObj [("centAmount", VNum 100)])]])]
           [variant_plain] (VStr "ABC123") true); reflexivity.
Defined.

(** ** The attribute family with a sub-path *)

Lemma attribute_source_subpath :
  forall (name sub more : string),
    segment name = true ->
    segment sub = true ->
    split_limit "." ("variants.attributes." ++ name ++ "." ++ sub) 4
    = ["variants"; "attributes"; name; sub]
    /\ split_limit "." ("variants.attributes." ++ name ++ "." ++ sub ++ "." ++ more) 4
       = ["variants"; "attributes"; name; sub].
Proof.
  intros name sub more Hn Hs. unfold split_limit. split.
  - change ("variants.attributes." ++ name ++ "." ++ sub)
      with ("variants" ++ String "." ("attributes" ++ String "."
              (name ++ String "." sub))).
    rewrite (split_app_sep "." "variants" _ eq_refl).
    rewrite (split_app_sep "." "attributes" _ eq_refl).
    rewrite (split_app_sep "." name sub Hn).
    rewrite (split_no_sep "." sub Hs). reflexivity.
  - change ("variants.attributes." ++ name ++ "." ++ sub ++ "." ++ more)
      with ("variants" ++ String "." ("attributes" ++ String "."
              (name ++ String "." (sub ++ String "." more)))).
    rewrite (split_app_sep "." "variants" _ eq_refl).
    rewrite (split_app_sep "." "attributes" _ eq_refl).
    rewrite (split_app_sep "." name _ Hn).
    rewrite (split_app_sep "." sub more Hs).
    reflexivity.
Qed.

(** X13. With a source [variants.attributes.<name>.<sub>], when the value of
    the first attribute named [<name>] in the deciding variant is an object
    that has a property [<sub>] of its own, the attribute predicate tests
    that property; segments after [<sub>] are dropped. If the value of the
    attribute is undefined or null the call throws a TypeError instead of
    returning false. *)
Theorem attribute_subpath_reads_one_property :
  forall (staged : bool) (exprFunc : MatchFunc) (name sub more : string)
         (p : value) (mark : bool) (skipped : list value) (variant : value)
         (rest : list value) (attributes : value) (before : list value)
         (attr : value) (after : list value) (attr_value : value),
    segment name = true ->
    segment sub = true ->
    getVariants p staged = Ok (skipped ++ variant :: rest)%list ->
    forallb (lacks_attribute (Some name)) skipped = true ->
    get_prop variant "attributes" = Ok attributes ->
    truthy attributes = true ->
    iterate attributes = Ok (before ++ attr :: after)%list ->
    forallb (attribute_not_named (Some name)) before = true ->
    get_prop attr "name" = Ok (VStr name) ->
    get_prop attr "value" = Ok attr_value ->
    (forall (own : list (string * value)) (val : value) (b : bool),
        attr_value = VObj own ->
        lookup sub own = Some val ->
        exprFunc val = Ok b ->
        verdict (filterAttribute staged exprFunc
                   ("variants.attributes." ++ name ++ "." ++ sub) p mark) = Ok b
        /\ verdict (filterAttribute staged exprFunc
                      ("variants.attributes." ++ name ++ "." ++ sub ++ "." ++ more)
                      p mark) = Ok b)
    /\ (absent attr_value = true ->
        filterAttribute staged exprFunc
          ("variants.attributes." ++ name ++ "." ++ sub) p mark
        = Throw TypeError).
Proof.
  intros staged exprFunc name sub more p mark skipped variant rest attributes
         before attr after av Hn Hs Hgv Hskip Ha Ht Hi Hb Hname Hval.
  destruct (attribute_source_subpath name sub more Hn Hs) as [H1 H2].
  assert (Hdiff : name_differs (VStr name) (Some name) = false).
  { simpl. rewrite String.eqb_refl. reflexivity. }
  split.
  - intros own val b Hown Hlook Hf.
    assert (Hsub : get_prop av sub = Ok val).
    { rewrite Hown. cbn [get_prop]. rewrite Hlook. reflexivity. }
    split; unfold filterAttribute; rewrite Hgv; cbn [bind];
      [rewrite H1|rewrite H2]; cbn [nth_error];
      rewrite (filterAttribute_loop_skips _ _ _ _ _ _ skipped 0
                 (variant :: rest) Hskip);
      apply (filterAttribute_loop_decides _ _ _ _ _ _ _ _ _ attributes
               before after attr (VStr name) av val); try assumption;
      rewrite (resolveValue_segment _ sub Hs); exact Hsub.
  - intros Habs.
    unfold filterAttribute. rewrite Hgv. cbn [bind].
    rewrite H1. cbn [nth_error].
    rewrite (filterAttribute_loop_skips _ _ _ _ _ _ skipped 0
               (variant :: rest) Hskip).
    cbn [filterAttribute_loop]. rewrite Ha. cbn [bind]. rewrite Ht. cbn [negb].
    rewrite Hi. cbn [bind].
    rewrite (attribute_loop_skips staged exprFunc (Some name) (Some sub) p mark
               (List.length skipped + 0) variant before (attr :: after) Hb).
    cbn [attribute_loop]. rewrite Hname. cbn [bind]. rewrite Hdiff, Hval.
    cbn [bind]. rewrite (resolveValue_absent av sub Habs). reflexivity.
Qed.

(** The theorem at an attribute [size] whose value is an object with a key
    and a label, read through the sub-path [key]. *)
Lemma attribute_subpath_reads_one_property_witness :
  verdict (filterAttribute false (match_equals (PStr "XL"))
             ("variants.attributes." ++ "size" ++ "." ++ "key")
             (product_of
                (VObj [("attributes",
                        VArr [VObj [("name", VStr "size");
                                    ("value", VObj [("key", VStr "XL");
                                                    ("label", VStr "Extra large")])]])])
                [])
             true) = Ok true.
Proof.
  destruct (attribute_subpath_reads_one_property false (match_equals (PStr "XL"))
              "size" "key" "label"
              (product_of
                 (VObj [("attributes",
                         VArr [VObj [("name", VStr "size");
                                     ("value", VObj [("key", VStr "XL");
                                                     ("label", VStr "Extra large")])]])])
                 [])
              true []
              (VObj [("attributes",
                      VArr [VObj [("name", VStr "size");
                                  ("value", VObj [("key", VStr "XL");
                                                  ("label", VStr "Extra large")])]])])
              []
              (VArr [VObj [("name", VStr "size");
                           ("value", VObj [("key", VStr "XL");
                                           ("label", VStr "Extra large")])]])
              []
              (VObj [("name", VStr "size");
                     ("value", VObj [("key", VStr "XL");
                                     ("label", VStr "Extra large")])])
              []
              (VObj [("key", VStr "XL"); ("label", VStr "Extra large")])
              eq_refl eq_refl eq_refl eq_refl eq_refl eq_refl eq_refl eq_refl
              eq_refl eq_refl) as [H _].
  apply (proj1 (H [("key", VStr "XL"); ("label", VStr "Extra large")]
                  (VStr "XL") true eq_refl eq_refl eq_refl)).
Defined.

(** ** The scoped-price family *)

(** X14. With the supported source, the scoped-price predicate tests the
    first candidate only. A variant without a scoped price gives the value
    undefined to the predicate; a variant whose scoped price has a value
    gives the centAmount of that value; a variant whose scoped price has no
    value makes the call throw a TypeError, because the optional chaining
    guards the scoped price alone. *)
Theorem scoped_price_value :
  forall (staged : bool) (exprFunc : MatchFunc) (p : value) (mark : bool)
         (fields : list (string * value)) (rest : list value),
    getVariants p staged = Ok (VObj fields :: rest) ->
    (forall b : bool,
        absent (match lookup "scopedPrice" fields with
                | Some v => v
                | None => VUndef
                end) = true ->
        exprFunc VUndef = Ok b ->
        verdict (filterScopedPrice staged exprFunc scoped_source p mark) = Ok b)
    /\ (forall (scopedPrice price_value centAmount : value) (b : bool),
          lookup "scopedPrice" fields = Some scopedPrice ->
          absent scopedPrice = false ->
          get_prop scopedPrice "value" = Ok price_value ->
          get_prop price_value "centAmount" = Ok centAmount ->
          exprFunc centAmount = Ok b ->
          verdict (filterScopedPrice staged exprFunc scoped_source p mark) = Ok b)
    /\ (forall scopedPrice price_value : value,
          lookup "scopedPrice" fields = Some scopedPrice ->
          absent scopedPrice = false ->
          get_prop scopedPrice "value" = Ok price_value ->
          absent price_value = true ->
          filterScopedPrice staged exprFunc scoped_source p mark = Throw TypeError).
Proof.
  intros staged exprFunc p mark fields rest Hgv.
  assert (Hrun : filterScopedPrice staged exprFunc scoped_source p mark
                 = filterScopedPrice_loop staged exprFunc p mark 0
                     (VObj fields :: rest)).
  { unfold filterScopedPrice. rewrite Hgv. reflexivity. }
  rewrite Hrun. unfold filterScopedPrice_loop, scoped_centAmount.
  cbn [get_prop bind].
  split; [|split].
  - intros b Habs Hf.
    destruct (lookup "scopedPrice" fields) as [[]|]; try discriminate Habs;
      cbn [bind]; rewrite Hf; cbn [bind];
      (destruct b; [apply verdict_matched|reflexivity]).
  - intros sp pv c b Hl Hsp Hv Hc Hf. rewrite Hl.
    destruct sp; try discriminate Hsp;
      rewrite Hv; cbn [bind]; rewrite Hc; cbn [bind]; rewrite Hf; cbn [bind];
      (destruct b; [apply verdict_matched|reflexivity]).
  - intros sp pv Hl Hsp Hv Habs. rewrite Hl.
    destruct sp; try discriminate Hsp;
      rewrite Hv; cbn [bind];
      destruct pv; try discriminate Habs; reflexivity.
Qed.

(** The theorem at the predicate of [missing] and a variant without a
    scoped price, before a variant that has one. *)
Lemma scoped_price_value_witness :
  verdict (filterScopedPrice false match_missing scoped_source
             (product_of variant_plain
                [VObj [("scopedPrice",
                        VObj [("value", VObj [("centAmount", VNum 5)])])]])
             true) = Ok true.
Proof.
  destruct (scoped_price_value false match_missing
              (product_of variant_plain
                 [VObj [("scopedPrice",
                         VObj [("value", VObj [("centAmount", VNum 5)])])]])
              true [("id", VNum 1); ("sku", VStr "XYZ")]
              [VObj [("scopedPrice",
                      VObj [("value", VObj [("centAmount", VNum 5)])])]]
              eq_refl) as [H _].
  apply (H true); reflexivity.
Defined.

(** * The product after a call *)

(** ** Calls that leave the product as it is *)

Lemma matched_result :
  forall (p : value) (staged : bool) (i : nat) (variant : value) (mark b : bool)
         (p' : value),
    matched p staged i variant mark = Ok (b, p') ->
    b = true
    /\ (mark = false -> p' = p)
    /\ (mark = true ->
        exists fields, variant = VObj fields
                       /\ p' = put_variant p staged i (marked fields)).
Proof.
  intros p staged i variant mark b p' H. unfold matched in H.
  destruct mark.
  - destruct variant; simpl in H; try discriminate.
    inversion H; subst. split; [reflexivity|]. split; [discriminate|].
    intros _. eexists. split; reflexivity.
  - inversion H; subst. split; [reflexivity|]. split; [reflexivity|discriminate].
Qed.

Lemma matched_keeps :
  forall (p : value) (staged : bool) (i : nat) (variant : value) (mark b : bool)
         (p' : value),
    matched p staged i variant mark = Ok (b, p') ->
    mark = false \/ b = false ->
    p' = p.
Proof.
  intros p staged i variant mark b p' H Hor.
  destruct (matched_result _ _ _ _ _ _ _ H) as [Hb [Hkeep _]].
  destruct Hor as [Hm|Hf]; [apply Hkeep; exact Hm|].
  rewrite Hb in Hf. discriminate.
Qed.

Lemma filterVariant_loop_keeps :
  forall (staged : bool) (exprFunc : MatchFunc) (path : option string)
         (p : value) (mark : bool) (i : nat) (variants : list value)
         (b : bool) (p' : value),
    filterVariant_loop staged exprFunc path p mark i variants = Ok (b, p') ->
    mark = false \/ b = false ->
    p' = p.
Proof.
  intros staged exprFunc path p mark i variants b p' H Hor.
  destruct variants as [|variant rest]; simpl in H.
  - inversion H. reflexivity.
  - destruct (resolveValue variant path) as [v|e| |]; simpl in H;
      try discriminate.
    destruct (exprFunc v) as [[|]|e| |]; simpl in H; try discriminate.
    + apply (matched_keeps _ _ _ _ _ _ _ H Hor).
    + inversion H. reflexivity.
Qed.

Lemma filterScopedPrice_loop_keeps :
  forall (staged : bool) (exprFunc : MatchFunc) (p : value) (mark : bool)
         (i : nat) (variants : list value) (b : bool) (p' : value),
    filterScopedPrice_loop staged exprFunc p mark i variants = Ok (b, p') ->
    mark = false \/ b = false ->
    p' = p.
Proof.
  intros staged exprFunc p mark i variants b p' H Hor.
  destruct variants as [|variant rest]; simpl in H.
  - inversion H. reflexivity.
  - destruct (scoped_centAmount variant) as [v|e| |]; simpl in H;
      try discriminate.
    destruct (exprFunc v) as [[|]|e| |]; simpl in H; try discriminate.
    + apply (matched_keeps _ _ _ _ _ _ _ H Hor).
    + inversion H. reflexivity.
Qed.

Lemma attribute_loop_keeps :
  forall (staged : bool) (exprFunc : MatchFunc) (attrName path : option string)
         (p : value) (mark : bool) (i : nat) (variant : value)
         (attrs : list value) (b : bool) (p' : value),
    attribute_loop staged exprFunc attrName path p mark i variant attrs
    = Ok (Some (b, p')) ->
    mark = false \/ b = false ->
    p' = p.
Proof.
  intros staged exprFunc attrName path p mark i variant.
  induction attrs as [|attr attrs IH]; intros b p' H Hor; simpl in H.
  - discriminate.
  - destruct (get_prop attr "name") as [name|e| |]; simpl in H; try discriminate.
    destruct (name_differs name attrName); [apply (IH _ _ H Hor)|].
    destruct (get_prop attr "value") as [av|e| |]; simpl in H; try discriminate.
    destruct (resolveValue av path) as [v|e| |]; simpl in H; try discriminate.
    destruct (exprFunc v) as [[|]|e| |]; simpl in H; try discriminate.
    + destruct (matched p staged i variant mark) as [[b0 p0]|e| |] eqn:E;
        simpl in H; try discriminate.
      inversion H; subst. apply (matched_keeps _ _ _ _ _ _ _ E Hor).
    + inversion H. reflexivity.
Qed.

Lemma filterAttribute_loop_keeps :
  forall (staged : bool) (exprFunc : MatchFunc) (attrName path : option string)
         (p : value) (mark : bool) (variants : list value) (i : nat)
         (b : bool) (p' : value),
    filterAttribute_loop staged exprFunc attrName path p mark i variants
    = Ok (b, p') ->
    mark = false \/ b = false ->
    p' = p.
Proof.
  intros staged exprFunc attrName path p mark.
  induction variants as [|variant rest IH]; intros i b p' H Hor; simpl in H.
  - inversion H. reflexivity.
  - destruct (get_prop variant "attributes") as [a|e| |]; simpl in H;
      try discriminate.
    destruct (truthy a); simpl in H; [|apply (IH _ _ _ H Hor)].
    destruct (iterate a) as [attrs|e| |]; simpl in H; try discriminate.
    destruct (attribute_loop staged exprFunc attrName path p mark i variant attrs)
      as [[[b0 p0]|]|e| |] eqn:E; simpl in H; try discriminate.
    + inversion H; subst. apply (attribute_loop_keeps _ _ _ _ _ _ _ _ _ _ _ E Hor).
    + apply (IH _ _ _ H Hor).
Qed.

Lemma filterPrice_loop_keeps :
  forall (staged : bool) (exprFunc : MatchFunc) (p : value) (mark : bool)
         (variants : list value) (i : nat) (b : bool) (p' : value),
    filterPrice_loop staged exprFunc p mark i variants = Ok (b, p') ->
    mark = false \/ b = false ->
    p' = p.
Proof.
  intros staged exprFunc p mark.
  induction variants as [|variant rest IH]; intros i b p' H Hor; simpl in H.
  - inversion H. reflexivity.
  - destruct (get_prop variant "prices") as [prices|e| |]; simpl in H;
      try discriminate.
    destruct (truthy prices); simpl in H; [|apply (IH _ _ _ H Hor)].
    destruct (get_prop prices "0") as [price|e| |]; simpl in H; try discriminate.
    destruct (get_prop price "value") as [pv|e| |]; simpl in H; try discriminate.
    destruct (get_prop pv "centAmount") as [c|e| |]; simpl in H; try discriminate.
    destruct (exprFunc c) as [[|]|e| |]; simpl in H; try discriminate.
    + apply (matched_keeps _ _ _ _ _ _ _ H Hor).
    + inversion H. reflexivity.
Qed.

(** X15. A compiled filter changes the product in one case only: when it
    is called with [markMatchingVariant] and returns true. A call without
    [markMatchingVariant], and a call that returns false, leave the product
    exactly as it was. *)
Theorem product_unchanged_unless_marked :
  forall (filter : string) (staged : bool) (pf : ProductFilter)
         (p : value) (mark b : bool) (p' : value),
    parseFilterExpression filter staged = Ok pf ->
    pf p mark = Ok (b, p') ->
    mark = false \/ b = false ->
    p' = p.
Proof.
  intros filter staged pf p mark b p' Hpf Hcall Hor.
  unfold parseFilterExpression in Hpf.
  apply bind_Ok_inv in Hpf. destruct Hpf as [exprFunc [_ Hpf]].
  destruct (startsWith (filter_source filter) "variants.attributes").
  { inversion Hpf; subst pf. unfold filterAttribute in Hcall.
    destruct (getVariants p staged) as [vs|e| |]; simpl in Hcall;
      try discriminate.
    apply (filterAttribute_loop_keeps _ _ _ _ _ _ _ _ _ _ Hcall Hor). }
  destruct (startsWith (filter_source filter) "variants.price").
  { inversion Hpf; subst pf. unfold filterPrice in Hcall.
    destruct (getVariants p staged) as [vs|e| |]; simpl in Hcall;
      try discriminate.
    apply (filterPrice_loop_keeps _ _ _ _ _ _ _ _ Hcall Hor). }
  destruct (startsWith (filter_source filter) "variants.scopedPrice").
  { inversion Hpf; subst pf. unfold filterScopedPrice in Hcall.
    destruct (negb (String.eqb (filter_source filter)
                      "variants.scopedPrice.value.centAmount"));
      [discriminate|].
    destruct (getVariants p staged) as [vs|e| |]; simpl in Hcall;
      try discriminate.
    apply (filterScopedPrice_loop_keeps _ _ _ _ _ _ _ _ Hcall Hor). }
  destruct (startsWith (filter_source filter) "variants.sku"
            || startsWith (filter_source filter) "variants.key").
  { inversion Hpf; subst pf. unfold filterVariant in Hcall.
    destruct (getVariants p staged) as [vs|e| |]; simpl in Hcall;
      try discriminate.
    apply (filterVariant_loop_keeps _ _ _ _ _ _ _ _ _ Hcall Hor). }
  inversion Hpf; subst pf. inversion Hcall. reflexivity.
Qed.

(** The theorem at [variants.sku:exists], called without
    [markMatchingVariant] on a product that matches. *)
Lemma product_unchanged_unless_marked_witness :
  product_of variant_red [variant_plain] = product_of variant_red [variant_plain].
Proof.
  apply (product_unchanged_unless_marked "variants.sku:exists" false
           (filterVariant false (match_call match_exists) "variants.sku")
           (product_of variant_red [variant_plain]) false true
           (product_of variant_red [variant_plain])).
  - reflexivity.
  - reflexivity.
  - left. reflexivity.
Defined.

(** ** Calls that mark a variant *)

Lemma lookup_store_same :
  forall (k : string) (v : value) (fields : list (string * value)),
    lookup k (store k v fields) = Some v.
Proof.
  intros k v. induction fields as [|[k' v'] rest IH]; simpl.
  - rewrite String.eqb_refl. reflexivity.
  - destruct (String.eqb k k') eqn:E; simpl.
    + rewrite String.eqb_refl. reflexivity.
    + rewrite E. exact IH.
Qed.

Lemma lookup_store_other :
  forall (k k' : string) (v : value) (fields : list (string * value)),
    String.eqb k' k = false ->
    lookup k' (store k v fields) = lookup k' fields.
Proof.
  intros k k' v fields Hne.
  induction fields as [|[k0 v0] rest IH]; simpl.
  - rewrite Hne. reflexivity.
  - destruct (String.eqb k k0) eqn:E; simpl.
    + apply String.eqb_eq in E. subst k0. rewrite Hne. reflexivity.
    + destruct (String.eqb k' k0); [reflexivity|exact IH].
Qed.

Lemma get_prop_opt_present :
  forall (o : value) (k : string) (v : value),
    get_prop_opt o k = Ok v ->
    is_undefined v = false ->
    String.eqb k "length" = false ->
    array_index k = None ->
    exists fields, o = VObj fields /\ lookup k fields = Some v.
Proof.
  intros o k v H Hv Hlen Hidx.
  destruct o; simpl in H; try rewrite Hlen in H; try rewrite Hidx in H;
    try (inversion H; subst; discriminate).
  exists fields. split; [reflexivity|].
  destruct (lookup k fields); inversion H; subst; [reflexivity|discriminate].
Qed.

Lemma get_prop_present :
  forall (o : value) (k : string) (v : value),
    get_prop o k = Ok v ->
    is_undefined v = false ->
    String.eqb k "length" = false ->
    array_index k = None ->
    exists fields, o = VObj fields /\ lookup k fields = Some v.
Proof.
  intros o k v H Hv Hlen Hidx.
  apply get_prop_opt_present; try assumption.
  destruct o; try discriminate; exact H.
Qed.

Lemma chars_no_object :
  forall (s : string) (j : nat) (fields : list (string * value)),
    nth_error (chars s) j = Some (VObj fields) -> False.
Proof.
  intros s j fields H. apply nth_error_In in H. unfold chars in H.
  apply in_map_iff in H. destruct H as [c [H _]]. discriminate.
Qed.

(** What a product looks like when [getVariants] returns. *)
Lemma getVariants_shape :
  forall (p : value) (staged : bool) (vs : list value),
    getVariants p staged = Ok vs ->
    exists (top data projection : list (string * value)) (variants : value)
           (others : list value),
      p = VObj top
      /\ lookup "masterData" top = Some (VObj data)
      /\ lookup (projection_key staged) data = Some (VObj projection)
      /\ lookup "variants" projection = Some variants
      /\ iterate variants = Ok others
      /\ vs = match lookup "masterVariant" projection with
              | Some v => v
              | None => VUndef
              end :: others.
Proof.
  intros p staged vs H. unfold getVariants in H.
  apply bind_Ok_inv in H. destruct H as [masterData [Hmd H]].
  apply bind_Ok_inv in H. destruct H as [projection [Hpr H]].
  apply bind_Ok_inv in H. destruct H as [masterVariant [Hmv H]].
  apply bind_Ok_inv in H. destruct H as [variants [Hvs H]].
  apply bind_Ok_inv in H. destruct H as [others [Hit H]].
  inversion H; subst vs; clear H.
  assert (Hdef : is_undefined variants = false)
    by (destruct variants; try discriminate; reflexivity).
  destruct (get_prop_opt_present _ _ _ Hvs Hdef eq_refl eq_refl)
    as [pfs [-> Hlv]].
  assert (Hkey : String.eqb (projection_key staged) "length" = false
                 /\ array_index (projection_key staged) = None)
    by (destruct staged; split; reflexivity).
  destruct Hkey as [Hk1 Hk2].
  destruct (get_prop_present _ _ _ Hpr eq_refl Hk1 Hk2) as [mfs [-> Hlp]].
  destruct (get_prop_present _ _ _ Hmd eq_refl eq_refl eq_refl)
    as [top [-> Hlm]].
  exists top, mfs, pfs, variants, others.
  repeat split; try assumption.
  simpl in Hmv. inversion Hmv. reflexivity.
Qed.

(** Reading the candidates back after one of them was written. *)
Lemma getVariants_put_variant :
  forall (p : value) (staged : bool) (vs : list value) (i : nat)
         (fields : list (string * value)) (variant' : value),
    getVariants p staged = Ok vs ->
    nth_error vs i = Some (VObj fields) ->
    getVariants (put_variant p staged i variant') staged
    = Ok (replace_nth i variant' vs).
Proof.
  intros p staged vs i fields variant' Hget Hnth.
  destruct (getVariants_shape _ _ _ Hget)
    as [top [data [projection [variants [others
         [-> [Hmd [Hpr [Hvars [Hit ->]]]]]]]]]].
  assert (Hk : String.eqb "masterVariant" "variants" = false
               /\ String.eqb "variants" "masterVariant" = false)
    by (split; reflexivity).
  destruct Hk as [Hk1 Hk2].
  unfold put_variant, getVariants.
  cbn [update]. rewrite Hmd. cbn [update]. rewrite Hpr.
  cbn [get_prop bind]. rewrite lookup_store_same.
  cbn [get_prop bind]. rewrite lookup_store_same.
  destruct i as [|j].
  - simpl in Hnth.
    destruct (lookup "masterVariant" projection) as [mv|] eqn:Hmv;
      [|discriminate].
    cbn [update]. rewrite Hmv.
    cbn [get_prop_opt get_prop bind].
    rewrite lookup_store_same.
    rewrite (lookup_store_other _ _ _ _ Hk2). rewrite Hvars.
    rewrite Hit. reflexivity.
  - simpl in Hnth.
    destruct variants as [| | | |s|l|]; try discriminate.
    + inversion Hit; subst others. exfalso.
      apply (chars_no_object _ _ _ Hnth).
    + inversion Hit; subst others.
      cbn [update]. rewrite Hvars.
      cbn [get_prop_opt get_prop bind].
      rewrite lookup_store_same.
      rewrite (lookup_store_other _ _ _ _ Hk1).
      reflexivity.
Qed.

Lemma filterVariant_loop_marks :
  forall (staged : bool) (exprFunc : MatchFunc) (path : option string)
         (p : value) (i : nat) (variants : list value) (p' : value),
    filterVariant_loop staged exprFunc path p true i variants = Ok (true, p') ->
    exists (j : nat) (fields : list (string * value)),
      nth_error variants j = Some (VObj fields)
      /\ p' = put_variant p staged (i + j) (marked fields).
Proof.
  intros staged exprFunc path p i variants p' H.
  destruct variants as [|variant rest]; simpl in H; [discriminate|].
  destruct (resolveValue variant path) as [v|e| |]; simpl in H;
    try discriminate.
  destruct (exprFunc v) as [[|]|e| |]; simpl in H; try discriminate.
  destruct (matched_result p staged i variant true true p' H) as [_ [_ Hm]].
  destruct (Hm eq_refl) as [fields [-> ->]].
  exists 0%nat, fields. rewrite Nat.add_0_r. split; reflexivity.
Qed.

Lemma filterScopedPrice_loop_marks :
  forall (staged : bool) (exprFunc : MatchFunc) (p : value) (i : nat)
         (variants : list value) (p' : value),
    filterScopedPrice_loop staged exprFunc p true i variants = Ok (true, p') ->
    exists (j : nat) (fields : list (string * value)),
      nth_error variants j = Some (VObj fields)
      /\ p' = put_variant p staged (i + j) (marked fields).
Proof.
  intros staged exprFunc p i variants p' H.
  destruct variants as [|variant rest]; simpl in H; [discriminate|].
  destruct (scoped_centAmount variant) as [v|e| |]; simpl in H;
    try discriminate.
  destruct (exprFunc v) as [[|]|e| |]; simpl in H; try discriminate.
  destruct (matched_result p staged i variant true true p' H) as [_ [_ Hm]].
  destruct (Hm eq_refl) as [fields [-> ->]].
  exists 0%nat, fields. rewrite Nat.add_0_r. split; reflexivity.
Qed.

Lemma attribute_loop_marks :
  forall (staged : bool) (exprFunc : MatchFunc) (attrName path : option string)
         (p : value) (i : nat) (variant : value) (attrs : list value)
         (p' : value),
    attribute_loop staged exprFunc attrName path p true i variant attrs
    = Ok (Some (true, p')) ->
    exists fields, variant = VObj fields
                   /\ p' = put_variant p staged i (marked fields).
Proof.
  intros staged exprFunc attrName path p i variant.
  induction attrs as [|attr attrs IH]; intros p' H; simpl in H.
  - discriminate.
  - destruct (get_prop attr "name") as [name|e| |]; simpl in H; try discriminate.
    destruct (name_differs name attrName); [apply (IH _ H)|].
    destruct (get_prop attr "value") as [av|e| |]; simpl in H; try discriminate.
    destruct (resolveValue av path) as [v|e| |]; simpl in H; try discriminate.
    destruct (exprFunc v) as [[|]|e| |]; simpl in H; try discriminate.
    destruct variant; simpl in H; try discriminate.
    inversion H; subst. eexists. split; reflexivity.
Qed.

Lemma filterAttribute_loop_marks :
  forall (staged : bool) (exprFunc : MatchFunc) (attrName path : option string)
         (p : value) (variants : list value) (i : nat) (p' : value),
    filterAttribute_loop staged exprFunc attrName path p true i variants
    = Ok (true, p') ->
    exists (j : nat) (fields : list (string * value)),
      nth_error variants j = Some (VObj fields)
      /\ p' = put_variant p staged (i + j) (marked fields).
Proof.
  intros staged exprFunc attrName path p.
  assert (Hskip : forall (variant : value) (rest : list value) (i : nat)
                         (p' : value),
             (exists (j : nat) (fields : list (string * value)),
                 nth_error rest j = Some (VObj fields)
                 /\ p' = put_variant p staged (S i + j) (marked fields)) ->
             exists (j : nat) (fields : list (string * value)),
               nth_error (variant :: rest) j = Some (VObj fields)
               /\ p' = put_variant p staged (i + j) (marked fields)).
  { intros variant rest i p' [j [fields [Hn Hp]]].
    exists (S j), fields. split; [exact Hn|].
    rewrite Nat.add_succ_r. exact Hp. }
  induction variants as [|variant rest IH]; intros i p' H; simpl in H.
  - discriminate.
  - destruct (get_prop variant "attributes") as [a|e| |]; simpl in H;
      try discriminate.
    destruct (truthy a); simpl in H; [|apply Hskip, IH, H].
    destruct (iterate a) as [attrs|e| |]; simpl in H; try discriminate.
    destruct (attribute_loop staged exprFunc attrName path p true i variant attrs)
      as [[[b0 p0]|]|e| |] eqn:E; simpl in H; try discriminate.
    + inversion H; subst.
      destruct (attribute_loop_marks _ _ _ _ _ _ _ _ _ E) as [fields [-> ->]].
      exists 0%nat, fields. rewrite Nat.add_0_r. split; reflexivity.
    + apply Hskip, IH, H.
Qed.

Lemma filterPrice_loop_marks :
  forall (staged : bool) (exprFunc : MatchFunc) (p : value)
         (variants : list value) (i : nat) (p' : value),
    filterPrice_loop staged exprFunc p true i variants = Ok (true, p') ->
    exists (j : nat) (fields : list (string * value)),
      nth_error variants j = Some (VObj fields)
      /\ p' = put_variant p staged (i + j) (marked fields).
Proof.
  intros staged exprFunc p.
  induction variants as [|variant rest IH]; intros i p' H; simpl in H.
  - discriminate.
  - destruct (get_prop variant "prices") as [prices|e| |]; simpl in H;
      try discriminate.
    destruct (truthy prices); simpl in H.
    + destruct (get_prop prices "0") as [price|e| |]; simpl in H;
        try discriminate.
      destruct (get_prop price "value") as [pv|e| |]; simpl in H;
        try discriminate.
      destruct (get_prop pv "centAmount") as [c|e| |]; simpl in H;
        try discriminate.
      destruct (exprFunc c) as [[|]|e| |]; simpl in H; try discriminate.
      destruct (matched_result p staged i variant true true p' H) as [_ [_ Hm]].
      destruct (Hm eq_refl) as [fields [-> ->]].
      exists 0%nat, fields. rewrite Nat.add_0_r. split; reflexivity.
    + destruct (IH _ _ H) as [j [fields [Hn Hp]]].
      exists (S j), fields. split; [exact Hn|].
      rewrite Nat.add_succ_r. exact Hp.
Qed.

(** X16. When a compiled filter called with [markMatchingVariant] returns
    true, the candidates read back from the product it leaves are those of
    the product it was given with exactly one of them replaced: that
    candidate was an object, and its replacement is the same object with
    [isMatchingVariant] set to true and every other property as before. No
    other candidate changes. *)
Theorem marking_sets_one_flag :
  forall (filter : string) (staged : bool) (pf : ProductFilter)
         (p p' : value),
    parseFilterExpression filter staged = Ok pf ->
    pf p true = Ok (true, p') ->
    exists (vs : list value) (i : nat) (fields : list (string * value)),
      getVariants p staged = Ok vs
      /\ nth_error vs i = Some (VObj fields)
      /\ getVariants p' staged = Ok (replace_nth i (marked fields) vs)
      /\ get_prop (marked fields) "isMatchingVariant" = Ok (VBool true)
      /\ (forall k : string,
             String.eqb k "isMatchingVariant" = false ->
             get_prop (marked fields) k = get_prop (VObj fields) k).
Proof.
  intros filter staged pf p p' Hpf Hcall.
  assert (Hfinish :
            forall (vs : list value) (j : nat) (fields : list (string * value)),
              getVariants p staged = Ok vs ->
              nth_error vs j = Some (VObj fields) ->
              p' = put_variant p staged (0 + j) (marked fields) ->
              exists (vs : list value) (i : nat)
                     (fields : list (string * value)),
                getVariants p staged = Ok vs
                /\ nth_error vs i = Some (VObj fields)
                /\ getVariants p' staged = Ok (replace_nth i (marked fields) vs)
                /\ get_prop (marked fields) "isMatchingVariant" = Ok (VBool true)
                /\ (forall k : string,
                       String.eqb k "isMatchingVariant" = false ->
                       get_prop (marked fields) k = get_prop (VObj fields) k)).
  { intros vs j fields Hget Hnth ->. exists vs, j, fields.
    split; [exact Hget|]. split; [exact Hnth|].
    split; [apply (getVariants_put_variant _ _ _ _ _ _ Hget Hnth)|].
    unfold marked. cbn [get_prop]. split.
    - rewrite lookup_store_same. reflexivity.
    - intros k Hk. rewrite (lookup_store_other _ _ _ _ Hk). reflexivity. }
  unfold parseFilterExpression in Hpf.
  apply bind_Ok_inv in Hpf. destruct Hpf as [exprFunc [_ Hpf]].
  destruct (startsWith (filter_source filter) "variants.attributes").
  { inversion Hpf; subst pf. unfold filterAttribute in Hcall.
    destruct (getVariants p staged) as [vs|e| |] eqn:Hget; simpl in Hcall;
      try discriminate.
    destruct (filterAttribute_loop_marks _ _ _ _ _ _ _ _ Hcall)
      as [j [fields [Hn Hp]]].
    apply (Hfinish vs j fields eq_refl Hn Hp). }
  destruct (startsWith (filter_source filter) "variants.price").
  { inversion Hpf; subst pf. unfold filterPrice in Hcall.
    destruct (getVariants p staged) as [vs|e| |] eqn:Hget; simpl in Hcall;
      try discriminate.
    destruct (filterPrice_loop_marks _ _ _ _ _ _ Hcall)
      as [j [fields [Hn Hp]]].
    apply (Hfinish vs j fields eq_refl Hn Hp). }
  destruct (startsWith (filter_source filter) "variants.scopedPrice").
  { inversion Hpf; subst pf. unfold filterScopedPrice in Hcall.
    destruct (negb (String.eqb (filter_source filter)
                      "variants.scopedPrice.value.centAmount"));
      [discriminate|].
    destruct (getVariants p staged) as [vs|e| |] eqn:Hget; simpl in Hcall;
      try discriminate.
    destruct (filterScopedPrice_loop_marks _ _ _ _ _ _ Hcall)
      as [j [fields [Hn Hp]]].
    apply (Hfinish vs j fields eq_refl Hn Hp). }
  destruct (startsWith (filter_source filter) "variants.sku"
            || startsWith (filter_source filter) "variants.key").
  { inversion Hpf; subst pf. unfold filterVariant in Hcall.
    destruct (getVariants p staged) as [vs|e| |] eqn:Hget; simpl in Hcall;
      try discriminate.
    destruct (filterVariant_loop_marks _ _ _ _ _ _ _ Hcall)
      as [j [fields [Hn Hp]]].
    apply (Hfinish vs j fields eq_refl Hn Hp). }
  inversion Hpf; subst pf. discriminate.
Qed.

(** The theorem at a colour filter on a product whose second candidate is
    the red one. *)
Lemma marking_sets_one_flag_witness :
  exists (vs : list value) (i : nat) (fields : list (string * value)),
    getVariants (product_of variant_plain [variant_red]) false = Ok vs
    /\ nth_error vs i = Some (VObj fields)
    /\ getVariants
         (put_variant (product_of variant_plain [variant_red]) false 1
            (VObj [("id", VNum 2); ("sku", VStr "ABC123");
                   ("attributes",
                    VArr [VObj [("name", VStr "color"); ("value", VStr "red")]]);
                   ("prices",
                    VArr [VObj [("value", VObj [("centAmount", VNum 100)])]]);
                   ("isMatchingVariant", VBool true)]))
         false
       = Ok (replace_nth i (marked fields) vs)
    /\ get_prop (marked fields) "isMatchingVariant" = Ok (VBool true)
    /\ (forall k : string,
           String.eqb k "isMatchingVariant" = false ->
           get_prop (marked fields) k = get_prop (VObj fields) k).
Proof.
  eapply (marking_sets_one_flag
            ("variants.attributes.color:" ++ String dquote "red"
               ++ String dquote "")
            false _ (product_of variant_plain [variant_red])).
  - vm_compute. reflexivity.
  - vm_compute. reflexivity.
Defined.

(** * Paths in two parts *)

Lemma split_app :
  forall (sep : ascii) (a b : string),
    split sep (a ++ String sep b) = (split sep a ++ split sep b)%list.
Proof.
  intros sep. induction a as [|c a IH]; intros b; simpl.
  - rewrite Ascii.eqb_refl. reflexivity.
  - destruct (Ascii.eqb c sep).
    + rewrite IH. reflexivity.
    + rewrite IH. destruct (split_cons sep a) as [first [others E]].
      rewrite E. reflexivity.
Qed.

Lemma index_path_app :
  forall (xs ys : list string) (val : value),
    index_path (xs ++ ys)%list val
    = (val' <- index_path xs val ;; index_path ys val').
Proof.
  induction xs as [|x xs IH]; intros ys val; simpl.
  - reflexivity.
  - destruct (get_prop val x) as [v|e| |]; simpl; try reflexivity.
    apply IH.
Qed.

Lemma resolveValue_index_path :
  forall (obj : value) (path : string),
    resolveValue obj (Some path) = index_path (split "." path) obj.
Proof.
  intros obj path. unfold resolveValue.
  apply (resolve_loop_index_path [] (split "." path) obj).
Qed.

(** X17. Resolving a path [a.b] is resolving [a] and then resolving [b]
    from the value found, wherever the dot is: an error on the way to [a]
    is the error of the whole path, and a path that goes on after a value
    that is undefined or null throws a TypeError instead of returning
    undefined. *)
Theorem resolveValue_composes :
  forall (obj : value) (a b : string),
    resolveValue obj (Some (a ++ "." ++ b))
    = (val <- resolveValue obj (Some a) ;; resolveValue val (Some b))
    /\ (forall e : js_error,
           resolveValue obj (Some a) = Throw e ->
           resolveValue obj (Some (a ++ "." ++ b)) = Throw e)
    /\ (forall val : value,
           resolveValue obj (Some a) = Ok val ->
           absent val = true ->
           resolveValue obj (Some (a ++ "." ++ b)) = Throw TypeError).
Proof.
  intros obj a b.
  assert (Hcomp : resolveValue obj (Some (a ++ "." ++ b))
                  = (val <- resolveValue obj (Some a) ;;
                     resolveValue val (Some b))).
  { rewrite (resolveValue_index_path obj (a ++ "." ++ b)).
    change (a ++ "." ++ b) with (a ++ String "." b).
    rewrite split_app. rewrite index_path_app.
    rewrite <- (resolveValue_index_path obj a).
    destruct (resolveValue obj (Some a)) as [v|e| |]; cbn [bind];
      try reflexivity.
    symmetry. apply resolveValue_index_path. }
  split; [exact Hcomp|]. split.
  - intros e He. rewrite Hcomp, He. reflexivity.
  - intros val Hval Habs. rewrite Hcomp, Hval. cbn [bind].
    apply (resolveValue_absent _ _ Habs).
Qed.

(** The theorem at the path [a.b] on an object whose property [a] is
    null. *)
Lemma resolveValue_composes_witness :
  resolveValue (VObj [("a", VNull)]) (Some ("a" ++ "." ++ "b")) = Throw TypeError.
Proof.
  apply (proj2 (proj2 (resolveValue_composes (VObj [("a", VNull)]) "a" "b")) VNull).
  - reflexivity.
  - reflexivity.
Defined.

(** * Words and characters after the colon *)

Lemma ident_char_quoted_items :
  forall (q : ascii) (word : string),
    Ascii.eqb q dquote || Ascii.eqb q "'" = true ->
    string_forall ident_char word = true ->
    quoted_items q word = true.
Proof.
  intros q word Hq. induction word as [|c word IH]; intros H.
  - reflexivity.
  - unfold string_forall in H. simpl in H.
    apply andb_true_iff in H. destruct H as [Hc H].
    simpl.
    assert (Hcq : Ascii.eqb c q = false).
    { apply orb_true_iff in Hq.
      destruct Hq as [Hq|Hq]; apply Ascii.eqb_eq in Hq; subst q;
        revert Hc; ascii_cases c; intros Hc; try reflexivity; discriminate Hc. }
    assert (Hcb : Ascii.eqb c "\" = false).
    { revert Hc; ascii_cases c; intros Hc; try reflexivity; discriminate Hc. }
    rewrite Hcq, Hcb. apply IH. exact H.
Qed.

(** X18. A word written without quotes after the colon is a string: when
    it is made of letters, dots, dashes and underscores and is not read as a
    keyword, [path:word] compiles to the predicate of [path:"word"], the
    strict comparison with the string [word]. *)
Theorem unquoted_word_is_a_string :
  forall (path word : string),
    identifier path = true ->
    identifier word = true ->
    generateMatchFunc (path ++ ":" ++ word) = Ok (match_equals (PStr word))
    /\ generateMatchFunc (path ++ ":" ++ literal_text (LString dquote word))
       = Ok (match_equals (PStr word))
    /\ generateMatchFunc (path ++ ":" ++ literal_text (LString "'" word))
       = Ok (match_equals (PStr word)).
Proof.
  intros path word Hpath Hword.
  assert (Hchars : string_forall ident_char word = true).
  { unfold identifier in Hword.
    apply andb_true_iff in Hword. destruct Hword as [Hword _].
    apply andb_true_iff in Hword. destruct Hword as [_ Hword]. exact Hword. }
  split; [|split].
  - apply (generateMatchFunc_of_parse _ 2%nat _ "").
    apply (parse_colon 0 path word (PStr word) "" Hpath); [|left; reflexivity].
    pose proof (parse_path 0 (Fin 99) word "" Hword eq_refl) as H.
    rewrite append_empty in H. rewrite H. apply led_loop_end.
  - apply (generateMatchFunc_of_parse _ 2%nat _ "").
    apply (parse_colon 0 path (literal_text (LString dquote word))
             (PStr word) "" Hpath); [|left; reflexivity].
    apply (parse_literal_end 0 (Fin 99) (LString dquote word)).
    simpl. apply (ident_char_quoted_items dquote word eq_refl Hchars).
  - apply (generateMatchFunc_of_parse _ 2%nat _ "").
    apply (parse_colon 0 path (literal_text (LString "'" word))
             (PStr word) "" Hpath); [|left; reflexivity].
    apply (parse_literal_end 0 (Fin 99) (LString "'" word)).
    simpl. apply (ident_char_quoted_items "'" word eq_refl Hchars).
Qed.

(** The theorem at [variants.sku:abc]. *)
Lemma unquoted_word_is_a_string_witness :
  generateMatchFunc ("variants.sku" ++ ":" ++ "abc")
  = Ok (match_equals (PStr "abc"))
  /\ generateMatchFunc ("variants.sku" ++ ":" ++ literal_text (LString dquote "abc"))
     = Ok (match_equals (PStr "abc"))
  /\ generateMatchFunc ("variants.sku" ++ ":" ++ literal_text (LString "'" "abc"))
     = Ok (match_equals (PStr "abc")).
Proof.
  apply (unquoted_word_is_a_string "variants.sku" "abc"); reflexivity.
Defined.

Lemma next_no_token :
  forall (c : ascii) (rest : string),
    token_start c = false ->
    next (String c rest) = Throw (UnexpectedInput (String c rest)).
Proof.
  intros c rest H. rewrite next_equation. revert H.
  ascii_cases c; intros H; try discriminate H; reflexivity.
Qed.

Lemma parse_no_token :
  forall (n : nat) (rbp : power) (c : ascii) (rest : string),
    token_start c = false ->
    parse (S n) rbp (String c rest) = Throw (UnexpectedInput (String c rest)).
Proof.
  intros n rbp c rest H. rewrite parse_S, (next_no_token c rest H). reflexivity.
Qed.

(** X19. A character that no token pattern starts with stops the
    compilation where an expression is expected: after the colon, and after
    the opening parenthesis of a range, with or without whitespace in front
    of the character, the call ends with the error of the tokenizer, not
    with a predicate, the syntax error or an error of the parser. The star
    that stands for an open bound of a range is such a character. *)
Theorem character_outside_the_patterns_throws :
  forall (path ws : string) (c : ascii) (rest : string),
    identifier path = true ->
    string_forall is_space ws = true ->
    token_start c = false ->
    tokenizer_error (generateMatchFunc (path ++ ":" ++ ws ++ String c rest)) = true
    /\ tokenizer_error
         (generateMatchFunc (path ++ ":range(" ++ ws ++ String c rest)) = true.
Proof.
  intros path ws c rest Hpath Hws Hc. split.
  - rewrite (generateMatchFunc_of_throw _ 2%nat (UnexpectedInput (String c rest)));
      [reflexivity|].
    apply (parse_colon_throw 0 path (ws ++ String c rest) _ Hpath).
    rewrite (parse_skips_whitespace ws _ _ _ Hws).
    apply (parse_no_token 0 (Fin 99) c rest Hc).
  - rewrite (generateMatchFunc_of_throw _ 3%nat (UnexpectedInput (String c rest)));
      [reflexivity|].
    apply (parse_colon_throw 1 path ("range(" ++ ws ++ String c rest) _ Hpath).
    rewrite parse_S.
    change (next ("range(" ++ ws ++ String c rest))
      with (@Ok (token * lexer)
              (Token RANGE "range" None, "(" ++ ws ++ String c rest)).
    cbn [bind]. unfold nud. cbn [ttype].
    change (next ("(" ++ ws ++ String c rest))
      with (@Ok (token * lexer) (Token LPAREN "(" None, ws ++ String c rest)).
    cbn [bind]. rewrite (parse_skips_whitespace ws _ _ _ Hws).
    rewrite (parse_no_token 0 (Fin 0) c rest Hc). reflexivity.
Qed.

(** The theorem at the price path and the star of a range from a star to
    100, after one blank. *)
Lemma character_outside_the_patterns_throws_witness :
  tokenizer_error
    (generateMatchFunc
       ("variants.price.centAmount" ++ ":" ++ " " ++ String "*" " to 100)")) = true
  /\ tokenizer_error
       (generateMatchFunc
          ("variants.price.centAmount" ++ ":range(" ++ " " ++ String "*" " to 100)"))
     = true.
Proof.
  apply (character_outside_the_patterns_throws "variants.price.centAmount"
           " " "*" " to 100)"); reflexivity.
Defined.

(** * Products without a list of variants *)

Lemma family_filter_getVariants_throws :
  forall (filter : string) (staged : bool) (pf : ProductFilter)
         (p : value) (mark : bool) (e : js_error),
    parseFilterExpression filter staged = Ok pf ->
    family (filter_source filter) = true ->
    (startsWith (filter_source filter) "variants.scopedPrice" = true ->
     filter_source filter = scoped_source) ->
    getVariants p staged = Throw e ->
    pf p mark = Throw e.
Proof.
  intros filter staged pf p mark e Hpf Hfam Hsc Hgv.
  unfold parseFilterExpression in Hpf.
  apply bind_Ok_inv in Hpf. destruct Hpf as [exprFunc [_ Hpf]].
  unfold family in Hfam.
  destruct (startsWith (filter_source filter) "variants.attributes").
  { inversion Hpf; subst pf. unfold filterAttribute. rewrite Hgv. reflexivity. }
  destruct (startsWith (filter_source filter) "variants.price").
  { inversion Hpf; subst pf. unfold filterPrice. rewrite Hgv. reflexivity. }
  destruct (startsWith (filter_source filter) "variants.scopedPrice").
  { inversion Hpf; subst pf. unfold filterScopedPrice.
    rewrite (Hsc eq_refl). simpl. rewrite Hgv. reflexivity. }
  simpl in Hfam. rewrite Hfam in Hpf.
  inversion Hpf; subst pf. unfold filterVariant. rewrite Hgv. reflexivity.
Qed.

(** X20. A family predicate needs the list of variants even when the
    master variant alone would decide: when [variants] of the selected
    projection is missing, null, or anything else that is neither an array
    nor a string, spreading it throws a TypeError before any candidate is
    looked at. (A scoped-price predicate with an unsupported source raises
    its own error first.) *)
Theorem variants_list_is_required :
  forall (filter : string) (staged : bool) (pf : ProductFilter)
         (p masterData projection variants : value) (mark : bool),
    parseFilterExpression filter staged = Ok pf ->
    family (filter_source filter) = true ->
    (startsWith (filter_source filter) "variants.scopedPrice" = true ->
     filter_source filter = scoped_source) ->
    get_prop p "masterData" = Ok masterData ->
    get_prop masterData (projection_key staged) = Ok projection ->
    get_prop_opt projection "variants" = Ok variants ->
    iterable variants = false ->
    getVariants p staged = Throw TypeError
    /\ pf p mark = Throw TypeError.
Proof.
  intros filter staged pf p masterData projection variants mark
         Hpf Hfam Hsc Hmd Hproj Hvars Hit.
  assert (Hgv : getVariants p staged = Throw TypeError).
  { unfold getVariants. rewrite Hmd. cbn [bind]. rewrite Hproj. cbn [bind].
    assert (Hmv : exists mv, get_prop_opt projection "masterVariant" = Ok mv).
    { destruct projection; simpl; eexists; reflexivity. }
    destruct Hmv as [mv Hmv]. rewrite Hmv. cbn [bind].
    rewrite Hvars. cbn [bind].
    destruct variants; try discriminate Hit; reflexivity. }
  split; [exact Hgv|].
  apply (family_filter_getVariants_throws filter staged pf p mark TypeError
           Hpf Hfam Hsc Hgv).
Qed.

(** The theorem at [variants.sku:exists] and a product whose current
    projection has a master variant with a sku and no [variants]. *)
Lemma variants_list_is_required_witness :
  getVariants
    (VObj [("masterData", VObj [("current", VObj [("masterVariant", variant_red)])])])
    false
  = Throw TypeError
  /\ filterVariant false (match_call match_exists) "variants.sku"
       (VObj [("masterData",
               VObj [("current", VObj [("masterVariant", variant_red)])])])
       true
     = Throw TypeError.
Proof.
  apply (variants_list_is_required "variants.sku:exists" false
           (filterVariant false (match_call match_exists) "variants.sku")
           (VObj [("masterData",
                   VObj [("current", VObj [("masterVariant", variant_red)])])])
           (VObj [("current", VObj [("masterVariant", variant_red)])])
           (VObj [("masterVariant", variant_red)])
           VUndef true).
  - reflexivity.
  - reflexivity.
  - intros H. vm_compute in H. discriminate.
  - reflexivity.
  - reflexivity.
  - reflexivity.
  - reflexivity.
Defined.

(** * The answer and the marking *)

Lemma filterVariant_loop_unmarked :
  forall (staged : bool) (exprFunc : MatchFunc) (path : option string)
         (p : value) (i : nat) (variants : list value) (b : bool) (p' : value),
    filterVariant_loop staged exprFunc path p true i variants = Ok (b, p') ->
    filterVariant_loop staged exprFunc path p false i variants = Ok (b, p).
Proof.
  intros staged exprFunc path p i variants b p' H.
  destruct variants as [|variant rest]; simpl in H |- *.
  - inversion H. reflexivity.
  - destruct (resolveValue variant path) as [v|e| |]; simpl in H |- *;
      try discriminate.
    destruct (exprFunc v) as [[|]|e| |]; simpl in H |- *; try discriminate.
    + destruct variant; simpl in H; try discriminate.
      inversion H. reflexivity.
    + inversion H. reflexivity.
Qed.

Lemma filterScopedPrice_loop_unmarked :
  forall (staged : bool) (exprFunc : MatchFunc) (p : value) (i : nat)
         (variants : list value) (b : bool) (p' : value),
    filterScopedPrice_loop staged exprFunc p true i variants = Ok (b, p') ->
    filterScopedPrice_loop staged exprFunc p false i variants = Ok (b, p).
Proof.
  intros staged exprFunc p i variants b p' H.
  destruct variants as [|variant rest]; simpl in H |- *.
  - inversion H. reflexivity.
  - destruct (scoped_centAmount variant) as [v|e| |]; simpl in H |- *;
      try discriminate.
    destruct (exprFunc v) as [[|]|e| |]; simpl in H |- *; try discriminate.
    + destruct variant; simpl in H; try discriminate.
      inversion H. reflexivity.
    + inversion H. reflexivity.
Qed.

Lemma attribute_loop_unmarked :
  forall (staged : bool) (exprFunc : MatchFunc) (attrName path : option string)
         (p : value) (i : nat) (variant : value) (attrs : list value)
         (r : option (bool * value)),
    attribute_loop staged exprFunc attrName path p true i variant attrs = Ok r ->
    attribute_loop staged exprFunc attrName path p false i variant attrs
    = Ok (match r with Some (b, _) => Some (b, p) | None => None end).
Proof.
  intros staged exprFunc attrName path p i variant.
  induction attrs as [|attr attrs IH]; intros r H; simpl in H |- *.
  - inversion H. reflexivity.
  - destruct (get_prop attr "name") as [name|e| |]; simpl in H |- *;
      try discriminate.
    destruct (name_differs name attrName); [apply (IH _ H)|].
    destruct (get_prop attr "value") as [av|e| |]; simpl in H |- *;
      try discriminate.
    destruct (resolveValue av path) as [v|e| |]; simpl in H |- *;
      try discriminate.
    destruct (exprFunc v) as [[|]|e| |]; simpl in H |- *; try discriminate.
    + destruct variant; simpl in H; try discriminate.
      inversion H. reflexivity.
    + inversion H. reflexivity.
Qed.

Lemma filterAttribute_loop_unmarked :
  forall (staged : bool) (exprFunc : MatchFunc) (attrName path : option string)
         (p : value) (variants : list value) (i : nat) (b : bool) (p' : value),
    filterAttribute_loop staged exprFunc attrName path p true i variants
    = Ok (b, p') ->
    filterAttribute_loop staged exprFunc attrName path p false i variants
    = Ok (b, p).
Proof.
  intros staged exprFunc attrName path p.
  induction variants as [|variant rest IH]; intros i b p' H; simpl in H |- *.
  - inversion H. reflexivity.
  - destruct (get_prop variant "attributes") as [a|e| |]; simpl in H |- *;
      try discriminate.
    destruct (truthy a); simpl in H |- *; [|apply (IH _ _ _ H)].
    destruct (iterate a) as [attrs|e| |]; simpl in H |- *; try discriminate.
    destruct (attribute_loop staged exprFunc attrName path p true i variant attrs)
      as [r|e| |] eqn:E; simpl in H; try discriminate.
    rewrite (attribute_loop_unmarked _ _ _ _ _ _ _ _ _ E). simpl.
    destruct r as [[b0 p0]|].
    + inversion H. reflexivity.
    + apply (IH _ _ _ H).
Qed.

Lemma filterPrice_loop_unmarked :
  forall (staged : bool) (exprFunc : MatchFunc) (p : value)
         (variants : list value) (i : nat) (b : bool) (p' : value),
    filterPrice_loop staged exprFunc p true i variants = Ok (b, p') ->
    filterPrice_loop staged exprFunc p false i variants = Ok (b, p).
Proof.
  intros staged exprFunc p.
  induction variants as [|variant rest IH]; intros i b p' H; simpl in H |- *.
  - inversion H. reflexivity.
  - destruct (get_prop variant "prices") as [prices|e| |]; simpl in H |- *;
      try discriminate.
    destruct (truthy prices); simpl in H |- *; [|apply (IH _ _ _ H)].
    destruct (get_prop prices "0") as [price|e| |]; simpl in H |- *;
      try discriminate.
    destruct (get_prop price "value") as [pv|e| |]; simpl in H |- *;
      try discriminate.
    destruct (get_prop pv "centAmount") as [c|e| |]; simpl in H |- *;
      try discriminate.
    destruct (exprFunc c) as [[|]|e| |]; simpl in H |- *; try discriminate.
    + destruct variant; simpl in H; try discriminate.
      inversion H. reflexivity.
    + inversion H. reflexivity.
Qed.

(** X21. Marking does not change the answer: whatever a compiled filter
    returns when it is called with [markMatchingVariant], it returns without
    it, and then the product is left as it was. *)
Theorem answer_does_not_depend_on_marking :
  forall (filter : string) (staged : bool) (pf : ProductFilter)
         (p : value) (b : bool) (p' : value),
    parseFilterExpression filter staged = Ok pf ->
    pf p true = Ok (b, p') ->
    pf p false = Ok (b, p).
Proof.
  intros filter staged pf p b p' Hpf Hcall.
  unfold parseFilterExpression in Hpf.
  apply bind_Ok_inv in Hpf. destruct Hpf as [exprFunc [_ Hpf]].
  destruct (startsWith (filter_source filter) "variants.attributes").
  { inversion Hpf; subst pf. unfold filterAttribute in Hcall |- *.
    destruct (getVariants p staged) as [vs|e| |]; simpl in Hcall |- *;
      try discriminate.
    apply (filterAttribute_loop_unmarked _ _ _ _ _ _ _ _ _ Hcall). }
  destruct (startsWith (filter_source filter) "variants.price").
  { inversion Hpf; subst pf. unfold filterPrice in Hcall |- *.
    destruct (getVariants p staged) as [vs|e| |]; simpl in Hcall |- *;
      try discriminate.
    apply (filterPrice_loop_unmarked _ _ _ _ _ _ _ Hcall). }
  destruct (startsWith (filter_source filter) "variants.scopedPrice").
  { inversion Hpf; subst pf. unfold filterScopedPrice in Hcall |- *.
    destruct (negb (String.eqb (filter_source filter)
                      "variants.scopedPrice.value.centAmount"));
      [discriminate|].
    destruct (getVariants p staged) as [vs|e| |]; simpl in Hcall |- *;
      try discriminate.
    apply (filterScopedPrice_loop_unmarked _ _ _ _ _ _ _ Hcall). }
  destruct (startsWith (filter_source filter) "variants.sku"
            || startsWith (filter_source filter) "variants.key").
  { inversion Hpf; subst pf. unfold filterVariant in Hcall |- *.
    destruct (getVariants p staged) as [vs|e| |]; simpl in Hcall |- *;
      try discriminate.
    apply (filterVariant_loop_unmarked _ _ _ _ _ _ _ _ Hcall). }
  inversion Hpf; subst pf. inversion Hcall. reflexivity.
Qed.

(** The theorem at a range of prices on a product whose second candidate is
    the first one with a price. *)
Lemma answer_does_not_depend_on_marking_witness :
  filterPrice false
    (match_call (match_range (Some (PNum 50)) (Some (PNum 150))))
    "variants.price.centAmount"
    (product_of variant_plain [variant_red]) false
  = Ok (true, product_of variant_plain [variant_red]).
Proof.
  apply (answer_does_not_depend_on_marking
           "variants.price.centAmount:range(50 to 150)" false
           (filterPrice false
              (match_call (match_range (Some (PNum 50)) (Some (PNum 150))))
              "variants.price.centAmount")
           (product_of variant_plain [variant_red]) true
           (put_variant (product_of variant_plain [variant_red]) false 1
              (VObj [("id", VNum 2); ("sku", VStr "ABC123");
                     ("attributes",
                      VArr [VObj [("name", VStr "color");
                                  ("value", VStr "red")]]);
                     ("prices",
                      VArr [VObj [("value", VObj [("centAmount", VNum 100)])]]);
                     ("isMatchingVariant", VBool true)]))).
  - reflexivity.
  - reflexivity.
Defined.

(** * Filtering a product that is already marked *)

Lemma store_store :
  forall (k : string) (a b : value) (fields : list (string * value)),
    store k a (store k b fields) = store k a fields.
Proof.
  intros k a b. induction fields as [|[k' v'] rest IH]; simpl.
  - rewrite String.eqb_refl. reflexivity.
  - destruct (String.eqb k k') eqn:E; simpl.
    + rewrite String.eqb_refl. reflexivity.
    + rewrite E, IH. reflexivity.
Qed.

Lemma update_update :
  forall (o : value) (k : string) (f g : value -> value),
    update (update o k f) k g = update o k (fun x => g (f x)).
Proof.
  intros o k f g. destruct o; try reflexivity. simpl.
  destruct (lookup k fields) as [x|] eqn:E; simpl.
  - rewrite lookup_store_same, store_store. reflexivity.
  - rewrite E. reflexivity.
Qed.

Lemma update_ext :
  forall (o : value) (k : string) (f g : value -> value),
    (forall x, f x = g x) -> update o k f = update o k g.
Proof.
  intros o k f g H. destruct o; try reflexivity. simpl.
  destruct (lookup k fields); [rewrite H|]; reflexivity.
Qed.

Lemma replace_nth_twice :
  forall (j : nat) (v w : value) (l : list value),
    replace_nth j v (replace_nth j w l) = replace_nth j v l.
Proof.
  induction j as [|j IH]; intros v w [|x l]; simpl; try reflexivity.
  rewrite IH. reflexivity.
Qed.

Lemma put_variant_twice :
  forall (p : value) (staged : bool) (i : nat) (v w : value),
    put_variant (put_variant p staged i w) staged i v = put_variant p staged i v.
Proof.
  intros p staged i v w. unfold put_variant.
  rewrite update_update. apply update_ext. intros masterData.
  rewrite update_update. apply update_ext. intros projection.
  destruct i as [|j].
  - rewrite update_update. reflexivity.
  - rewrite update_update. apply update_ext. intros variants.
    destruct variants; try reflexivity.
    rewrite replace_nth_twice. reflexivity.
Qed.

Lemma get_prop_marked :
  forall (fields : list (string * value)) (k : string),
    String.eqb k "isMatchingVariant" = false ->
    get_prop (marked fields) k = get_prop (VObj fields) k.
Proof.
  intros fields k H. unfold marked. cbn [get_prop].
  rewrite (lookup_store_other _ _ _ _ H). reflexivity.
Qed.

Lemma matched_again :
  forall (q : value) (staged : bool) (i : nat) (fields : list (string * value))
         (mark : bool),
    matched (put_variant q staged i (marked fields)) staged i (marked fields) mark
    = Ok (true, put_variant q staged i (marked fields)).
Proof.
  intros q staged i fields [|]; [|reflexivity].
  unfold matched, marked. cbn [set_prop bind].
  rewrite store_store, put_variant_twice. reflexivity.
Qed.

Lemma resolveValue_marked :
  forall (fields : list (string * value)) (c : ascii) (r : string),
    Ascii.eqb c "i" = false ->
    resolveValue (marked fields) (Some (String c r))
    = resolveValue (VObj fields) (Some (String c r)).
Proof.
  intros fields c r Hc.
  rewrite !resolveValue_index_path.
  assert (Hs : exists (x : string) (xs : list string),
             split "." (String c r) = x :: xs
             /\ String.eqb x "isMatchingVariant" = false).
  { cbn [split]. destruct (Ascii.eqb c ".").
    - eexists. eexists. split; reflexivity.
    - destruct (split_cons "." r) as [first [others E]]. rewrite E.
      eexists. eexists. split; [reflexivity|].
      cbn [String.eqb]. rewrite Hc. reflexivity. }
  destruct Hs as [x [xs [-> Hx]]].
  cbn [index_path]. rewrite (get_prop_marked fields x Hx). reflexivity.
Qed.

Lemma variant_source_path_head :
  forall source : string,
    startsWith source "variants.sku" || startsWith source "variants.key" = true ->
    exists (c : ascii) (r : string),
      nth_error (split_limit "." source 2) 1 = Some (String c r)
      /\ Ascii.eqb c "i" = false.
Proof.
  intros source H. unfold split_limit.
  assert (Hv : exists (c : ascii) (r : string),
             source = "variants" ++ String "." (String c r)
             /\ Ascii.eqb c "." = false /\ Ascii.eqb c "i" = false).
  { apply orb_true_iff in H. destruct H as [H|H];
      destruct (prefix_app _ _ H) as [r ->]; eexists; eexists;
      (split; [reflexivity|split; reflexivity]). }
  destruct Hv as [c [r [-> [Hdot Hi]]]].
  rewrite (split_app_sep "." "variants" (String c r) eq_refl).
  cbn [split]. rewrite Hdot.
  destruct (split_cons "." r) as [first [others E]]. rewrite E.
  exists c, first. split; [reflexivity|exact Hi].
Qed.

Lemma filterVariant_loop_again :
  forall (staged : bool) (exprFunc : MatchFunc) (path : option string)
         (p : value) (i : nat) (variants : list value) (p' : value),
    (forall fields, resolveValue (marked fields) path
                    = resolveValue (VObj fields) path) ->
    filterVariant_loop staged exprFunc path p true i variants = Ok (true, p') ->
    exists (j : nat) (fields : list (string * value)),
      nth_error variants j = Some (VObj fields)
      /\ p' = put_variant p staged (i + j) (marked fields)
      /\ forall (q : value) (mark : bool),
           filterVariant_loop staged exprFunc path q mark i
             (replace_nth j (marked fields) variants)
           = matched q staged (i + j) (marked fields) mark.
Proof.
  intros staged exprFunc path p i variants p' Hpath H.
  destruct variants as [|variant rest]; simpl in H; [discriminate|].
  destruct (resolveValue variant path) as [v|e| |] eqn:Hr; simpl in H;
    try discriminate.
  destruct (exprFunc v) as [[|]|e| |] eqn:He; simpl in H; try discriminate.
  destruct variant; simpl in H; try discriminate.
  inversion H; subst p'; clear H.
  exists 0%nat, fields. rewrite Nat.add_0_r.
  split; [reflexivity|]. split; [reflexivity|].
  intros q mark. cbn [replace_nth filterVariant_loop].
  rewrite Hpath, Hr. cbn [bind]. rewrite He. reflexivity.
Qed.

Lemma scoped_centAmount_marked :
  forall fields : list (string * value),
    scoped_centAmount (marked fields) = scoped_centAmount (VObj fields).
Proof.
  intros fields. unfold scoped_centAmount.
  rewrite (get_prop_marked fields "scopedPrice" eq_refl). reflexivity.
Qed.

Lemma filterScopedPrice_loop_again :
  forall (staged : bool) (exprFunc : MatchFunc) (p : value) (i : nat)
         (variants : list value) (p' : value),
    filterScopedPrice_loop staged exprFunc p true i variants = Ok (true, p') ->
    exists (j : nat) (fields : list (string * value)),
      nth_error variants j = Some (VObj fields)
      /\ p' = put_variant p staged (i + j) (marked fields)
      /\ forall (q : value) (mark : bool),
           filterScopedPrice_loop staged exprFunc q mark i
             (replace_nth j (marked fields) variants)
           = matched q staged (i + j) (marked fields) mark.
Proof.
  intros staged exprFunc p i variants p' H.
  destruct variants as [|variant rest]; simpl in H; [discriminate|].
  destruct (scoped_centAmount variant) as [v|e| |] eqn:Hr; simpl in H;
    try discriminate.
  destruct (exprFunc v) as [[|]|e| |] eqn:He; simpl in H; try discriminate.
  destruct variant; simpl in H; try discriminate.
  inversion H; subst p'; clear H.
  exists 0%nat, fields. rewrite Nat.add_0_r.
  split; [reflexivity|]. split; [reflexivity|].
  intros q mark. cbn [replace_nth filterScopedPrice_loop].
  rewrite scoped_centAmount_marked, Hr. cbn [bind]. rewrite He. reflexivity.
Qed.

Lemma filterPrice_loop_again :
  forall (staged : bool) (exprFunc : MatchFunc) (p : value)
         (variants : list value) (i : nat) (p' : value),
    filterPrice_loop staged exprFunc p true i variants = Ok (true, p') ->
    exists (j : nat) (fields : list (string * value)),
      nth_error variants j = Some (VObj fields)
      /\ p' = put_variant p staged (i + j) (marked fields)
      /\ forall (q : value) (mark : bool),
           filterPrice_loop staged exprFunc q mark i
             (replace_nth j (marked fields) variants)
           = matched q staged (i + j) (marked fields) mark.
Proof.
  intros staged exprFunc p.
  induction variants as [|variant rest IH]; intros i p' H; simpl in H.
  - discriminate.
  - destruct (get_prop variant "prices") as [prices|e| |] eqn:Hp; simpl in H;
      try discriminate.
    destruct (truthy prices) eqn:Ht; simpl in H.
    + destruct (get_prop prices "0") as [price|e| |] eqn:H0; simpl in H;
        try discriminate.
      destruct (get_prop price "value") as [pv|e| |] eqn:Hv; simpl in H;
        try discriminate.
      destruct (get_prop pv "centAmount") as [c|e| |] eqn:Hc; simpl in H;
        try discriminate.
      destruct (exprFunc c) as [[|]|e| |] eqn:He; simpl in H; try discriminate.
      destruct variant; simpl in H; try discriminate.
      inversion H; subst p'; clear H.
      exists 0%nat, fields. rewrite Nat.add_0_r.
      split; [reflexivity|]. split; [reflexivity|].
      intros q mark. cbn [replace_nth filterPrice_loop].
      rewrite (get_prop_marked fields "prices" eq_refl), Hp. cbn [bind].
      rewrite Ht. cbn [negb]. rewrite H0. cbn [bind]. rewrite Hv. cbn [bind].
      rewrite Hc. cbn [bind]. rewrite He. reflexivity.
    + destruct (IH _ _ H) as [j [fields [Hn [Hp' Hall]]]].
      exists (S j), fields. rewrite Nat.add_succ_r.
      split; [exact Hn|]. split; [exact Hp'|].
      intros q mark. cbn [replace_nth filterPrice_loop].
      rewrite Hp. cbn [bind]. rewrite Ht. cbn [negb]. apply Hall.
Qed.

Lemma attribute_loop_none_again :
  forall (staged : bool) (exprFunc : MatchFunc) (attrName path : option string)
         (p : value) (m : bool) (i : nat) (variant : value) (attrs : list value),
    attribute_loop staged exprFunc attrName path p m i variant attrs = Ok None ->
    forall (q : value) (mark : bool) (variant' : value),
      attribute_loop staged exprFunc attrName path q mark i variant' attrs
      = Ok None.
Proof.
  intros staged exprFunc attrName path p m i variant.
  induction attrs as [|attr attrs IH]; intros H q mark variant'; simpl in H |- *.
  - reflexivity.
  - destruct (get_prop attr "name") as [name|e| |]; simpl in H |- *;
      try discriminate.
    destruct (name_differs name attrName); [apply (IH H)|].
    destruct (get_prop attr "value") as [av|e| |]; simpl in H; try discriminate.
    destruct (resolveValue av path) as [v|e| |]; simpl in H; try discriminate.
    destruct (exprFunc v) as [[|]|e| |]; simpl in H; try discriminate.
    destruct (matched p staged i variant m) as [r|e| |]; discriminate.
Qed.

Lemma attribute_loop_again :
  forall (staged : bool) (exprFunc : MatchFunc) (attrName path : option string)
         (p : value) (i : nat) (variant : value) (attrs : list value)
         (p' : value),
    attribute_loop staged exprFunc attrName path p true i variant attrs
    = Ok (Some (true, p')) ->
    exists fields,
      variant = VObj fields
      /\ p' = put_variant p staged i (marked fields)
      /\ forall (q : value) (mark : bool) (variant' : value),
           attribute_loop staged exprFunc attrName path q mark i variant' attrs
           = (r <- matched q staged i variant' mark ;; Ok (Some r)).
Proof.
  intros staged exprFunc attrName path p i variant.
  induction attrs as [|attr attrs IH]; intros p' H; simpl in H.
  - discriminate.
  - destruct (get_prop attr "name") as [name|e| |] eqn:Hn; simpl in H;
      try discriminate.
    destruct (name_differs name attrName) eqn:Hd.
    + destruct (IH _ H) as [fields [Hv [Hp Hall]]].
      exists fields. split; [exact Hv|]. split; [exact Hp|].
      intros q mark variant'. cbn [attribute_loop].
      rewrite Hn. cbn [bind]. rewrite Hd. apply Hall.
    + destruct (get_prop attr "value") as [av|e| |] eqn:Hav; simpl in H;
        try discriminate.
      destruct (resolveValue av path) as [v|e| |] eqn:Hr; simpl in H;
        try discriminate.
      destruct (exprFunc v) as [[|]|e| |] eqn:He; simpl in H; try discriminate.
      destruct variant; simpl in H; try discriminate.
      inversion H; subst p'; clear H.
      exists fields. split; [reflexivity|]. split; [reflexivity|].
      intros q mark variant'. cbn [attribute_loop].
      rewrite Hn. cbn [bind]. rewrite Hd, Hav. cbn [bind].
      rewrite Hr. cbn [bind]. rewrite He. reflexivity.
Qed.

Lemma filterAttribute_loop_again :
  forall (staged : bool) (exprFunc : MatchFunc) (attrName path : option string)
         (p : value) (variants : list value) (i : nat) (p' : value),
    filterAttribute_loop staged exprFunc attrName path p true i variants
    = Ok (true, p') ->
    exists (j : nat) (fields : list (string * value)),
      nth_error variants j = Some (VObj fields)
      /\ p' = put_variant p staged (i + j) (marked fields)
      /\ forall (q : value) (mark : bool),
           filterAttribute_loop staged exprFunc attrName path q mark i
             (replace_nth j (marked fields) variants)
           = matched q staged (i + j) (marked fields) mark.
Proof.
  intros staged exprFunc attrName path p.
  induction variants as [|variant rest IH]; intros i p' H; simpl in H.
  - discriminate.
  - destruct (get_prop variant "attributes") as [a|e| |] eqn:Ha; simpl in H;
      try discriminate.
    destruct (truthy a) eqn:Ht; simpl in H.
    + destruct (iterate a) as [attrs|e| |] eqn:Hit; simpl in H;
        try discriminate.
      destruct (attribute_loop staged exprFunc attrName path p true i variant
                  attrs) as [[[b0 p0]|]|e| |] eqn:E; simpl in H;
        try discriminate.
      * inversion H; subst b0 p0; clear H.
        destruct (attribute_loop_again _ _ _ _ _ _ _ _ _ E)
          as [fields [-> [-> Hall]]].
        exists 0%nat, fields. rewrite Nat.add_0_r.
        split; [reflexivity|]. split; [reflexivity|].
        intros q mark. cbn [replace_nth filterAttribute_loop].
        rewrite (get_prop_marked fields "attributes" eq_refl), Ha. cbn [bind].
        rewrite Ht. cbn [negb]. rewrite Hit. cbn [bind]. rewrite Hall.
        destruct (matched q staged i (marked fields) mark) as [[b1 q1]|e| |];
          reflexivity.
      * destruct (IH _ _ H) as [j [fields [Hn [Hp' Hall]]]].
        exists (S j), fields. rewrite Nat.add_succ_r.
        split; [exact Hn|]. split; [exact Hp'|].
        intros q mark. cbn [replace_nth filterAttribute_loop].
        rewrite Ha. cbn [bind]. rewrite Ht. cbn [negb]. rewrite Hit. cbn [bind].
        rewrite (attribute_loop_none_again _ _ _ _ _ _ _ _ _ E q mark variant).
        cbn [bind]. apply Hall.
    + destruct (IH _ _ H) as [j [fields [Hn [Hp' Hall]]]].
      exists (S j), fields. rewrite Nat.add_succ_r.
      split; [exact Hn|]. split; [exact Hp'|].
      intros q mark. cbn [replace_nth filterAttribute_loop].
      rewrite Ha. cbn [bind]. rewrite Ht. cbn [negb]. apply Hall.
Qed.

(** X22. Filtering is stable under its own marking: when a compiled filter
    called with [markMatchingVariant] returns true, calling it again on the
    product it left returns true again, with or without
    [markMatchingVariant], and changes nothing more. *)
Theorem marked_product_still_matches :
  forall (filter : string) (staged : bool) (pf : ProductFilter)
         (p p' : value) (mark : bool),
    parseFilterExpression filter staged = Ok pf ->
    pf p true = Ok (true, p') ->
    pf p' mark = Ok (true, p').
Proof.
  intros filter staged pf p p' mark Hpf Hcall.
  assert (Hfinish :
            forall (loop : value -> bool -> nat -> list value
                           -> outcome (bool * value))
                   (vs : list value),
              getVariants p staged = Ok vs ->
              (exists (j : nat) (fields : list (string * value)),
                  nth_error vs j = Some (VObj fields)
                  /\ p' = put_variant p staged (0 + j) (marked fields)
                  /\ forall (q : value) (mark : bool),
                       loop q mark 0%nat (replace_nth j (marked fields) vs)
                       = matched q staged (0 + j) (marked fields) mark) ->
              (variants <- getVariants p' staged ;; loop p' mark 0%nat variants)
              = Ok (true, p')).
  { intros loop vs Hget [j [fields [Hn [-> Hall]]]].
    rewrite (getVariants_put_variant _ _ _ _ _ _ Hget Hn). cbn [bind].
    rewrite Hall. apply matched_again. }
  unfold parseFilterExpression in Hpf.
  apply bind_Ok_inv in Hpf. destruct Hpf as [exprFunc [_ Hpf]].
  destruct (startsWith (filter_source filter) "variants.attributes").
  { inversion Hpf; subst pf. unfold filterAttribute in Hcall |- *.
    destruct (getVariants p staged) as [vs|e| |] eqn:Hget; simpl in Hcall;
      try discriminate.
    apply (Hfinish _ vs eq_refl).
    apply (filterAttribute_loop_again _ _ _ _ _ _ _ _ Hcall). }
  destruct (startsWith (filter_source filter) "variants.price").
  { inversion Hpf; subst pf. unfold filterPrice in Hcall |- *.
    destruct (getVariants p staged) as [vs|e| |] eqn:Hget; simpl in Hcall;
      try discriminate.
    apply (Hfinish _ vs eq_refl).
    apply (filterPrice_loop_again _ _ _ _ _ _ Hcall). }
  destruct (startsWith (filter_source filter) "variants.scopedPrice").
  { inversion Hpf; subst pf. unfold filterScopedPrice in Hcall |- *.
    destruct (negb (String.eqb (filter_source filter)
                      "variants.scopedPrice.value.centAmount"));
      [discriminate|].
    destruct (getVariants p staged) as [vs|e| |] eqn:Hget; simpl in Hcall;
      try discriminate.
    apply (Hfinish _ vs eq_refl).
    apply (filterScopedPrice_loop_again _ _ _ _ _ _ Hcall). }
  destruct (startsWith (filter_source filter) "variants.sku"
            || startsWith (filter_source filter) "variants.key") eqn:Hfam.
  { inversion Hpf; subst pf. unfold filterVariant in Hcall |- *.
    destruct (variant_source_path_head _ Hfam) as [c [r [Hpath Hc]]].
    rewrite Hpath in Hcall |- *.
    destruct (getVariants p staged) as [vs|e| |] eqn:Hget; simpl in Hcall;
      try discriminate.
    apply (Hfinish _ vs eq_refl).
    apply (filterVariant_loop_again _ _ _ _ _ _ _
             (fun fields => resolveValue_marked fields c r Hc) Hcall). }
  inversion Hpf; subst pf. discriminate.
Qed.

(** The theorem at a colour filter on a product whose second candidate is
    the red one, called a second time without [markMatchingVariant]. *)
Lemma marked_product_still_matches_witness :
  exists (pf : ProductFilter) (p' : value),
    pf (product_of variant_plain [variant_red]) true = Ok (true, p')
    /\ pf p' false = Ok (true, p').
Proof.
  eexists. eexists. split.
  2: { eapply (marked_product_still_matches
                 ("variants.attributes.color:" ++ String dquote "red"
                    ++ String dquote "")
                 false _ (product_of variant_plain [variant_red]) _ false).
       - vm_compute. reflexivity.
       - vm_compute. reflexivity. }
  vm_compute. reflexivity.
Defined.
